(** * quantiphyse-asl: execution workspace (basil/qpwrap.py) and BASIL step
    sequencer (basil/process.py)

    Shallow embedding of the Python sources.  Dictionaries are finite maps
    ([gmap]), iterated in the order of [map_to_list]; Python exceptions are
    the [Raise] outcome of [result]; the process working directory, the
    workspace files and the log sink are fields of an explicit [World];
    signal emissions and calls into the fitting process are recorded as a
    list of [Effect]s.  The [debug] messages of process.py (a logging
    helper of the host application) are left out. *)

From Stdlib Require Import ZArith QArith Ascii String DecimalString.
From stdpp Require Import base gmap strings list pretty.

Open Scope string_scope.
Open Scope list_scope.
Open Scope nat_scope.

(** ** Python runtime values and exceptions *)

Module Py.

(** Values stored in option mappings. *)
Inductive value :=
| None_
| Bool (b : bool)
| Int (z : Z)
| Str (s : string)
| Dict (d : gmap string string).

(** [bool(v)] *)
Definition truthy (v : value) : bool :=
  match v with
  | None_ => false
  | Bool b => b
  | Int z => negb (z =? 0)%Z
  | Str s => negb (String.eqb s "")
  | Dict d => negb (bool_decide (d = ∅))
  end.

(** [v == ""] *)
Definition eq_empty_str (v : value) : bool :=
  match v with
  | Str s => String.eqb s ""
  | _ => false
  end.

(** [v == True]: [bool] is a subclass of [int], so [1 == True] holds. *)
Definition eq_True (v : value) : bool :=
  match v with
  | Bool b => b
  | Int z => (z =? 1)%Z
  | _ => false
  end.

(** [", ".join(...)] and friends *)
Fixpoint join (sep : string) (l : list string) : string :=
  match l with
  | [] => ""
  | [s] => s
  | s :: l' => s +:+ sep +:+ join sep l'
  end.

(** [str(v)] *)
Definition str (v : value) : string :=
  match v with
  | None_ => "None"
  | Bool true => "True"
  | Bool false => "False"
  | Int z => pretty z
  | Str s => s
  | Dict d =>
      "{" +:+ join ", " ((λ kv, "'" +:+ kv.1 +:+ "': '" +:+ kv.2 +:+ "'")
                           <$> map_to_list d) +:+ "}"
  end.

Inductive exn :=
| ValueError (msg : string)
| IndexError
| KeyError (key : string)
| TypeError
| AttributeError
| RuntimeError (msg : string)
| OSError (what : string)
| IOError (what : string)
| ZeroDivisionError.

Inductive result (A : Type) :=
| Ok (a : A)
| Raise (e : exn).
Arguments Ok {A} a.
Arguments Raise {A} e.

Definition bind {A B} (r : result A) (k : A → result B) : result B :=
  match r with
  | Ok a => k a
  | Raise e => Raise e
  end.

Definition map {A B} (f : A → B) (r : result A) : result B :=
  match r with
  | Ok a => Ok (f a)
  | Raise e => Raise e
  end.

Definition is_Ok {A} (r : result A) : Prop := ∃ a, r = Ok a.

End Py.

Notation "x ←! e ;; k" := (Py.bind e (λ x, k))
  (at level 100, e at next level, k at level 200, right associativity).

(** Newline, as in the ["\n"] literals of the sources. *)
Definition nl : string := String (ascii_of_nat 10) "".

(** ** Images

    The fields of [Image] that the modelled code reads. *)
Record Image := mkImage {
  iname : string;   (* name without directory or extension *)
  ipath : string;   (* path without extension *)
  fname : string;   (* file name with extension *)
  fpath : string;   (* full path with extension *)
  ext : string;
  ext_matches : list string
}.

(** An image file in the current directory, named with the default
    extension. *)
Definition demo_image (name : string) : Image :=
  mkImage name name (name +:+ ".nii.gz") (name +:+ ".nii.gz") ".nii.gz" [".nii.gz"].

(** ** The execution workspace (basil/qpwrap.py) *)

Module Qpwrap.

(** *** Matrix text format ([matrix_to_text], [text_to_matrix])

    The text of a matrix file is a list of characters. *)
Definition text := list ascii.

Definition LF : ascii := ascii_of_nat 10.
Definition CR : ascii := ascii_of_nat 13.

(** [sep.join(l)] *)
Fixpoint join (sep : text) (l : list text) : text :=
  match l with
  | [] => []
  | [s] => s
  | s :: l' => s ++ sep ++ join sep l'
  end.

(** [s.splitlines()] of a byte string: lines end at LF, CR or CR LF, and a
    terminator at the very end opens no further line. *)
Fixpoint splitlines (s : text) : list text :=
  match s with
  | [] => []
  | c :: rest =>
      if bool_decide (c = CR) then
        match rest with
        | c' :: rest' =>
            if bool_decide (c' = LF) then [] :: splitlines rest'
            else [] :: splitlines rest
        | [] => [[]]
        end
      else if bool_decide (c = LF) then [] :: splitlines rest
      else
        match splitlines rest with
        | [] => [[c]]
        | l :: ls => (c :: l) :: ls
        end
  end.

(** [s.split()]: the maximal runs of non-whitespace characters. *)
Fixpoint split (s : text) : list text :=
  match s with
  | [] => []
  | c :: rest =>
      if Ascii.is_space c then split rest
      else
        match rest with
        | [] => [[c]]
        | c' :: _ =>
            if Ascii.is_space c' then [c] :: split rest
            else
              match split rest with
              | l :: ls => (c :: l) :: ls
              | [] => [[c]]
              end
        end
  end.

(** [s.split("#", 1)[0]] *)
Fixpoint before_hash (s : text) : text :=
  match s with
  | [] => []
  | c :: rest => if bool_decide (c = "#"%char) then [] else c :: before_hash rest
  end.

(** [s.strip()] *)
Fixpoint lstrip (s : text) : text :=
  match s with
  | [] => []
  | c :: rest => if Ascii.is_space c then lstrip rest else s
  end.
Definition strip (s : text) : text := reverse (lstrip (reverse (lstrip s))).

(** [s.replace(",", " ")] *)
Definition replace_comma (s : text) : text :=
  (λ c, if bool_decide (c = ","%char) then " "%char else c) <$> s.

(** The values of one line of a matrix file: what the loop body of
    [text_to_matrix] binds to [vals]. *)
Definition line_vals (line : text) : list text :=
  let line := strip (before_hash line) in
  split (replace_comma line).

Definition no_space (s : text) : Prop := Forall (λ c, Ascii.is_space c = false) s.
Definition no_newline (s : text) : Prop := Forall (λ c, c ≠ CR ∧ c ≠ LF) s.

Section Matrix.

(** Floating-point numbers with Python's [float(s)] (failing on what is not
    a number) and [str(v)]. *)
Variable float : Type.
Variable float_of_str : text → option float.
Variable str_float : float → text.

Definition matrix_to_text (mat : list (list float)) : text :=
  let rows := (λ row, join [" "%char] (str_float <$> row)) <$> mat in
  join [LF] rows.

(** [for val in vals: float(val)], then [[float(v) for v in vals]] *)
Fixpoint float_row (vals : list text) : Py.result (list float) :=
  match vals with
  | [] => Py.Ok []
  | val :: vals' =>
      match float_of_str val with
      | Some v => row ←! float_row vals';; Py.Ok (v :: row)
      | None =>
          Py.Raise (Py.ValueError ("Non-numeric value '" +:+ string_of_list_ascii val
                                   +:+ "' found in matrix text"))
      end
  end.

(** The loop of [text_to_matrix] over the remaining [lines]; [ncols] is
    negative until the first row has been seen.  The result lists the rows
    appended to [fvals] from here on. *)
Fixpoint matrix_rows (ncols : Z) (lines : list text) : Py.result (list (list float)) :=
  match lines with
  | [] => Py.Ok []
  | line :: lines' =>
      let vals := line_vals line in
      match vals with
      | [] => matrix_rows ncols lines'
      | _ =>
          if (ncols <? 0)%Z then
            row ←! float_row vals;;
            rows ←! matrix_rows (Z.of_nat (length vals)) lines';;
            Py.Ok (row :: rows)
          else if negb (Z.of_nat (length vals) =? ncols)%Z then
            Py.Raise (Py.ValueError
              "File must contain a matrix of numbers with fixed size (rows/columns)")
          else
            row ←! float_row vals;;
            rows ←! matrix_rows ncols lines';;
            Py.Ok (row :: rows)
      end
  end.

Definition text_to_matrix (t : text) : Py.result (list (list float)) :=
  matrix_rows (-1) (splitlines t).

(** The rows of a matrix text that are neither blank nor comment only. *)
Definition text_rows (t : text) : list (list text) :=
  filter (λ vals, vals ≠ []) (line_vals <$> splitlines t).

(** Some row differs in length from the first one. *)
Definition ragged (rows : list (list text)) : Prop :=
  ∃ row0 row, head rows = Some row0 ∧ row ∈ rows ∧ length row ≠ length row0.

(** Some entry is not a number. *)
Definition non_numeric (rows : list (list text)) : Prop :=
  ∃ row val, row ∈ rows ∧ val ∈ row ∧ float_of_str val = None.

(** A rendered value that reads back as a single field: not empty, without
    white space, comma or comment sign. *)
Definition field_ok (s : text) : bool :=
  negb (bool_decide (s = [])) &&
  forallb (λ c, negb (Ascii.is_space c) && negb (bool_decide (c = ","%char))
                && negb (bool_decide (c = "#"%char))) s.

(** [v] is rendered as a single field that [float] reads back as a value
    [approx]imately equal to it. *)
Definition reads_back (approx : float → float → Prop) (v : float) : Prop :=
  field_ok (str_float v) = true ∧
  ∃ v', float_of_str (str_float v) = Some v' ∧ approx v v'.

End Matrix.

(** *** Images: extension inference ([Image._guess_extension]) *)

Definition exts : list string := [""; ".nii"; ".nii.gz"].

(** Modelled from the spec: the head of class [Image] (its constructor) is
    absent from the sources.  Section 6 has an image name default "to the
    most common compressed extension if none exist yet", and the docstring
    of [_guess_extension] names it: [.nii.gz].  This is the value of
    [self.ext] when [_guess_extension] is entered. *)
Definition default_ext : string := ".nii.gz".

(** [exists path] is [os.path.exists(path)]. *)
Definition _guess_extension (exists_ : string → bool) (self : Image) : Image :=
  let ext_matches := List.filter (λ ext, exists_ (ipath self +:+ ext)) exts in
  match ext_matches with
  | ext0 :: _ =>
      mkImage (iname self) (ipath self) (fname self) (fpath self) ext0 ext_matches
  | [] =>
      mkImage (iname self) (ipath self) (fname self) (fpath self) (ext self) ext_matches
  end.

(** *** The world a workspace runs in *)

Record World := mkWorld {
  cwd : string;              (* the current directory of the process *)
  dirs : gset string;        (* the directories that exist *)
  files : gmap string Z;     (* the regular files below the workspace
                                directory, by path relative to it, with
                                their modification times *)
  log : list string          (* what has been written to the log sink *)
}.

Definition set_cwd (v : string) (w : World) : World :=
  mkWorld v (dirs w) (files w) (log w).
Definition set_files (v : gmap string Z) (w : World) : World :=
  mkWorld (cwd w) (dirs w) v (log w).
Definition set_log (v : list string) (w : World) : World :=
  mkWorld (cwd w) (dirs w) (files w) v.

(** Computations that read and change the world and may raise. *)
Definition M (A : Type) : Type := World → Py.result A * World.

Definition ret {A} (a : A) : M A := λ w, (Py.Ok a, w).
Definition raise {A} (e : Py.exn) : M A := λ w, (Py.Raise e, w).
Definition bind {A B} (m : M A) (k : A → M B) : M B := λ w,
  match m w with
  | (Py.Ok a, w') => k a w'
  | (Py.Raise e, w') => (Py.Raise e, w')
  end.
Definition lift {A} (r : Py.result A) : M A := λ w, (r, w).
(** An operation that only inspects the world. *)
Definition reads {A} (f : World → Py.result A) : M A := λ w, (f w, w).
(** An operation on the workspace files. *)
Definition writes {A} (f : World → Py.result (A * gmap string Z)) : M A := λ w,
  match f w with
  | Py.Ok (a, files_after) => (Py.Ok a, mkWorld (cwd w) (dirs w) files_after (log w))
  | Py.Raise e => (Py.Raise e, w)
  end.

(** [try: body finally: final] *)
Definition try_finally {A} (body : M A) (final : M unit) : M A := λ w,
  let '(r, w1) := body w in
  match final w1 with
  | (Py.Ok _, w2) => (r, w2)
  | (Py.Raise e, w2) => (Py.Raise e, w2)
  end.

(** [try: body except: handler], the handler being given the exception so
    that a bare [raise] can raise it again. *)
Definition try_except {A} (body : M A) (handler : Py.exn → M A) : M A := λ w,
  match body w with
  | (Py.Ok a, w1) => (Py.Ok a, w1)
  | (Py.Raise e, w1) => handler e w1
  end.

Notation "x ←$ e ;; k" := (bind e (λ x, k))
  (at level 100, e at next level, k at level 200, right associativity).
Notation "' x ←$ e ;; k" := (bind e (λ x, k))
  (at level 20, x pattern, e at level 99, k at level 200).
Notation "e ;;$ k" := (bind e (λ _, k))
  (at level 100, k at level 200, right associativity).

(** A computation that leaves the set of directories as it is. *)
Definition keeps_dirs {A} (m : M A) : Prop := ∀ w, dirs (m w).2 = dirs w.

Definition getcwd : M string := λ w, (Py.Ok (cwd w), w).
Definition chdir (d : string) : M unit := λ w,
  if decide (d ∈ dirs w) then (Py.Ok (), set_cwd d w)
  else (Py.Raise (Py.OSError d), w).
Definition log_write (s : string) : M unit := λ w, (Py.Ok (), set_log (log w ++ [s]) w).

(** [os.path.join] and [os.path.basename], for relative names without
    trailing separators. *)
Definition path_join (d name : string) : string := d +:+ "/" +:+ name.
Fixpoint basename_go (cur : string) (s : string) : string :=
  match s with
  | EmptyString => String.rev cur
  | String c s' =>
      if bool_decide (c = "/"%char) then basename_go "" s'
      else basename_go (String c cur) s'
  end.
Definition basename (p : string) : string := basename_go "" p.

(** [s.lower()] *)
Definition lower_char (c : ascii) : ascii :=
  let n := nat_of_ascii c in
  if (65 <=? n) && (n <=? 90) then ascii_of_nat (n + 32) else c.
Fixpoint lower (s : string) : string :=
  match s with
  | EmptyString => EmptyString
  | String c s' => String (lower_char c) (lower s')
  end.

(** [str] of a dictionary of files and of a list of names, as the debug
    messages print them. *)
Definition str_files (d : gmap string Z) : string :=
  "{" +:+ Py.join ", " ((λ kv, "'" +:+ kv.1 +:+ "': " +:+ pretty kv.2) <$> map_to_list d)
      +:+ "}".
Definition str_names (l : list string) : string :=
  "[" +:+ Py.join ", " ((λ f, "'" +:+ f +:+ "'") <$> l) +:+ "]".

Record Workspace := mkWorkspace {
  workdir : string;
  _path : list string;
  debug_enabled : bool;
  echo_enabled : bool
}.

Inductive itype := FILENAME | IMAGE | NUMPY.

(** [args] of [run]: a string, or a dictionary rendered as [key value]. *)
Inductive Args :=
| args_str (s : string)
| args_dict (d : gmap string Py.value).

(** Keyword arguments of the tool wrappers; [None] is an absent key. *)
Record Kwargs := mkKwargs {
  output_name : option string;
  args : option string;
  mask : option bool;
  brain : option bool;
  output_mat : option string;
  output_invmat : option string
}.
Definition no_kwargs : Kwargs := mkKwargs None None None None None None.

Section Run.

(** What lies outside the sources: numeric arrays and floats, the regular
    expression engine, the shell tokenizer, the file system outside the
    workspace, the launched program, and the absent head of class [Image]. *)
Variable ndarray : Type.
Variable float : Type.
Variable float_of_str : text → option float.
Variable str_float : float → text.
(** [numpy.linalg.inv] *)
Variable linalg_inv : list (list float) → Py.result (list (list float)).
(** [re.match(pattern, name) is not None], for a valid pattern. *)
Variable re_match : string → string → bool.
(** [shlex.split] *)
Variable shlex_split : string → list string.
(** [os.path.isfile(ex) and os.access(ex, os.X_OK)] *)
Variable is_executable : string → bool.
(** [subprocess.Popen(argv, ...)] followed by [p.wait()]: [OSError] when the
    program cannot be started, otherwise its exit status, the workspace
    files as it leaves them and the output it sends to the log. *)
Variable popen_wait : list string → World → Py.result (Z * gmap string Z * list string).
(** The clock that stamps a file written by the process itself. *)
Variable clock : World → Z.
(** Modelled from the spec: [Image(fname)] for an existing file, "each
    returned file is opportunistically loaded as an image", raising for a
    file that does not parse as one; [Image(name, data=..., save=True)],
    "eager save into the workspace on construction", with the workspace
    files it leaves; and [data()], which "lazily loads from disk". *)
Variable Image_ : string → World → Py.result Image.
Variable Image_save : string → ndarray → World → Py.result (Image * gmap string Z).
Variable Image_data : Image → World → Py.result ndarray.
(** [tempfile.NamedTemporaryFile(dir=..., prefix=..., suffix=..., delete=False)],
    closed at once: the name of the file it has created, and the workspace
    files with it. *)
Variable NamedTemporaryFile :
  string → string → string → World → Py.result (string * gmap string Z).
(** [open(fname, "r").read()] *)
Variable read_file : string → World → Py.result string.

(** The Python objects that the wrappers take and return. *)
#[warnings="-register-all"]
Inductive obj :=
| Img (img : Image)
| Str (s : string)
| Array (a : ndarray)
| Matrix (m : list (list float))
| Dict (d : gmap string string)
| List (l : list obj)
| Tuple (l : list obj).

Definition echo (self : Workspace) (s : string) : M unit :=
  if echo_enabled self then log_write s ;;$ log_write nl else ret ().

Definition debug (self : Workspace) (s : string) : M unit :=
  if debug_enabled self then log_write s ;;$ log_write nl else ret ().

(** [add_text]; the contents of files are not part of [World]. *)
Definition add_text (self : Workspace) (t : text) (name : string) : M unit := λ w,
  (Py.Ok (), set_files (<[name := clock w]> (files w)) w).

Fixpoint _find_in (path : list string) (cmd : string) : string :=
  match path with
  | [] => cmd
  | dname :: path' =>
      let ex := path_join dname cmd in
      if is_executable ex then ex else _find_in path' cmd
  end.
Definition _find (self : Workspace) (cmd : string) : string := _find_in (_path self) cmd.

(** [_get_files]: the walk over the working directory, read off [World]. *)
Definition _get_files (self : Workspace) : M (gmap string Z) := λ w, (Py.Ok (files w), w).

(** The list built by the loop of [_changed_files]. *)
Definition changed_files (pre post : gmap string Z) : list string :=
  omap (λ '(f, mtime),
          match pre !! f with
          | None => Some f
          | Some t => if (t <? mtime)%Z then Some f else None
          end) (map_to_list post).

Definition _changed_files (self : Workspace) (pre post : gmap string Z) : M (list string) :=
  debug self ("Post: " +:+ str_files post) ;;$
  let changed_files := changed_files pre post in
  debug self ("Changed files: " +:+ str_names changed_files) ;;$
  ret changed_files.

(** [for exp in expected: if re.match(exp, fname): return_files.append(fname)];
    a pattern that is [None] makes [re.match] raise. *)
Fixpoint matches (expected : list (option string)) (fname : string)
  : Py.result (list string) :=
  match expected with
  | [] => Py.Ok []
  | None :: _ => Py.Raise Py.TypeError
  | Some exp :: expected' =>
      rest ←! matches expected' fname;;
      Py.Ok (if re_match exp fname then fname :: rest else rest)
  end.

(** [for fname in post: ...] *)
Fixpoint expected_files (expected : list (option string)) (post : list string)
  : Py.result (list string) :=
  match post with
  | [] => Py.Ok []
  | fname :: post' =>
      here ←! matches expected fname;;
      rest ←! expected_files expected post';;
      Py.Ok (here ++ rest)
  end.

(** The first half of [_get_return_files]: the names to return. *)
Definition return_files (self : Workspace) (pre post : gmap string Z)
    (expected : list (option string)) : M (list string) :=
  match expected with
  | _ :: _ => lift (expected_files expected (map_to_list post).*1)
  | [] => _changed_files self pre post
  end.

(** The second half: each name becomes an image or, failing that, a text. *)
Fixpoint classify (self : Workspace) (names : list string)
    (imgs : list Image) (texts : gmap string string)
  : M (list Image * gmap string string) :=
  match names with
  | [] => ret (imgs, texts)
  | fname :: names' =>
      '(imgs, texts) ←$
        try_except
          (img ←$ reads (Image_ fname) ;; ret (imgs ++ [img], texts))
          (λ _,
             try_except
               (t ←$ reads (read_file fname) ;; ret (imgs, <[basename fname := t]> texts))
               (λ e,
                  log_write ("WARNING: Could not handle output file " +:+ fname +:+ nl) ;;$
                  raise e)) ;;
      classify self names' imgs texts
  end.

(** [Image(fname)] as an option: [None] when it raises. *)
Definition as_image (fname : string) (w : World) : option Image :=
  match Image_ fname w with
  | Py.Ok img => Some img
  | Py.Raise _ => None
  end.

(** The dictionary that the loop of [_get_return_files] adds to [texts]
    for [names]: each name that does not load as an image is read as a
    text and stored under its base name, a later name replacing an earlier
    one of the same base name. *)
Definition add_texts (texts : gmap string string) (names : list string) (w : World)
  : gmap string string :=
  foldl (λ texts fname,
           match as_image fname w, read_file fname w with
           | None, Py.Ok t => <[basename fname := t]> texts
           | _, _ => texts
           end) texts names.

Definition _get_return_files (self : Workspace) (pre post : gmap string Z)
    (expected : list (option string)) : M (list Image * gmap string string) :=
  names ←$ return_files self pre post expected ;;
  classify self names [] ∅.

(** [p = subprocess.Popen(argv, stdout=self.log, stderr=subprocess.STDOUT)]
    and [p.wait()] *)
Definition Popen_wait (argv : list string) : M Z := λ w,
  match popen_wait argv w with
  | Py.Ok (retcode, files_after, output) =>
      (Py.Ok retcode, set_log (log w ++ output) (set_files files_after w))
  | Py.Raise e => (Py.Raise e, w)
  end.

(** [cmd] with the arguments appended. *)
Definition command_line (cmd : string) (a : Args) : string :=
  match a with
  | args_dict d =>
      foldl (λ cmd '(arg, value),
               let cmd := cmd +:+ " " +:+ arg +:+ " " in
               match value with
               | Py.None_ => cmd
               | _ => if Py.eq_empty_str value then cmd else cmd +:+ Py.str value
               end) cmd (map_to_list d)
  | args_str s => cmd +:+ " " +:+ s
  end.

Definition run (self : Workspace) (prog : string) (a : Args)
    (expected : list (option string)) : M obj :=
  cwd ←$ getcwd ;;
  try_finally
    (chdir (workdir self) ;;$
     (* Build command line arguments from prog and args *)
     let cmd := command_line (_find self prog) a in
     echo self cmd ;;$
     (* Find out what files were in the workspace before this command *)
     pre_run_files ←$ _get_files self ;;
     (* Run the command *)
     retcode ←$ Popen_wait (shlex_split cmd) ;;
     if negb (retcode =? 0)%Z then
       raise (Py.RuntimeError ("Command '" +:+ cmd +:+ "': Non-zero output status: "
                               +:+ pretty retcode))
     else
       (* Find out what files were in the workspace after this command *)
       post_run_files ←$ _get_files self ;;
       '(imgs, text) ←$ _get_return_files self pre_run_files post_run_files expected ;;
       ret (Tuple [List (Img <$> imgs); Dict text]))
    (chdir cwd).

(** [a, b = o] *)
Definition unpack2 (o : obj) : M (obj * obj) :=
  match o with
  | Tuple [a; b] | List [a; b] => ret (a, b)
  | Tuple _ | List _ => raise (Py.ValueError "wrong number of values to unpack")
  | _ => raise Py.TypeError
  end.

(** [for i in o] over a list or tuple *)
Definition iter (o : obj) : M (list obj) :=
  match o with
  | List l | Tuple l => ret l
  | _ => raise Py.TypeError
  end.

(** [o[0]] of a list or tuple *)
Definition first (o : obj) : M obj :=
  match o with
  | List (x :: _) | Tuple (x :: _) => ret x
  | List [] | Tuple [] => raise Py.IndexError
  | _ => raise Py.TypeError
  end.

(** [files[key]] *)
Definition getitem (files : obj) (key : option string) : M string :=
  match files, key with
  | Dict d, Some k =>
      match d !! k with
      | Some t => ret t
      | None => raise (Py.KeyError k)
      end
  | Dict _, None => raise (Py.KeyError "None")
  | _, _ => raise Py.TypeError
  end.

Definition _input_img (self : Workspace) (img : obj) : M (Image * itype) :=
  match img with
  | Img i => ret (i, IMAGE)
  | Str name => i ←$ reads (Image_ name) ;; ret (i, FILENAME)
  | Array a =>
      tempname ←$ writes (NamedTemporaryFile (workdir self) "fsl" "") ;;
      i ←$ writes (Image_save tempname a) ;;
      ret (i, NUMPY)
  | _ => raise Py.TypeError
  end.

Definition _output_img (self : Workspace) (img : obj) (t : itype) : M obj :=
  match t with
  | IMAGE => ret img
  | FILENAME =>
      match img with
      | Img i => ret (Str (fpath i))
      | _ => raise Py.AttributeError
      end
  | NUMPY =>
      match img with
      | Img i => a ←$ reads (Image_data i) ;; ret (Array a)
      | _ => raise Py.AttributeError
      end
  end.

(** [[self._output_img(i, itype) for i in imgs]] *)
Fixpoint _output_imgs (self : Workspace) (imgs : list obj) (t : itype) : M (list obj) :=
  match imgs with
  | [] => ret []
  | i :: imgs' =>
      o ←$ _output_img self i t ;;
      os ←$ _output_imgs self imgs' t ;;
      ret (o :: os)
  end.

Definition _get_std (self : Workspace) (img : Image) (suffix : string) (kwargs : Kwargs)
  : string * string :=
  (default (iname img +:+ suffix) (output_name kwargs), default "" (args kwargs)).

Definition bet (self : Workspace) (img : obj) (kwargs : Kwargs) : M obj :=
  '(img, itype) ←$ _input_img self img ;;
  let '(output_name, args) := _get_std self img "_bet" kwargs in
  let mask := default false (mask kwargs) in
  let brain := default true (brain kwargs) in
  let args := ipath img +:+ " " +:+ output_name +:+ " " +:+ args in
  let args := if mask then args +:+ " -m" else args in
  let args := if negb brain then args +:+ " -n" else args in
  r ←$ run self "bet" (args_str args)
         [Some output_name; Some (output_name +:+ "_mask")] ;;
  '(imgs, _) ←$ unpack2 r ;;
  imgs ←$ iter imgs ;;
  ret_ ←$ _output_imgs self imgs itype ;;
  match ret_ with
  | [x] => ret x
  | _ => ret (Tuple ret_)
  end.

(** The rendering of one option by the loop of [fabber]. *)
Definition option_arg (k : string) (v : Py.value) : string :=
  if Py.eq_empty_str v || Py.eq_True v then " --" +:+ k
  else if Py.truthy v then " --" +:+ k +:+ "=" +:+ Py.str v
  else "".

Definition option_args (options : gmap string Py.value) : string :=
  foldl (λ option_args '(k, v), option_args +:+ option_arg k v) "" (map_to_list options).

(** The option mapping of [fabber] once the fixed keys are set. *)
Definition fabber_options (img mask : Image) (output_name : string) (overwrite : bool)
    (options : gmap string Py.value) : gmap string Py.value :=
  let options := <["data" := Py.Str (ipath img)]> options in
  let options := <["mask" := Py.Str (ipath mask)]> options in
  let options := <["output" := Py.Str output_name]> options in
  let options := <["save-mvn" := Py.Str ""]> options in
  if overwrite then <["overwrite" := Py.Str ""]> options else options.

Definition fabber (self : Workspace) (model_group : string) (img mask : obj)
    (options : gmap string Py.value) (overwrite : bool) (kwargs : Kwargs) : M obj :=
  '(img, itype) ←$ _input_img self img ;;
  '(mask, _) ←$ _input_img self mask ;;
  let '(output_name, extra_args) := _get_std self img "_fabber" kwargs in
  let options := fabber_options img mask output_name overwrite options in
  let option_args := option_args options in
  let args := option_args +:+ " " +:+ extra_args in
  r ←$ run self ("fabber_" +:+ lower model_group) (args_str args)
         [Some (output_name +:+ "/finalMVN")] ;;
  '(imgs, _) ←$ unpack2 r ;;
  img0 ←$ first imgs ;;
  _output_img self img0 itype.

Definition fast (self : Workspace) (img : obj) (kwargs : Kwargs) : M obj :=
  '(img, itype) ←$ _input_img self img ;;
  let '(output_name, args) := _get_std self img "_fast" kwargs in
  let args := "-o " +:+ output_name +:+ " " +:+ args +:+ " " +:+ ipath img in
  r ←$ run self "fast" (args_str args) [Some (output_name +:+ "_seg")] ;;
  '(imgs, _) ←$ unpack2 r ;;
  img0 ←$ first imgs ;;
  _output_img self img0 itype.

Definition flirt (self : Workspace) (img ref : obj) (kwargs : Kwargs) : M obj :=
  '(img, itype) ←$ _input_img self img ;;
  '(ref, _) ←$ _input_img self ref ;;
  let '(output_name, args) := _get_std self img "_reg" kwargs in
  let args := "-in " +:+ ipath img +:+ " -ref " +:+ ipath ref
              +:+ " -out " +:+ output_name +:+ " " +:+ args in
  let expected := [Some output_name] in
  let output_mat := output_mat kwargs in
  let output_invmat := output_invmat kwargs in
  let '(args, expected) :=
    if bool_decide (output_mat ≠ None) || bool_decide (output_invmat ≠ None) then
      (args +:+ " -omat " +:+ default "None" output_mat, expected ++ [output_mat])
    else (args, expected) in
  r ←$ run self "flirt" (args_str args) expected ;;
  '(imgs, files) ←$ unpack2 r ;;
  img0 ←$ first imgs ;;
  out ←$ _output_img self img0 itype ;;
  let ret_ := [out] in
  ret_ ←$ match output_mat with
          | Some _ =>
              t ←$ getitem files output_mat ;;
              m ←$ lift (text_to_matrix float float_of_str (list_ascii_of_string t)) ;;
              ret (ret_ ++ [Matrix m])
          | None => ret ret_
          end ;;
  ret_ ←$ match output_invmat with
          | Some invname =>
              t ←$ getitem files output_mat ;;
              m ←$ lift (text_to_matrix float float_of_str (list_ascii_of_string t)) ;;
              invmat ←$ lift (linalg_inv m) ;;
              add_text self (matrix_to_text float str_float invmat) invname ;;$
              ret (ret_ ++ [Matrix invmat])
          | None => ret ret_
          end ;;
  match ret_ with
  | [_] => ret (List ret_)
  | _ => ret (Tuple ret_)
  end.

Definition mcflirt (self : Workspace) (img : obj) (cost : option string) (ref : option obj)
    (kwargs : Kwargs) : M obj :=
  '(img, itype) ←$ _input_img self img ;;
  let '(output_name, args) := _get_std self img "_mc" kwargs in
  let args := "-in " +:+ ipath img +:+ " -out " +:+ output_name +:+ " " +:+ args in
  let args := match cost with Some c => args +:+ " -cost " +:+ c | None => args end in
  args ←$ match ref with
          | Some ref =>
              '(ref, _) ←$ _input_img self ref ;;
              ret (args +:+ " -r " +:+ ipath ref)
          | None => ret args
          end ;;
  r ←$ run self "mcflirt" (args_str args) [Some output_name] ;;
  '(imgs, _) ←$ unpack2 r ;;
  img0 ←$ first imgs ;;
  _output_img self img0 itype.

End Run.

Arguments Img {ndarray float} img.
Arguments Str {ndarray float} s.
Arguments Array {ndarray float} a.
Arguments Matrix {ndarray float} m.
Arguments Dict {ndarray float} d.
Arguments List {ndarray float} l.
Arguments Tuple {ndarray float} l.

(** *** The search path of a workspace ([Workspace.__init__]) *)

(** [self._path] as the constructor sets it: the [path] argument when one
    is given, and otherwise the directory of the calling program (when
    [use_local_dir] holds) followed by the [bin] directories of the
    [FSLDEVDIR] and [FSLDIR] settings that are present in the environment.
    [local_dir] is [os.path.dirname(os.path.abspath(sys.argv[0]))]. *)
Definition init_path (path : option (list string)) (use_local_dir : bool)
    (local_dir : string) (environ : gmap string string) : list string :=
  match path with
  | Some path => path
  | None =>
      let path := [] in
      let path := if use_local_dir then path ++ [local_dir] else path in
      foldl (λ path env_var,
               match environ !! env_var with
               | Some d => path ++ [path_join d "bin"]
               | None => path
               end) path ["FSLDEVDIR"; "FSLDIR"]
  end.

(** *** What a computation does to the world *)

(** The final world of the computation is related to the initial one. *)
Definition respects {A} (R : relation World) (m : M A) : Prop := ∀ w, R w (m w).2.

(** The log has grown. *)
Definition log_grows : relation World := λ w w', ∃ l, log w' = log w ++ l.

(** Nothing has happened but that the log has grown. *)
Definition only_logs : relation World := λ w w',
  cwd w' = cwd w ∧ dirs w' = dirs w ∧ files w' = files w ∧ ∃ l, log w' = log w ++ l.

(** Keyword arguments that neither [_get_std] nor the wrapper itself has
    taken out of [kwargs]. *)
Definition leftover (kwargs : Kwargs) : bool :=
  bool_decide (is_Some (mask kwargs)) || bool_decide (is_Some (brain kwargs))
  || bool_decide (is_Some (output_mat kwargs)) || bool_decide (is_Some (output_invmat kwargs)).

Section Tools.

Variable ndarray : Type.
Variable float : Type.
Variable str_float : float → text.
(** [matrix_to_text] of an array that is not held as a list of rows. *)
Variable array_text : ndarray → text.
Variable re_match : string → string → bool.
Variable shlex_split : string → list string.
Variable is_executable : string → bool.
Variable popen_wait : list string → World → Py.result (Z * gmap string Z * list string).
Variable clock : World → Z.
Variable Image_ : string → World → Py.result Image.
Variable Image_save : string → ndarray → World → Py.result (Image * gmap string Z).
Variable Image_data : Image → World → Py.result ndarray.
Variable NamedTemporaryFile :
  string → string → string → World → Py.result (string * gmap string Z).
Variable read_file : string → World → Py.result string.

Local Abbreviation obj := (obj ndarray float).
Local Abbreviation run :=
  (run ndarray float re_match shlex_split is_executable popen_wait Image_ read_file).
Local Abbreviation _input_img := (_input_img ndarray float Image_ Image_save NamedTemporaryFile).
Local Abbreviation _output_img := (_output_img ndarray float Image_data).

(** [_input_matrix]: a matrix given as an array is written to a temporary
    file of the workspace. *)
Definition _input_matrix (self : Workspace) (mat : obj) : M (string * itype) :=
  match mat with
  | Str name => ret (name, FILENAME)
  | Matrix m =>
      fname ←$ writes (NamedTemporaryFile (workdir self) "fsl" ".mat") ;;
      add_text clock self (matrix_to_text float str_float m) (basename fname) ;;$
      ret (fname, NUMPY)
  | Array a =>
      fname ←$ writes (NamedTemporaryFile (workdir self) "fsl" ".mat") ;;
      add_text clock self (array_text a) (basename fname) ;;$
      ret (fname, NUMPY)
  | _ => raise Py.TypeError
  end.

(** [ref.iname], for whatever the caller passed as [ref]. *)
Definition iname_of (ref : obj) : M string :=
  match ref with
  | Img r => ret (iname r)
  | _ => raise Py.AttributeError
  end.

(** [apply_xfm]; the call of [run] passes on what is left in [kwargs], and
    [run] takes no keyword beyond the three it is given here. *)
Definition apply_xfm (self : Workspace) (img ref xfm : obj) (kwargs : Kwargs) : M obj :=
  '(img, itype) ←$ _input_img self img ;;
  '(xfm, _) ←$ _input_matrix self xfm ;;
  let '(output_name, args) := _get_std self img "_reg" kwargs in
  ref_iname ←$ iname_of ref ;;
  let args := "-in " +:+ iname img +:+ " -ref " +:+ ref_iname +:+ " -applyxfm -init " +:+ xfm
              +:+ " -out " +:+ output_name +:+ " " +:+ args in
  if leftover kwargs then raise Py.TypeError
  else
    r ←$ run self "flirt" (args_str args) [Some output_name] ;;
    '(imgs, _) ←$ unpack2 ndarray float r ;;
    img0 ←$ first ndarray float imgs ;;
    _output_img self img0 itype.

(** [self] once [maths] has executed [self.echo_enabled = True]. *)
Definition echoing (self : Workspace) : Workspace :=
  mkWorkspace (workdir self) (_path self) (debug_enabled self) true.

(** [maths]; [pargs] are the positional arguments after [img]. *)
Definition maths (self : Workspace) (img : obj) (pargs : list string) (kwargs : Kwargs)
  : M obj :=
  '(img, itype) ←$ _input_img self img ;;
  let self := echoing self in
  let '(output_name, args) := _get_std self img "_maths" kwargs in
  let args := ipath img +:+ " " +:+ args +:+ " " +:+ output_name in
  r ←$ run self "fslmaths" (args_str args) [Some output_name] ;;
  '(imgs, _) ←$ unpack2 ndarray float r ;;
  img0 ←$ first ndarray float imgs ;;
  _output_img self img0 itype.

End Tools.

(** How often a name occurs in a list of names. *)
Definition occurrences (f : string) (names : list string) : nat :=
  length (List.filter (λ x, bool_decide (x = f)) names).

(** The result [r] of a wrapper is the image [i] in the form in which the
    input [img] was given: the image object itself for an image object, the
    path of its file for a name, and for an array the array that
    [Image.data] reads for [i] in the world [w]. *)
Definition handed_back {ndarray float} (Image_data : Image → World → Py.result ndarray)
    (img r : obj ndarray float) (i : Image) (w : World) : Prop :=
  match img with
  | Img _ => r = Img i
  | Str _ => r = Str (fpath i)
  | Array _ => ∃ a, Image_data i w = Py.Ok a ∧ r = Array a
  | _ => False
  end.

(** In a world whose current directory exists, the current directory and
    the directories are afterwards what they were. *)
Definition stays_put : relation World := λ w w',
  cwd w ∈ dirs w → cwd w' = cwd w ∧ dirs w' = dirs w.

(** *** Example inputs: integers for floats *)

Definition int_of_text (s : text) : option Z :=
  Z.of_int <$> NilZero.int_of_string (string_of_list_ascii s).
Definition text_of_int (z : Z) : text := list_ascii_of_string (pretty z).

Definition flip_matrix : list (list Z) := [[0; 1]; [-1; 0]]%Z.

(** Two values on the first line, one on the second. *)
Definition ragged_text : text :=
  list_ascii_of_string "1 2" ++ [LF] ++ list_ascii_of_string "3".

(** A directory in which [T1.nii] and [T1.nii.gz] exist, and nothing else. *)
Definition only_nii_files (path : string) : bool :=
  bool_decide (path = "T1.nii") || bool_decide (path = "T1.nii.gz").

(** *** Example inputs: a workspace with two images and three programs *)

Definition demo_workspace : Workspace :=
  mkWorkspace "/tmp/fsl" ["/usr/local/fsl/bin"] false true.

Definition demo_world : World :=
  mkWorld "/home/user" ({["/home/user"]} ∪ {["/tmp/fsl"]})
    (<["T1.nii.gz" := 1%Z]> (<["ref.nii.gz" := 1%Z]> ∅)) [].

(** [flirt] and [bet] write their output image at time 2 and exit with
    status 0; [false] exits with status 1; nothing else can be started. *)
Definition demo_program (argv : list string) (w : World)
  : Py.result (Z * gmap string Z * list string) :=
  match argv with
  | "flirt" :: _ => Py.Ok (0%Z, <["T1_reg.nii.gz" := 2%Z]> (files w), ["flirt: done"])
  | "bet" :: _ => Py.Ok (0%Z, <["T1_bet.nii.gz" := 2%Z]> (files w), [])
  | "false" :: _ => Py.Ok (1%Z, files w, [])
  | _ => Py.Raise (Py.OSError "No such file or directory")
  end.

(** A name with its [.nii.gz] ending removed. *)
Definition without_ext (name : string) : string :=
  let n := String.length name in
  if String.eqb (String.substring (n - 7) 7 name) ".nii.gz"
  then String.substring 0 (n - 7) name else name.

(** Every [.nii.gz] file of the workspace loads as an image. *)
Definition demo_Image (name : string) (w : World) : Py.result Image :=
  let base := without_ext name in
  if bool_decide (is_Some (files w !! (base +:+ ".nii.gz")))
  then Py.Ok (demo_image base) else Py.Raise (Py.IOError name).

Definition demo_read_file (name : string) (w : World) : Py.result string :=
  if bool_decide (is_Some (files w !! name))
  then Py.Ok "1 0 0 1" else Py.Raise (Py.IOError name).

Definition demo_Image_save (name : string) (a : list Z) (w : World)
  : Py.result (Image * gmap string Z) :=
  Py.Ok (demo_image name, <[name +:+ ".nii.gz" := 1%Z]> (files w)).

Definition demo_Image_data (img : Image) (w : World) : Py.result (list Z) := Py.Ok [].

Definition demo_NamedTemporaryFile (dir prefix suffix : string) (w : World)
  : Py.result (string * gmap string Z) :=
  Py.Ok (prefix +:+ "0001" +:+ suffix, <[prefix +:+ "0001" +:+ suffix := 1%Z]> (files w)).

(** [run], [bet] and [flirt] in this setting: arrays are lists of integers
    and floats are integers, patterns without special characters match as
    prefixes, the command line is split at white space, and no program is
    found on the search path. *)
Definition demo_run :=
  run (list Z) Z String.prefix String.words (λ _, false) demo_program
      demo_Image demo_read_file.
Definition demo_bet :=
  bet (list Z) Z String.prefix String.words (λ _, false) demo_program
      demo_Image demo_Image_save demo_Image_data demo_NamedTemporaryFile demo_read_file.
Definition demo_flirt :=
  flirt (list Z) Z int_of_text text_of_int (λ m, Py.Ok m)
        String.prefix String.words (λ _, false) demo_program (λ _, 3%Z)
        demo_Image demo_Image_save demo_Image_data demo_NamedTemporaryFile demo_read_file.

(** Registration of [T1] to [ref] through [run], [flirt] and [bet]. *)
Definition flirt_args : Args := args_str "-in T1 -ref ref -out T1_reg".
Definition flirt_outcome : Py.result (obj (list Z) Z) * World :=
  demo_run demo_workspace "flirt" flirt_args [Some "T1_reg"] demo_world.
Definition flirt_result : obj (list Z) Z :=
  Tuple [List [Img (demo_image "T1_reg")]; Dict ∅].

(** *** Example inputs: more programs *)

(** [flirt] writes the registered image and, asked for it with [-omat], the
    matrix file [reg.mat]; [fast], [mcflirt] and [fslmaths] write one image
    each; [false] exits with status 1. *)
Definition demo_tools (argv : list string) (w : World)
  : Py.result (Z * gmap string Z * list string) :=
  match argv with
  | "flirt" :: rest =>
      if bool_decide ("-omat" ∈ rest)
      then Py.Ok (0%Z, <["reg.mat" := 2%Z]> (<["T1_reg.nii.gz" := 2%Z]> (files w)), [])
      else Py.Ok (0%Z, <["T1_reg.nii.gz" := 2%Z]> (files w), [])
  | "fast" :: _ => Py.Ok (0%Z, <["T1_fast_seg.nii.gz" := 2%Z]> (files w), [])
  | "mcflirt" :: _ => Py.Ok (0%Z, <["T1_mc.nii.gz" := 2%Z]> (files w), [])
  | "fslmaths" :: _ => Py.Ok (0%Z, <["T1_maths.nii.gz" := 2%Z]> (files w), ["done"])
  | "false" :: _ => Py.Ok (1%Z, <["core" := 2%Z]> (files w), ["oops"])
  | _ => Py.Raise (Py.OSError "No such file or directory")
  end.

(** A workspace that does not echo, with two directories on its path. *)
Definition quiet_workspace : Workspace :=
  mkWorkspace "/tmp/fsl" ["/opt/local/bin"; "/usr/local/fsl/bin"] false false.

(** A workspace whose directory does not exist. *)
Definition lost_workspace : Workspace :=
  mkWorkspace "/tmp/gone" ["/usr/local/fsl/bin"] false true.

(** [flirt] is installed in the second directory of the path only. *)
Definition fsl_only (path : string) : bool := bool_decide (path = "/usr/local/fsl/bin/flirt").

Definition tools_run :=
  run (list Z) Z String.prefix String.words (λ _, false) demo_tools
      demo_Image demo_read_file.
Definition tools_fast :=
  fast (list Z) Z String.prefix String.words (λ _, false) demo_tools
       demo_Image demo_Image_save demo_Image_data demo_NamedTemporaryFile demo_read_file.
Definition tools_flirt :=
  flirt (list Z) Z int_of_text text_of_int (λ m, Py.Ok m)
        String.prefix String.words (λ _, false) demo_tools (λ _, 3%Z)
        demo_Image demo_Image_save demo_Image_data demo_NamedTemporaryFile demo_read_file.
Definition tools_apply_xfm :=
  apply_xfm (list Z) Z text_of_int (λ _, []) String.prefix String.words (λ _, false)
            demo_tools (λ _, 3%Z)
            demo_Image demo_Image_save demo_Image_data demo_NamedTemporaryFile demo_read_file.
Definition tools_maths :=
  maths (list Z) Z String.prefix String.words (λ _, false) demo_tools
        demo_Image demo_Image_save demo_Image_data demo_NamedTemporaryFile demo_read_file.

(** Keyword arguments that ask for the matrix, and for the inverse matrix
    alone. *)
Definition with_mat : Kwargs := mkKwargs None None None None (Some "reg.mat") None.
Definition with_invmat_only : Kwargs := mkKwargs None None None None None (Some "inv.mat").

(** A matrix text with a comment, a blank line and commas. *)
Definition commented_text : text :=
  list_ascii_of_string "# affine" ++ [LF] ++ list_ascii_of_string "1, 0" ++ [LF]
  ++ [LF] ++ list_ascii_of_string "0 1 # second row".

(** The workspace after a brain extraction that also wrote the mask. *)
Definition bet_outputs : gmap string Z :=
  <["T1_bet_mask.nii.gz" := 2%Z]> (<["T1_bet.nii.gz" := 2%Z]> (files demo_world)).
Definition bet_patterns : list string := ["T1_bet"; "T1_bet_mask"].

(** A workspace that holds the one file [a], and a program that writes the
    file [b] and exits with status 0. *)
Definition ab_world : World :=
  mkWorld "/home/user" ({["/home/user"]} ∪ {["/tmp/fsl"]}) {["a" := 1%Z]} [].
Definition touch_b (argv : list string) (w : World)
  : Py.result (Z * gmap string Z * list string) :=
  Py.Ok (0%Z, <["b" := 2%Z]> (files w), []).
Definition ab_run :=
  run (list Z) Z String.prefix String.words (λ _, false) touch_b
      demo_Image demo_read_file.

End Qpwrap.

(** ** The BASIL step sequencer (basil/process.py, class BasilProcess) *)

Module Process.

(** The status values of the base class [Process] of the host application,
    as section 3 of the spec lists them. *)
Inductive Status := PENDING | RUNNING | FAILED | SUCCEEDED | CANCELLED.

#[global] Instance Status_eq_dec : EqDecision Status.
Proof. solve_decision. Defined.

(** One entry of [self.steps]: the tuple that [_next_step] unpacks into the
    arguments of [_start_fabber]. *)
Record Step := mkStep {
  step : Z;
  step_desc : string;
  infile : Image;
  mask : Image;
  options : gmap string Py.value;
  prev_step : option Z
}.

(** What the sequencer does to the outside: signals it emits, calls into the
    fitting process and into the data store, exceptions that escape a
    callback. *)
Inductive Effect :=
| sig_step (desc : string)
| sig_progress (fraction : Q)
| sig_finished (status : Status) (log : string) (exception : option Py.exn)
| fabber_execute (options : gmap string Py.value)
| fabber_cancel
| ivm_delete_data (name : string)
| raised (e : Py.exn).

(** The attributes of a [BasilProcess] that the callbacks read and write,
    with the names of the data sets in [self.ivm.data]. *)
Record BasilProcess := mkBasilProcess {
  status : Status;
  log : string;
  exception : option Py.exn;
  steps : list Step;
  step_num : nat;
  ivm_data : gset string
}.

Definition set_status (v : Status) (self : BasilProcess) : BasilProcess :=
  mkBasilProcess v (log self) (exception self) (steps self) (step_num self) (ivm_data self).
Definition set_log (v : string) (self : BasilProcess) : BasilProcess :=
  mkBasilProcess (status self) v (exception self) (steps self) (step_num self) (ivm_data self).
Definition set_steps (v : list Step) (self : BasilProcess) : BasilProcess :=
  mkBasilProcess (status self) (log self) (exception self) v (step_num self) (ivm_data self).
Definition set_step_num (v : nat) (self : BasilProcess) : BasilProcess :=
  mkBasilProcess (status self) (log self) (exception self) (steps self) v (ivm_data self).
Definition set_ivm_data (v : gset string) (self : BasilProcess) : BasilProcess :=
  mkBasilProcess (status self) (log self) (exception self) (steps self) (step_num self) v.

(** The static [output-rename] table of [_start_fabber]. *)
Definition output_rename : gmap string string :=
  <["std_fblood" := "aCBV_std"]>
  (<["std_deltiss" := "arrival_std"]>
  (<["std_ftiss" := "perfusion_std"]>
  (<["mean_fblood" := "aCBV"]>
  (<["mean_deltiss" := "arrival"]>
  (<["mean_ftiss" := "perfusion"]> ∅))))).

(** The option set that [_start_fabber] hands to [self.fabber.execute];
    [final] is the outcome of the test [self.step_num == len(self.steps)]. *)
Definition fabber_options (final : bool) (s : Step) : gmap string Py.value :=
  let options := options s in
  let options := <["model-group" := Py.Str "asl"]> options in
  let options := <["data" := Py.Str (iname (infile s))]> options in
  let options := <["roi" := Py.Str (iname (mask s))]> options in
  let options :=
    if final then
      (* Final step - save stuff we're interested in *)
      <["save-model-fit" := Py.Str ""]>
      (<["save-std" := Py.Str ""]>
      (<["save-mean" := Py.Str ""]> options))
    else
      (* Just save the MVN so we can continue from it *)
      <["save-mvn" := Py.Str ""]> options in
  let options := <["output-rename" := Py.Dict output_rename]> options in
  match prev_step s with
  | Some _ => <["continue-from-mvn" := Py.Str "finalMVN"]> options
  | None => options
  end.

Definition _start_fabber (self : BasilProcess) (s : Step) : BasilProcess * list Effect :=
  let final := bool_decide (step_num self = length (steps self)) in
  let desc :=
    match prev_step s with
    | Some p => step_desc s +:+ " - init with STEP " +:+ pretty p
    | None => step_desc s
    end in
  (set_log (log self +:+ desc +:+ nl +:+ nl) self,
   [sig_step (step_desc s); fabber_execute (fabber_options final s)]).

(** [steps !! step_num] is [Some] exactly when [step_num < len(steps)]. *)
Definition _next_step (self : BasilProcess) : BasilProcess * list Effect :=
  if decide (status self ≠ RUNNING) then (self, [])
  else
    match steps self !! step_num self with
    | Some s =>
        _start_fabber (set_step_num (S (step_num self)) self) s
    | None =>
        let self := set_log (log self +:+ "COMPLETE" +:+ nl) self in
        let self := set_status SUCCEEDED self in
        let self := set_steps [] self in
        let self := set_step_num 0 self in
        if decide ("finalMVN" ∈ ivm_data self) then
          let self := set_ivm_data (ivm_data self ∖ {["finalMVN"]}) self in
          (self, [ivm_delete_data "finalMVN";
                  sig_finished (status self) (log self) (exception self)])
        else
          (self, [sig_finished (status self) (log self) (exception self)])
    end.

Definition _fabber_finished (self : BasilProcess)
    (st : Status) (lg : string) (exc : option Py.exn) : BasilProcess * list Effect :=
  if decide (status self ≠ RUNNING) then (self, [])
  else
    let self := set_log (log self +:+ lg +:+ nl +:+ nl) self in
    if decide (st = SUCCEEDED) then _next_step self
    else
      let self := set_log (log self +:+ "CANCELLED" +:+ nl) self in
      let self := set_status st self in
      (self, [sig_finished (status self) (log self) exc]).

(** The progress fraction is a float in the source; it is a rational here.
    Dividing by [len(self.steps) = 0] raises. *)
Definition _fabber_progress (self : BasilProcess) (complete : Q) : BasilProcess * list Effect :=
  if decide (status self = RUNNING) then
    match steps self with
    | [] => (self, [raised Py.ZeroDivisionError])
    | _ =>
        (self, [sig_progress ((inject_Z (Z.of_nat (step_num self) - 1) + complete)
                              / inject_Z (Z.of_nat (length (steps self))))%Q])
    end
  else (self, []).

Definition cancel (self : BasilProcess) : BasilProcess * list Effect :=
  (self, [fabber_cancel]).

(** What reaches the sequencer while a run is in flight: the two callbacks
    connected in [__init__], and the fitting process storing a data set in
    the shared [ivm]. *)
Inductive Event :=
| finished (st : Status) (lg : string) (exc : option Py.exn)
| progress (complete : Q)
| data_added (name : string).

Definition handle (self : BasilProcess) (ev : Event) : BasilProcess * list Effect :=
  match ev with
  | finished st lg exc => _fabber_finished self st lg exc
  | progress c => _fabber_progress self c
  | data_added name => (set_ivm_data ({[name]} ∪ ivm_data self) self, [])
  end.

Fixpoint deliver (self : BasilProcess) (evs : list Event) : BasilProcess * list Effect :=
  match evs with
  | [] => (self, [])
  | ev :: evs' =>
      let '(self1, out1) := handle self ev in
      let '(self2, out2) := deliver self1 evs' in
      (self2, out1 ++ out2)
  end.

(** The tail of [run], once [basil.get_steps] has returned the step list and
    its log text. *)
Definition run_steps (self : BasilProcess) (built : list Step) (logtext : string)
  : BasilProcess * list Effect :=
  let self := set_steps built self in
  let self := set_log logtext self in
  let self := set_step_num 0 self in
  let self := set_status RUNNING self in
  _next_step self.

(** The option sets passed to [fabber.execute], in order. *)
Definition dispatched (out : list Effect) : list (gmap string Py.value) :=
  omap (λ e, match e with fabber_execute o => Some o | _ => None end) out.

(** A run in which every step succeeds: [n] [finished] callbacks, each
    reporting [SUCCEEDED], the last of them closing the event list; progress
    callbacks and data-store additions arrive in between. *)
Fixpoint completesb (n : nat) (evs : list Event) : bool :=
  match evs with
  | [] => bool_decide (n = 0)
  | finished st _ _ :: evs' =>
      match n with
      | S n' => bool_decide (st = SUCCEEDED) && completesb n' evs'
      | 0 => false
      end
  | _ :: evs' => negb (bool_decide (n = 0)) && completesb n evs'
  end.

Definition is_callback (ev : Event) : bool :=
  match ev with
  | finished _ _ _ | progress _ => true
  | data_added _ => false
  end.

(** The keys of the persisted summary outputs. *)
Definition summary_keys : list string := ["save-mean"; "save-std"; "save-model-fit"].

(** The option sets dispatched for the steps [rest], the first of which is
    step number [S k] of [n]. *)
Fixpoint dispatch_list (n k : nat) (rest : list Step) : list (gmap string Py.value) :=
  match rest with
  | [] => []
  | s :: rest' => fabber_options (bool_decide (S k = n)) s :: dispatch_list n (S k) rest'
  end.

(** *** Label durations and inversion times ([run], the block before
    [basil.get_steps])

    [self.struc] after [get_asldata]: a key is absent ([None]) when the
    caller gave no value for it.  Times are floats in the source; they are
    rationals here, compared and added exactly. *)
Record Struc := mkStruc {
  casl : option bool;
  taus : option (list Q)
}.

(** [self.struc[key]] *)
Definition getitem {A} (field : option A) (key : string) : Py.result A :=
  match field with
  | Some v => Py.Ok v
  | None => Py.Raise (Py.KeyError key)
  end.

(** [min(l)] and [max(l)]: the first least (greatest) element; an empty
    argument raises. *)
Definition py_min (l : list Q) : Py.result Q :=
  match l with
  | [] => Py.Raise (Py.ValueError "min() arg is an empty sequence")
  | x :: l' => Py.Ok (fold_left (λ m y, if negb (Qle_bool m y) then y else m) l' x)
  end.

Definition py_max (l : list Q) : Py.result Q :=
  match l with
  | [] => Py.Raise (Py.ValueError "max() arg is an empty sequence")
  | x :: l' => Py.Ok (fold_left (λ m y, if negb (Qle_bool y m) then y else m) l' x)
  end.

(** All label durations are numerically identical. *)
Definition identical (l : list Q) : Prop := ∀ t u, t ∈ l → u ∈ l → (t == u)%Q.

(** [l[i]] *)
Definition index {A} (l : list A) (i : nat) : Py.result A :=
  match l !! i with
  | Some v => Py.Ok v
  | None => Py.Raise Py.IndexError
  end.

Section Timing.

(** [str] of a number. *)
Variable str : Q → string.

(** [for idx, tau in enumerate(taus): options["tau%i" % (idx+1)] = str(tau)],
    entered at index [idx]. *)
Fixpoint tau_options (idx : nat) (taus : list Q) (options : gmap string Py.value)
  : gmap string Py.value :=
  match taus with
  | [] => options
  | tau :: taus' =>
      tau_options (S idx) taus'
        (<["tau" +:+ pretty (S idx) := Py.Str (str tau)]> options)
  end.

(** [for idx, ti in enumerate(self.asldata.tis): ...], entered at index
    [idx]; [casl_taus] is [Some taus] when [self.struc["casl"]] holds. *)
Fixpoint ti_options (casl_taus : option (list Q)) (idx : nat) (tis : list Q)
    (options : gmap string Py.value) : Py.result (gmap string Py.value) :=
  match tis with
  | [] => Py.Ok options
  | ti :: tis' =>
      ti ←! match casl_taus with
            | Some taus => tau ←! index taus idx;; Py.Ok (ti + tau)%Q
            | None => Py.Ok ti
            end;;
      ti_options casl_taus (S idx) tis'
        (<["ti" +:+ pretty (S idx) := Py.Str (str ti)]> options)
  end.

(** The options as [run] hands them to [basil.get_steps], from the
    structure, the inversion times [self.asldata.tis] and the options so
    far. *)
Definition timing_options (struc : Struc) (tis : list Q)
    (options : gmap string Py.value) : Py.result (gmap string Py.value) :=
  c ←! getitem (casl struc) "casl";;
  if c : bool then
    let options := <["casl" := Py.Str ""]> options in
    taus ←! getitem (taus struc) "taus";;
    lo ←! py_min taus;;
    hi ←! py_max taus;;
    options ←! (if Qeq_bool lo hi then
                  tau0 ←! index taus 0;;
                  Py.Ok (<["tau" := Py.Str (str tau0)]> options)
                else Py.Ok (tau_options 0 taus options));;
    ti_options (Some taus) 0 tis options
  else
    ti_options None 0 tis options.

End Timing.
(** *** A whole run, and what it emits *)

(** [run] from the point where the steps are built, followed by the
    callbacks and data-store additions [evs]: the final process record and
    everything emitted, in order. *)
Definition whole_run (self : BasilProcess) (built : list Step) (logtext : string)
    (evs : list Event) : BasilProcess * list Effect :=
  let '(self1, out1) := run_steps self built logtext in
  let '(self2, out2) := deliver self1 evs in
  (self2, out1 ++ out2).

(** The fractions carried by the progress signals, in order. *)
Definition fractions (out : list Effect) : list Q :=
  omap (λ e, match e with sig_progress f => Some f | _ => None end) out.

(** The completion signals, in order. *)
Definition completions (out : list Effect) : list (Status * string * option Py.exn) :=
  omap (λ e, match e with sig_finished st lg exc => Some (st, lg, exc) | _ => None end) out.

(** The exceptions that escaped a callback. *)
Definition escaped (out : list Effect) : list Py.exn :=
  omap (λ e, match e with raised x => Some x | _ => None end) out.

(** The names removed from the data store. *)
Definition deleted (out : list Effect) : list string :=
  omap (λ e, match e with ivm_delete_data n => Some n | _ => None end) out.

(** A completion callback that reports success. *)
Definition reports_success (ev : Event) : bool :=
  match ev with
  | finished SUCCEEDED _ _ => true
  | _ => false
  end.

(** The fitting process reports a fraction between 0 and 1. *)
Definition unit_progress (ev : Event) : Prop :=
  match ev with
  | progress c => (0 <= c ∧ c <= 1)%Q
  | _ => True
  end.

(** The fitting process reports a status it has ended with. *)
Definition reports_end (ev : Event) : Prop :=
  match ev with
  | finished st _ _ => st ≠ RUNNING
  | _ => True
  end.

(** *** The stored acquisition structure ([AslProcess.get_asldata])

    A dictionary value is [None] for Python's [None]. *)
Definition struc_opts : list string :=
  ["order"; "rpts"; "taus"; "casl"; "tis"; "plds"; "nphases"].

Section Structure.

(** The values of structure entries and options, [None] apart. *)
Variable V : Type.

(** The body of the loop over [struc_opts], on [(self.struc, options)]. *)
Definition merge_opt (acc : gmap string (option V) * gmap string (option V))
    (opt : string) : gmap string (option V) * gmap string (option V) :=
  let '(struc, options) := acc in
  (* v = options.pop(opt, None) *)
  let v := match options !! opt with Some v => v | None => None end in
  let options := delete opt options in
  match v with
  | Some v => (<[opt := Some v]> struc, options)
  | None => (delete opt struc, options)
  end.

(** [self.struc] and [options] after the loop; [stored] is the structure
    that [yaml.load] reads from the [ASL_STRUCTURE_<name>] entry, when there
    is one. *)
Definition merge_struc (stored : option (gmap string (option V)))
    (options : gmap string (option V))
  : gmap string (option V) * gmap string (option V) :=
  let struc := match stored with Some s => s | None => ∅ end in
  foldl merge_opt (struc, options) struc_opts.

End Structure.

(** *** Scripts of processes ([MacroProcess]) *)

(** The attributes of a [MacroProcess] that its callbacks read and write;
    [start] is absent until [_start_process] has run. *)
Record MacroProcess := mkMacroProcess {
  m_status : Status;
  m_log : string;
  m_exception : option Py.exn;
  m_start : option Q
}.

(** The signals of the script, each with what the callback reads: the
    identifier of the process, its log, status and exception, and the
    reading of the clock ([time.time()]) when the callback runs. *)
Inductive MacroEvent :=
| start_process (proc_id : string) (now : Q)
| done_process (plog : string) (pstatus : Status) (pexc : option Py.exn) (now : Q)
| script_progress (complete : Q)
| script_finished.

Section Macro.

(** ["%.1f" % seconds], and ["%i" % status] for the status constants of the
    host application. *)
Variable fmt_seconds : Q → string.
Variable fmt_status : Status → string.

Definition macro_run (self : MacroProcess) : MacroProcess :=
  mkMacroProcess RUNNING (m_log self) (m_exception self) (m_start self).

Definition _start_process (self : MacroProcess) (proc_id : string) (now : Q)
  : MacroProcess * list Effect :=
  (mkMacroProcess (m_status self)
     (m_log self +:+ ("Running " +:+ proc_id +:+ nl +:+ nl))
     (m_exception self) (Some now), []).

Definition _done_process (self : MacroProcess)
    (plog : string) (pstatus : Status) (pexc : option Py.exn) (now : Q)
  : MacroProcess * list Effect :=
  let self := mkMacroProcess (m_status self) (m_log self +:+ plog)
                             (m_exception self) (m_start self) in
  if decide (pstatus = SUCCEEDED) then
    match m_start self with
    | Some t0 =>
        (mkMacroProcess (m_status self)
           (m_log self +:+ (nl +:+ "DONE (" +:+ fmt_seconds (now - t0)%Q +:+ "s)" +:+ nl))
           (m_exception self) (m_start self), [])
    | None => (self, [raised Py.AttributeError])
    end
  else
    let self := mkMacroProcess pstatus
                  (m_log self +:+ (nl +:+ "FAILED: " +:+ fmt_status pstatus +:+ nl))
                  pexc (m_start self) in
    (self, [sig_finished (m_status self) (m_log self) (m_exception self)]).

Definition _progress (self : MacroProcess) (complete : Q) : MacroProcess * list Effect :=
  if decide (m_status self = RUNNING) then (self, [sig_progress complete])
  else (self, []).

Definition _done_script (self : MacroProcess) : MacroProcess * list Effect :=
  if decide (m_status self = RUNNING) then
    let self := mkMacroProcess SUCCEEDED (m_log self +:+ ("Script finished" +:+ nl))
                               (m_exception self) (m_start self) in
    (self, [sig_finished (m_status self) (m_log self) (m_exception self)])
  else (self, []).

Definition macro_handle (self : MacroProcess) (ev : MacroEvent)
  : MacroProcess * list Effect :=
  match ev with
  | start_process proc_id now => _start_process self proc_id now
  | done_process plog pstatus pexc now => _done_process self plog pstatus pexc now
  | script_progress c => _progress self c
  | script_finished => _done_script self
  end.

Fixpoint macro_deliver (self : MacroProcess) (evs : list MacroEvent)
  : MacroProcess * list Effect :=
  match evs with
  | [] => (self, [])
  | ev :: evs' =>
      let '(self1, out1) := macro_handle self ev in
      let '(self2, out2) := macro_deliver self1 evs' in
      (self2, out1 ++ out2)
  end.

End Macro.

(** The status that the processes of a script leave: that of the last one
    that did not succeed, and [init] when all did. *)
Fixpoint last_failure (init : Status) (evs : list MacroEvent) : Status :=
  match evs with
  | [] => init
  | done_process _ pstatus _ _ :: evs' =>
      last_failure (if decide (pstatus = SUCCEEDED) then init else pstatus) evs'
  | _ :: evs' => last_failure init evs'
  end.

(** The processes of a script that did not succeed. *)
Definition failures (evs : list MacroEvent) : list MacroEvent :=
  List.filter (λ ev, match ev with
                     | done_process _ pstatus _ _ => negb (bool_decide (pstatus = SUCCEEDED))
                     | _ => false
                     end) evs.

(** While a run is in flight a step has been started and the step counter
    points into the step list. *)
Definition in_step (self : BasilProcess) : Prop :=
  status self = RUNNING → 1 ≤ step_num self ≤ length (steps self).

(** A signal that one process of the script sends, rather than the script
    itself when it ends. *)
Definition from_process (ev : MacroEvent) : bool :=
  match ev with
  | script_finished => false
  | _ => true
  end.

(** *** The log of a run *)

(** The line that [_start_fabber] writes to the log for a step. *)
Definition announced (s : Step) : string :=
  match prev_step s with
  | Some p => step_desc s +:+ " - init with STEP " +:+ pretty p
  | None => step_desc s
  end.

(** What a run in which every step succeeds adds to the log text of
    [basil.get_steps]: for each step its line and the log that the fitting
    process reported for it, each followed by an empty line, and the
    closing line. *)
Fixpoint success_log (steps : list Step) (lgs : list string) : string :=
  match steps, lgs with
  | s :: steps', lg :: lgs' =>
      announced s +:+ nl +:+ nl +:+ lg +:+ nl +:+ nl +:+ success_log steps' lgs'
  | _, _ => "COMPLETE" +:+ nl
  end.

(** The logs that the completion callbacks report, in order. *)
Definition reported_logs (evs : list Event) : list string :=
  omap (λ ev, match ev with finished _ lg _ => Some lg | _ => None end) evs.

(** The options that [_start_fabber] sets itself. *)
Definition own_keys : list string :=
  ["model-group"; "data"; "roi"; "save-mean"; "save-std"; "save-model-fit"; "save-mvn";
   "output-rename"; "continue-from-mvn"].
(** *** Example inputs: runs in flight *)

(** The first of two steps is running and has stored [finalMVN]. *)
Definition running_process : BasilProcess :=
  mkBasilProcess RUNNING ("STEP 1" +:+ nl +:+ nl) None
    [mkStep 1 "STEP 1" (demo_image "asldata") (demo_image "mask") ∅ None;
     mkStep 2 "STEP 2" (demo_image "asldata") (demo_image "mask") ∅ (Some 1%Z)]
    1 {["finalMVN"]}.

(** The first step fails; callbacks keep arriving. *)
Definition first_fails : list Event :=
  [progress (1 # 2); finished FAILED "step 1 log" (Some (Py.RuntimeError "fabber"));
   progress 1; finished SUCCEEDED "late" None].

(** A stored structure, and the options of a later call that give the
    inversion times only. *)
Definition stored_struc : gmap string (option Py.value) :=
  <["casl" := Some (Py.Bool true)]> (<["order" := Some (Py.Str "prt")]>
  (<["comment" := Some (Py.Str "pcasl")]> ∅)).
Definition tis_only : gmap string (option Py.value) :=
  <["tis" := Some (Py.Str "1.5")]> (<["data" := Some (Py.Str "asldata")]> ∅).

(** A script of two processes, the first of which fails. *)
Definition failing_script : list MacroEvent :=
  [start_process "Fabber" 0; script_progress (1 # 2);
   done_process "fabber log" FAILED (Some (Py.RuntimeError "fabber")) 2;
   start_process "MeanValues" 2; done_process "mean log" SUCCEEDED None 3].

Definition idle_macro : MacroProcess := mkMacroProcess PENDING "" None None.

(** Continuous labelling with one label duration for two inversion times. *)
Definition short_struc : Struc := mkStruc (Some true) (Some [14 # 10]).

(** *** Example inputs *)

(** A process that failed on the first of two steps. *)
Definition failed_process : BasilProcess :=
  mkBasilProcess FAILED ("STEP 1" +:+ nl) None
    [mkStep 1 "STEP 1" (demo_image "asldata") (demo_image "mask") ∅ None;
     mkStep 2 "STEP 2" (demo_image "asldata") (demo_image "mask") ∅ (Some 1%Z)]
    1 ∅.

(** A two-step pipeline and a run of it in which both steps succeed; the
    fitting process stores [finalMVN] while the first step runs. *)
Definition two_steps : list Step :=
  [mkStep 1 "STEP 1: VB - Tissue" (demo_image "asldata") (demo_image "mask")
     (<["method" := Py.Str "vb"]> ∅) None;
   mkStep 2 "STEP 2: Spatial VB - Tissue" (demo_image "asldata") (demo_image "mask")
     (<["method" := Py.Str "spatialvb"]> ∅) (Some 1%Z)].

(** The same pipeline with a first step whose own options ask for the mean
    to be saved. *)
Definition eager_steps : list Step :=
  [mkStep 1 "STEP 1: VB - Tissue" (demo_image "asldata") (demo_image "mask")
     (<["save-mean" := Py.Str ""]> (<["method" := Py.Str "vb"]> ∅)) None;
   mkStep 2 "STEP 2: Spatial VB - Tissue" (demo_image "asldata") (demo_image "mask")
     (<["method" := Py.Str "spatialvb"]> ∅) (Some 1%Z)].

Definition both_succeed : list Event :=
  [progress (1 # 2); data_added "finalMVN"; finished SUCCEEDED "step 1 log" None;
   progress (1 # 4); finished SUCCEEDED "step 2 log" None].

Definition idle_process : BasilProcess := mkBasilProcess PENDING "" None [] 0 ∅.

(** A rendering of rationals, for evaluating the definitions. *)
Definition show_Q (q : Q) : string := pretty (Qnum q) +:+ "/" +:+ pretty (Zpos (Qden q)).

(** Six inversion times with one label duration each, all 1.4. *)
Definition pcasl_struc : Struc :=
  mkStruc (Some true) (Some [14 # 10; 14 # 10; 14 # 10; 14 # 10; 14 # 10; 14 # 10]).
Definition pcasl_tis : list Q := [1 # 4; 1 # 2; 3 # 4; 1 # 1; 5 # 4; 3 # 2].

(** Two inversion times with label durations 1.4 and 1.6. *)
Definition mixed_struc : Struc := mkStruc (Some true) (Some [14 # 10; 16 # 10]).
Definition mixed_tis : list Q := [1 # 4; 1 # 2].

(** Pulsed labelling. *)
Definition pasl_struc : Struc := mkStruc (Some false) None.

End Process.

(** ** The execution workspace: proofs *)

Module QpwrapProofs.
Import Qpwrap.

(** *** Matrix text format *)

Lemma no_space_no_newline s : no_space s → no_newline s.
Proof.
  intros H. eapply Forall_impl; [exact H|].
  intros c Hc. split; intros ->; discriminate Hc.
Qed.

Lemma splitlines_line r rest :
  no_newline r → splitlines (r ++ LF :: rest) = r :: splitlines rest.
Proof.
  induction 1 as [|c r [Hcr Hlf] _ IH]; simpl.
  - done.
  - rewrite bool_decide_eq_false_2 by done. rewrite bool_decide_eq_false_2 by done.
    by rewrite IH.
Qed.

Lemma splitlines_last r : no_newline r → r ≠ [] → splitlines r = [r].
Proof.
  induction 1 as [|c r [Hcr Hlf] Hr IH]; [done|]. intros _. simpl.
  rewrite bool_decide_eq_false_2 by done. rewrite bool_decide_eq_false_2 by done.
  destruct r as [|c' r']; [done|]. by rewrite IH.
Qed.

Lemma splitlines_join rows :
  Forall (λ r, no_newline r ∧ r ≠ []) rows → splitlines (join [LF] rows) = rows.
Proof.
  induction 1 as [|r rows [Hr Hne] Hrows IH]; [done|].
  destruct rows as [|r' rows'].
  - by apply splitlines_last.
  - change (join [LF] (r :: r' :: rows')) with (r ++ LF :: join [LF] (r' :: rows')).
    rewrite splitlines_line by done. by rewrite IH.
Qed.

Lemma split_step c c' rest :
  Ascii.is_space c = false → Ascii.is_space c' = false →
  split (c :: c' :: rest)
    = match split (c' :: rest) with
      | l :: ls => (c :: l) :: ls
      | [] => [[c]]
      end.
Proof. intros Hc Hc'. cbn [split]. by rewrite Hc, Hc'. Qed.

Lemma split_field f rest :
  no_space f → f ≠ [] → split (f ++ " "%char :: rest) = f :: split rest.
Proof.
  induction 1 as [|c f Hc Hf IH]; [done|]. intros _.
  destruct f as [|c' f'].
  - simpl. by rewrite Hc.
  - apply Forall_cons in Hf as Hf'. destruct Hf' as [Hc' _].
    change ((c :: c' :: f') ++ " "%char :: rest)
      with (c :: c' :: (f' ++ " "%char :: rest)).
    rewrite split_step by done.
    change (c' :: f' ++ " "%char :: rest) with ((c' :: f') ++ " "%char :: rest).
    by rewrite IH.
Qed.

Lemma split_last f : no_space f → f ≠ [] → split f = [f].
Proof.
  induction 1 as [|c f Hc Hf IH]; [done|]. intros _.
  destruct f as [|c' f'].
  - simpl. by rewrite Hc.
  - apply Forall_cons in Hf as Hf'. destruct Hf' as [Hc' _].
    rewrite split_step by done. by rewrite IH.
Qed.

Lemma split_join fields :
  Forall (λ f, no_space f ∧ f ≠ []) fields → split (join [" "%char] fields) = fields.
Proof.
  induction 1 as [|f fields [Hf Hne] Hfields IH]; [done|].
  destruct fields as [|f' fields'].
  - by apply split_last.
  - change (join [" "%char] (f :: f' :: fields'))
      with (f ++ " "%char :: join [" "%char] (f' :: fields')).
    rewrite split_field by done. by rewrite IH.
Qed.

Lemma field_ok_spec f :
  field_ok f = true ↔
  f ≠ [] ∧ Forall (λ c, Ascii.is_space c = false ∧ c ≠ ","%char ∧ c ≠ "#"%char) f.
Proof.
  unfold field_ok. rewrite andb_true_iff, negb_true_iff, bool_decide_eq_false.
  rewrite forallb_forall, Forall_forall. setoid_rewrite <- list_elem_of_In.
  split; intros [Hne Hall]; (split; [done|]); intros c Hc; specialize (Hall c Hc).
  - rewrite !andb_true_iff, !negb_true_iff, !bool_decide_eq_false in Hall. tauto.
  - rewrite !andb_true_iff, !negb_true_iff, !bool_decide_eq_false. tauto.
Qed.

Lemma join_elem_of sep fields c :
  c ∈ join sep fields → c ∈ sep ∨ ∃ f, f ∈ fields ∧ c ∈ f.
Proof.
  induction fields as [|f fields IH]; [by intros ?%elem_of_nil|].
  destruct fields as [|f' fields'].
  - intros Hc. right. exists f. split; [apply list_elem_of_here|done].
  - change (join sep (f :: f' :: fields')) with (f ++ sep ++ join sep (f' :: fields')).
    rewrite !elem_of_app. intros [Hc|[Hc|Hc]].
    + right. exists f. split; [apply list_elem_of_here|done].
    + by left.
    + destruct (IH Hc) as [?|(g & Hg & Hcg)]; [by left|].
      right. exists g. split; [by apply list_elem_of_further|done].
Qed.

Lemma before_hash_id s : "#"%char ∉ s → before_hash s = s.
Proof.
  induction s as [|c s IH]; [done|]. intros Hs. simpl.
  rewrite bool_decide_eq_false_2 by (intros ->; apply Hs, list_elem_of_here).
  rewrite IH; [done|]. intros H. by apply Hs, list_elem_of_further.
Qed.

Lemma replace_comma_id s : ","%char ∉ s → replace_comma s = s.
Proof.
  induction s as [|c s IH]; [done|]. intros Hs. unfold replace_comma.
  rewrite fmap_cons.
  rewrite bool_decide_eq_false_2 by (intros ->; apply Hs, list_elem_of_here).
  f_equal. apply IH. intros H. by apply Hs, list_elem_of_further.
Qed.

Lemma strip_id s :
  (∀ c, head s = Some c → Ascii.is_space c = false) →
  (∀ l, last s = Some l → Ascii.is_space l = false) →
  strip s = s.
Proof.
  intros Hhead Hlast. destruct s as [|c s]; [done|].
  unfold strip. cbn [lstrip]. rewrite (Hhead c) by done.
  destruct (last (c :: s)) as [l|] eqn:Hl; [|by apply last_None in Hl].
  pose proof Hl as Hl'. apply last_Some in Hl' as [init Hinit].
  rewrite Hinit, reverse_snoc. cbn [lstrip]. rewrite (Hlast l) by done.
  by rewrite <- reverse_snoc, reverse_involutive.
Qed.

Lemma join_head fields c :
  Forall (λ f, no_space f ∧ f ≠ []) fields →
  head (join [" "%char] fields) = Some c → Ascii.is_space c = false.
Proof.
  intros Hall Hc. destruct Hall as [|f fields [Hf Hne] _]; [done|].
  assert (head f = Some c) as Hfc.
  { destruct f as [|c' f']; [done|]. by destruct fields. }
  apply head_Some_elem_of in Hfc. unfold no_space in Hf.
  rewrite Forall_forall in Hf. by apply Hf.
Qed.

Lemma join_last fields l :
  Forall (λ f, no_space f ∧ f ≠ []) fields →
  last (join [" "%char] fields) = Some l → Ascii.is_space l = false.
Proof.
  induction 1 as [|f fields [Hf Hne] Hfields IH]; [done|].
  destruct fields as [|f' fields'].
  - intros Hl. apply last_Some_elem_of in Hl. unfold no_space in Hf.
    rewrite Forall_forall in Hf. by apply Hf.
  - change (join [" "%char] (f :: f' :: fields'))
      with (f ++ " "%char :: join [" "%char] (f' :: fields')).
    rewrite last_app.
    destruct (join [" "%char] (f' :: fields')) as [|c j] eqn:Hj.
    { apply Forall_cons in Hfields as [[_ Hne'] _]. destruct f'; [done|].
      by destruct fields'. }
    rewrite last_cons_cons. destruct (last (c :: j)) as [l'|] eqn:Hl'.
    + intros [= <-]. by apply IH.
    + by apply last_None in Hl'.
Qed.

(** A rendered row reads back as its fields. *)
Lemma line_vals_join fields :
  Forall (λ f, field_ok f = true) fields →
  line_vals (join [" "%char] fields) = fields.
Proof.
  intros Hok.
  assert (Forall (λ f, no_space f ∧ f ≠ []) fields) as Hfields.
  { eapply Forall_impl; [exact Hok|]. intros f [Hne Hf]%field_ok_spec.
    split; [|done]. eapply Forall_impl; [exact Hf|]. by intros c (? & _). }
  assert (∀ c, c ∈ join [" "%char] fields → c ≠ ","%char ∧ c ≠ "#"%char) as Hchars.
  { intros c [Hc|(f & Hf & Hc)]%join_elem_of.
    - apply list_elem_of_singleton in Hc as ->. done.
    - rewrite Forall_forall in Hok. apply Hok in Hf.
      apply field_ok_spec in Hf as [_ Hf]. rewrite Forall_forall in Hf.
      by destruct (Hf c Hc) as (_ & ? & ?). }
  unfold line_vals.
  rewrite before_hash_id by (intros H; by destruct (Hchars _ H)).
  rewrite strip_id; [|intros c; by apply join_head|intros l; by apply join_last].
  rewrite replace_comma_id by (intros H; by destruct (Hchars _ H)).
  by apply split_join.
Qed.

Lemma row_text_no_newline fields :
  Forall (λ f, field_ok f = true) fields → no_newline (join [" "%char] fields).
Proof.
  intros Hok. apply Forall_forall. intros c [Hc|(f & Hf & Hc)]%join_elem_of.
  - apply list_elem_of_singleton in Hc as ->. done.
  - rewrite Forall_forall in Hok. apply Hok in Hf.
    apply field_ok_spec in Hf as [_ Hf]. rewrite Forall_forall in Hf.
    destruct (Hf c Hc) as (Hsp & _). split; intros ->; discriminate Hsp.
Qed.

Lemma row_text_nonempty fields :
  fields ≠ [] → Forall (λ f, field_ok f = true) fields → join [" "%char] fields ≠ [].
Proof.
  intros Hne Hok. destruct Hok as [|f fields Hf _]; [done|].
  apply field_ok_spec in Hf as [Hfne _]. destruct f; [done|]. by destruct fields.
Qed.

Section MatrixProofs.

Variable float : Type.
Variable float_of_str : text → option float.
Variable str_float : float → text.
Variable approx : float → float → Prop.

Local Abbreviation float_row := (float_row float float_of_str).
Local Abbreviation matrix_rows := (matrix_rows float float_of_str).
Local Abbreviation text_to_matrix := (text_to_matrix float float_of_str).
Local Abbreviation matrix_to_text := (matrix_to_text float str_float).
Local Abbreviation reads_back := (reads_back float float_of_str str_float approx).
Local Abbreviation reads val v := (float_of_str val = Some v).

Lemma float_row_render row :
  Forall reads_back row →
  ∃ row', float_row (str_float <$> row) = Py.Ok row' ∧ Forall2 approx row row'.
Proof.
  induction 1 as [|v row (_ & v' & Hv' & Hvv') _ (row' & Hrow' & Hrr')].
  - by exists [].
  - exists (v' :: row'). rewrite fmap_cons. cbn [Qpwrap.float_row].
    rewrite Hv', Hrow'. split; [done|]. by constructor.
Qed.

Lemma matrix_rows_render m n ncols :
  n ≠ 0 → Forall (λ row, length row = n) m → Forall (Forall reads_back) m →
  (ncols < 0)%Z ∨ ncols = Z.of_nat n →
  ∃ m', matrix_rows ncols ((λ row, join [" "%char] (str_float <$> row)) <$> m)
        = Py.Ok m' ∧ Forall2 (Forall2 approx) m m'.
Proof.
  intros Hn Hlen Hok. revert ncols.
  induction Hok as [|row m Hrow Hm IH]; intros ncols Hncols.
  - by exists [].
  - apply Forall_cons in Hlen as [Hrowlen Hlen].
    rewrite fmap_cons. cbn [Qpwrap.matrix_rows].
    rewrite line_vals_join
      by (apply Forall_fmap; eapply Forall_impl; [exact Hrow|]; by intros v [? _]).
    destruct (float_row_render row Hrow) as (row' & Hrow' & Hrr').
    destruct (IH Hlen (Z.of_nat n)) as (m' & Hm' & Hmm'); [by right|].
    assert (length (str_float <$> row) = n) as Hvals by by rewrite length_fmap.
    destruct (str_float <$> row) as [|val vals] eqn:Hfields; [simpl in Hvals; lia|].
    rewrite Hvals.
    exists (row' :: m'). split; [|by constructor].
    destruct Hncols as [Hneg| ->].
    + rewrite (proj2 (Z.ltb_lt _ _) Hneg). by rewrite Hrow', Hm'.
    + rewrite (proj2 (Z.ltb_ge _ _)) by lia. rewrite Z.eqb_refl. cbn [negb].
      by rewrite Hrow', Hm'.
Qed.

Lemma float_row_Ok vals row :
  float_row vals = Py.Ok row → Forall2 (λ val v, reads val v) vals row.
Proof.
  revert row. induction vals as [|val vals IH]; intros row Hrow.
  - injection Hrow as <-. constructor.
  - cbn [Qpwrap.float_row] in Hrow. destruct (float_of_str val) as [v|] eqn:Hv; [|done].
    destruct (float_row vals) as [row'|]; [|done]. injection Hrow as <-.
    constructor; [done|by apply IH].
Qed.

Lemma float_row_Raise vals e : float_row vals = Py.Raise e → ∃ msg, e = Py.ValueError msg.
Proof.
  induction vals as [|val vals IH]; [done|]. cbn [Qpwrap.float_row].
  destruct (float_of_str val); [|intros [= <-]; by eexists].
  destruct (float_row vals); [done|]. intros [= <-]. by apply IH.
Qed.

Lemma matrix_rows_Raise lines : ∀ ncols e,
  matrix_rows ncols lines = Py.Raise e → ∃ msg, e = Py.ValueError msg.
Proof.
  induction lines as [|line lines IH]; intros ncols e; [done|].
  cbn [Qpwrap.matrix_rows]. destruct (line_vals line) as [|val vals]; [by apply IH|].
  assert (∀ nc, (row ←! float_row (val :: vals);;
                 rows ←! matrix_rows nc lines;; Py.Ok (row :: rows)) = Py.Raise e →
                ∃ msg, e = Py.ValueError msg) as Hbody.
  { intros nc. destruct (float_row (val :: vals)) eqn:Hrow; cbn [Py.bind].
    - destruct (matrix_rows nc lines) eqn:Hrows; [done|]. intros [= <-]. by eapply IH.
    - intros [= <-]. by eapply float_row_Raise. }
  destruct (ncols <? 0)%Z; [by apply Hbody|].
  destruct (negb _); [intros [= <-]; by eexists|by apply Hbody].
Qed.

Lemma matrix_rows_Ok lines : ∀ ncols m,
  matrix_rows ncols lines = Py.Ok m →
  let rows := filter (λ vals, vals ≠ []) (line_vals <$> lines) in
  Forall2 (Forall2 (λ val v, reads val v)) rows m ∧
  ((0 ≤ ncols)%Z → Forall (λ row, Z.of_nat (length row) = ncols) rows) ∧
  ((ncols < 0)%Z → ∀ row0, head rows = Some row0 →
     Forall (λ row, length row = length row0) rows).
Proof.
  induction lines as [|line lines IH]; intros ncols m Hm.
  - injection Hm as <-. simpl. repeat split; constructor.
  - cbn [Qpwrap.matrix_rows] in Hm. rewrite fmap_cons.
    destruct (line_vals line) as [|val vals] eqn:Hvals.
    { rewrite filter_cons_False by (intros H; by apply H). by apply IH. }
    rewrite filter_cons_True by done.
    assert (∀ nc, (row ←! float_row (val :: vals);;
                   rows ←! matrix_rows nc lines;; Py.Ok (row :: rows)) = Py.Ok m →
              ∃ row m', m = row :: m' ∧ float_row (val :: vals) = Py.Ok row ∧
                        matrix_rows nc lines = Py.Ok m') as Hbody.
    { intros nc. destruct (float_row (val :: vals)) as [row|]; [|done]. cbn [Py.bind].
      destruct (matrix_rows nc lines) as [m'|]; [|done]. intros [= <-]. by exists row, m'. }
    destruct (ncols <? 0)%Z eqn:Hneg.
    + apply Z.ltb_lt in Hneg.
      apply Hbody in Hm as (row & m' & -> & Hrow & Hm').
      apply IH in Hm' as (Hrows & Hlen & _). apply float_row_Ok in Hrow.
      split; [by constructor|]. split; [lia|].
      intros _ row0 Hhead. simpl in Hhead. injection Hhead as <-. constructor; [done|].
      eapply Forall_impl; [apply Hlen; lia|]. intros r Hr. cbn beta in Hr. lia.
    + apply Z.ltb_ge in Hneg.
      destruct (Z.of_nat (length (val :: vals)) =? ncols)%Z eqn:Hcols; [|done].
      apply Z.eqb_eq in Hcols. cbn [negb] in Hm.
      apply Hbody in Hm as (row & m' & -> & Hrow & Hm').
      apply IH in Hm' as (Hrows & Hlen & _). apply float_row_Ok in Hrow.
      split; [by constructor|]. split; [|lia].
      intros _. constructor; [done|by apply Hlen].
Qed.


End MatrixProofs.



(** *** Extension inference *)

Lemma filter_none {A} (f : A → bool) l :
  Forall (λ x, f x = false) l → List.filter f l = [].
Proof. induction 1 as [|x l Hx _ IH]; [done|]. simpl. by rewrite Hx. Qed.

(** C8: the extension chosen is the first one, in the order no extension,
    [.nii], [.nii.gz], for which the file exists (so with [name.nii] and
    [name.nii.gz] both present and no bare [name], it is [.nii], whatever
    else holds); when none exists the extension stays what it was on entry,
    which is the default [.nii.gz]. *)
Theorem C8_guess_extension (exists_ : string → bool) (self : Image) :
  exts = [""; ".nii"; ".nii.gz"] ∧
  (∀ before ext0 after,
     exts = before ++ ext0 :: after →
     Forall (λ e, exists_ (ipath self +:+ e) = false) before →
     exists_ (ipath self +:+ ext0) = true →
     ext (_guess_extension exists_ self) = ext0 ∧
     head (ext_matches (_guess_extension exists_ self)) = Some ext0) ∧
  (exists_ (ipath self +:+ "") = false →
   exists_ (ipath self +:+ ".nii") = true →
   exists_ (ipath self +:+ ".nii.gz") = true →
   ext (_guess_extension exists_ self) = ".nii" ∧
   ext_matches (_guess_extension exists_ self) = [".nii"; ".nii.gz"]) ∧
  (ext self = default_ext →
   Forall (λ e, exists_ (ipath self +:+ e) = false) exts →
   ext (_guess_extension exists_ self) = ".nii.gz" ∧
   ext_matches (_guess_extension exists_ self) = []).
Proof.
  split; [done|]. split; [|split].
  - intros before ext0 after Hexts Hbefore Hext0. unfold _guess_extension.
    rewrite Hexts, List.filter_app, (filter_none _ _ Hbefore). simpl.
    by rewrite Hext0.
  - intros H0 H1 H2. unfold _guess_extension, exts. simpl.
    by rewrite H0, H1, H2.
  - intros Hdefault Hnone. unfold _guess_extension.
    by rewrite (filter_none _ _ Hnone).
Qed.

Lemma C8_guess_extension_witness :
  ext (_guess_extension only_nii_files (demo_image "T1")) = ".nii" ∧
  ext (_guess_extension (λ _, false) (demo_image "T1")) = ".nii.gz".
Proof.
  split.
  - apply (proj1 (proj2 (C8_guess_extension only_nii_files (demo_image "T1")))
             [""] ".nii" [".nii.gz"]); [reflexivity|by repeat constructor|reflexivity].
  - apply (proj2 (proj2 (proj2 (C8_guess_extension (λ _, false) (demo_image "T1")))));
      [reflexivity|by repeat constructor].
Defined.

(** *** Option flags of the model-fit wrapper *)

(** What the loop of [fabber] renders for each kind of value. *)
Lemma option_arg_cases k v :
  option_arg k v =
    match v with
    | Py.Bool true | Py.Str "" | Py.Int 1 => " --" +:+ k
    | Py.Bool false | Py.None_ | Py.Int 0 => ""
    | Py.Dict d => if decide (d = ∅) then "" else " --" +:+ k +:+ "=" +:+ Py.str v
    | _ => " --" +:+ k +:+ "=" +:+ Py.str v
    end.
Proof.
  unfold option_arg. destruct v as [|[|]|z|s|d]; try done.
  - by destruct z as [|[p|p|]|p].
  - by destruct s.
  - unfold Py.eq_empty_str, Py.eq_True, Py.truthy. cbn [orb].
    destruct (decide (d = ∅)) as [->|Hd]; [done|].
    by rewrite bool_decide_eq_false_2.
Qed.

(** C2 fails on an option whose value is the integer 1: [v == True] holds
    for it, so [fabber] renders the bare flag and drops the value. *)
Theorem C2_integer_one_renders_bare_flag :
  option_arg "max-trials" (Py.Int 1) = " --max-trials" ∧
  option_arg "max-trials" (Py.Int 1) ≠ " --max-trials=1" ∧
  option_arg "max-trials" (Py.Int 10) = " --max-trials=10" ∧
  option_args (fabber_options (demo_image "asldata") (demo_image "mask") "asldata_fabber"
                 true (<["max-trials" := Py.Int 1]> ∅))
    = " --output=asldata_fabber --overwrite --save-mvn --mask=mask --max-trials --data=asldata".
Proof. repeat split; try done. Qed.

(** *** Running a program *)

Lemma keeps_ret {A} (a : A) : keeps_dirs (ret a).
Proof. done. Qed.
Lemma keeps_raise {A} e : keeps_dirs (raise (A := A) e).
Proof. done. Qed.
Lemma keeps_lift {A} (r : Py.result A) : keeps_dirs (lift r).
Proof. done. Qed.
Lemma keeps_reads {A} (f : World → Py.result A) : keeps_dirs (reads f).
Proof. done. Qed.
Lemma keeps_writes {A} (f : World → Py.result (A * gmap string Z)) : keeps_dirs (writes f).
Proof. intros w. unfold writes. by destruct (f w) as [[a fs]|e]. Qed.
Lemma keeps_log_write s : keeps_dirs (log_write s).
Proof. done. Qed.
Lemma keeps_chdir d : keeps_dirs (chdir d).
Proof. intros w. unfold chdir. by destruct (decide _). Qed.

Lemma keeps_bind {A B} (m : M A) (k : A → M B) :
  keeps_dirs m → (∀ a, keeps_dirs (k a)) → keeps_dirs (bind m k).
Proof.
  intros Hm Hk w. unfold bind. specialize (Hm w).
  destruct (m w) as [[a|e] w']; simpl in *; [|done]. by rewrite Hk.
Qed.

Lemma keeps_try_except {A} (m : M A) (h : Py.exn → M A) :
  keeps_dirs m → (∀ e, keeps_dirs (h e)) → keeps_dirs (try_except m h).
Proof.
  intros Hm Hh w. unfold try_except. specialize (Hm w).
  destruct (m w) as [[a|e] w']; simpl in *; [done|]. by rewrite Hh.
Qed.

Create HintDb keeps.
#[local] Hint Resolve keeps_ret keeps_raise keeps_lift keeps_reads keeps_writes
  keeps_log_write keeps_chdir : keeps.

Section RunProofs.

Variable ndarray : Type.
Variable float : Type.
Variable re_match : string → string → bool.
Variable shlex_split : string → list string.
Variable is_executable : string → bool.
Variable popen_wait : list string → World → Py.result (Z * gmap string Z * list string).
Variable Image_ : string → World → Py.result Image.
Variable read_file : string → World → Py.result string.

Local Abbreviation run := (run ndarray float re_match shlex_split is_executable
                               popen_wait Image_ read_file).
Local Abbreviation _get_return_files := (_get_return_files re_match Image_ read_file).
Local Abbreviation return_files := (return_files re_match).
Local Abbreviation classify := (classify Image_ read_file).
Local Abbreviation Popen_wait := (Popen_wait popen_wait).
Local Abbreviation matches := (matches re_match).
Local Abbreviation expected_files := (expected_files re_match).

Lemma keeps_echo self s : keeps_dirs (echo self s).
Proof. unfold echo. destruct (echo_enabled self); [|done]. apply keeps_bind; auto with keeps. Qed.

Lemma keeps_debug self s : keeps_dirs (debug self s).
Proof. unfold debug. destruct (debug_enabled self); [|done]. apply keeps_bind; auto with keeps. Qed.

Lemma keeps_Popen_wait argv : keeps_dirs (Popen_wait argv).
Proof. intros w. unfold Qpwrap.Popen_wait. by destruct (popen_wait argv w) as [[[rc fs] out]|e]. Qed.

Lemma keeps_return_files self pre post expected :
  keeps_dirs (return_files self pre post expected).
Proof.
  unfold Qpwrap.return_files. destruct expected; [|done].
  unfold _changed_files. repeat (apply keeps_bind; [|intros ?]);
    auto using keeps_debug with keeps.
Qed.

Lemma keeps_classify self names : ∀ imgs texts, keeps_dirs (classify self names imgs texts).
Proof.
  induction names as [|fname names IH]; intros imgs texts; [done|].
  cbn [Qpwrap.classify]. apply keeps_bind; [|by intros [??]].
  apply keeps_try_except; [apply keeps_bind; [|intros ?]; auto with keeps|].
  intros _. apply keeps_try_except; [apply keeps_bind; [|intros ?]; auto with keeps|].
  intros e. apply keeps_bind; [|intros ?]; auto with keeps.
Qed.

Lemma keeps_get_return_files self pre post expected :
  keeps_dirs (_get_return_files self pre post expected).
Proof.
  unfold Qpwrap._get_return_files.
  apply keeps_bind; [apply keeps_return_files|intros ?; apply keeps_classify].
Qed.

(** C10: [run] leaves the current directory of the process as it found it,
    whether it returns or raises (the workspace directory missing, the
    program not started, a non-zero exit status, an output file that is
    neither image nor text), in a world whose current directory exists. *)
Theorem C10_run_restores_cwd
    (self : Workspace) (prog : string) (a : Args) (expected : list (option string))
    (w : World) :
  cwd w ∈ dirs w →
  cwd (run self prog a expected w).2 = cwd w.
Proof.
  intros Hcwd. unfold Qpwrap.run.
  unfold bind at 1. unfold getcwd at 1. unfold try_finally.
  match goal with |- context [bind ?m ?k w] => pose proof (keeps_bind m k) as Hbody end.
  match type of Hbody with ?P → ?Q → _ =>
    assert P as H1 by apply keeps_chdir; assert Q as H2 end.
  { intros _. apply keeps_bind; [apply keeps_echo|intros _].
    apply keeps_bind; [done|intros pre].
    apply keeps_bind; [apply keeps_Popen_wait|intros retcode].
    destruct (negb _); [done|].
    apply keeps_bind; [done|intros post].
    apply keeps_bind; [apply keeps_get_return_files|by intros [??]]. }
  specialize (Hbody H1 H2 w).
  match goal with |- context [bind ?m ?k w] => destruct (bind m k w) as [r w1] end.
  simpl in Hbody. unfold chdir. rewrite decide_True by by rewrite Hbody.
  done.
Qed.

(** *** The files a run returns *)

Local Abbreviation as_image := (as_image Image_).

Local Abbreviation add_texts := (add_texts Image_ read_file).

(** The names that the loops over the patterns collect. *)
Lemma matches_Ok expected fname l :
  matches expected fname = Py.Ok l →
  ∀ x, x ∈ l ↔ x = fname ∧ ∃ p, Some p ∈ expected ∧ re_match p fname = true.
Proof.
  revert l. induction expected as [|[p|] expected IH]; intros l H; [| |done].
  - injection H as <-. intros x. split; [by intros ?%elem_of_nil|].
    by intros (_ & p & ?%elem_of_nil & _).
  - cbn [Qpwrap.matches] in H.
    destruct (matches expected fname) as [rest|] eqn:Hrest; [|done].
    cbn [Py.bind] in H. injection H as <-. intros x. specialize (IH rest eq_refl x).
    destruct (re_match p fname) eqn:Hp.
    + rewrite elem_of_cons, IH. split.
      * intros [->|(-> & q & Hq & Hqm)]; (split; [done|]).
        -- exists p. split; [apply list_elem_of_here|done].
        -- exists q. split; [by apply list_elem_of_further|done].
      * intros (-> & _). by left.
    + rewrite IH. split.
      * intros (-> & q & Hq & Hqm). split; [done|].
        exists q. split; [by apply list_elem_of_further|done].
      * intros (-> & q & Hq & Hqm). split; [done|].
        apply elem_of_cons in Hq as [Heq|Hq]; [injection Heq as ->; congruence|].
        by exists q.
Qed.

Lemma expected_files_Ok expected names l :
  expected_files expected names = Py.Ok l →
  ∀ x, x ∈ l ↔ x ∈ names ∧ ∃ p, Some p ∈ expected ∧ re_match p x = true.
Proof.
  revert l. induction names as [|fname names IH]; intros l H.
  - injection H as <-. intros x. split; [by intros ?%elem_of_nil|].
    by intros (?%elem_of_nil & _).
  - cbn [Qpwrap.expected_files] in H.
    destruct (matches expected fname) as [here|] eqn:Hhere; [|done]. cbn [Py.bind] in H.
    destruct (expected_files expected names) as [rest|] eqn:Hrest; [|done].
    cbn [Py.bind] in H. injection H as <-. intros x.
    rewrite elem_of_app, (matches_Ok _ _ _ Hhere), (IH rest eq_refl), elem_of_cons. split.
    + intros [(-> & Hp)|(Hx & Hp)]; (split; [|done]); [by left|by right].
    + intros ([->|Hx] & Hp); [left|right]; done.
Qed.

Lemma changed_files_spec pre post f :
  f ∈ changed_files pre post ↔
  ∃ t, post !! f = Some t ∧ (pre !! f = None ∨ ∃ t0, pre !! f = Some t0 ∧ (t0 < t)%Z).
Proof.
  unfold changed_files. rewrite list_elem_of_omap. split.
  - intros ([g t] & Hin & Hsome). apply elem_of_map_to_list in Hin.
    destruct (pre !! g) as [t0|] eqn:Hpre.
    + destruct (t0 <? t)%Z eqn:Hlt; [|done]. injection Hsome as ->.
      exists t. split; [done|]. right. exists t0. split; [done|]. by apply Z.ltb_lt.
    + injection Hsome as ->. exists t. split; [done|]. by left.
  - intros (t & Hpost & Hpre). exists (f, t). split; [by apply elem_of_map_to_list|].
    destruct Hpre as [->|(t0 & -> & Hlt)]; [done|].
    by rewrite (proj2 (Z.ltb_lt _ _) Hlt).
Qed.

Lemma _changed_files_result self pre post w :
  (_changed_files self pre post w).1 = Py.Ok (changed_files pre post).
Proof.
  unfold _changed_files, debug. by destruct (debug_enabled self).
Qed.

(** What [classify] adds to the images and texts collected so far. *)
Lemma classify_result self names : ∀ imgs0 texts0 w imgs texts w',
  classify self names imgs0 texts0 w = (Py.Ok (imgs, texts), w') →
  w' = w ∧
  imgs = imgs0 ++ omap (λ f, as_image f w) names ∧
  texts = add_texts texts0 names w ∧
  Forall (λ f, as_image f w = None → Py.is_Ok (read_file f w)) names.
Proof.
  induction names as [|fname names IH]; intros imgs0 texts0 w imgs texts w' H.
  - injection H as <- <- <-. split; [done|]. split; [by rewrite app_nil_r|]. done.
  - cbn [Qpwrap.classify] in H. unfold bind at 1 in H.
    unfold try_except at 1, bind at 1, reads at 1 in H.
    unfold Qpwrap.add_texts. cbn [omap list_omap foldl].
    destruct (Image_ fname w) as [img|e] eqn:Himg.
    + assert (as_image fname w = Some img) as Has
        by (unfold Qpwrap.as_image; by rewrite Himg).
      rewrite Has. cbn in H. apply IH in H as (-> & -> & -> & Hread).
      split; [done|]. split; [by rewrite <- app_assoc|]. split; [done|].
      constructor; [by rewrite Has|done].
    + assert (as_image fname w = None) as Has
        by (unfold Qpwrap.as_image; by rewrite Himg).
      rewrite Has. unfold try_except at 1, bind at 1, reads at 1 in H.
      destruct (read_file fname w) as [t|e'] eqn:Ht.
      * cbn in H. apply IH in H as (-> & -> & -> & Hread).
        split; [done|]. split; [done|]. split; [done|].
        constructor; [intros _; by exists t|done].
      * cbn in H. done.
Qed.

(** A text of the dictionary has been read from a returned file of that
    base name that does not load as an image. *)
Lemma add_texts_lookup names w k t : ∀ texts0,
  add_texts texts0 names w !! k = Some t →
  texts0 !! k = Some t ∨
  ∃ g, g ∈ names ∧ basename g = k ∧ as_image g w = None ∧ read_file g w = Py.Ok t.
Proof.
  induction names as [|fname names IH]; intros texts0 H; [by left|].
  unfold Qpwrap.add_texts in H. cbn [foldl] in H.
  apply IH in H as [H|(g & Hg & Hk & Himg & Hread)].
  - destruct (as_image fname w) eqn:Has; [by left|].
    destruct (read_file fname w) as [t'|] eqn:Ht; [|by left].
    destruct (decide (basename fname = k)) as [<-|Hne].
    + rewrite lookup_insert_eq in H. injection H as ->. right.
      exists fname. split; [apply list_elem_of_here|done].
    + rewrite lookup_insert_ne in H by done. by left.
  - right. exists g. split; [by apply list_elem_of_further|done].
Qed.

(** *** What [run] returns *)

Lemma echo_Ok self s w :
  ∃ w', echo self s w = (Py.Ok (), w') ∧ files w' = files w ∧ cwd w' = cwd w.
Proof. unfold echo. destruct (echo_enabled self); by eexists. Qed.

(** C6: the result of a successful [run] is the two-element tuple of the
    produced images and the produced text files, namely what
    [_get_return_files] makes of the files before and after the command,
    which has then exited with status 0.  The docstring of [run] announces a
    third item, the output of the command; [run] ends in
    [return imgs, text], and the output goes to the log. *)
Theorem C6_run_returns_pair
    (self : Workspace) (prog : string) (a : Args) (expected : list (option string))
    (w w' : World) (r : obj ndarray float) :
  run self prog a expected w = (Py.Ok r, w') →
  ∃ imgs texts,
    r = Tuple [List (Img <$> imgs); Dict texts] ∧
    ∃ w0 files_after output w1 w2,
      popen_wait (shlex_split (command_line (_find is_executable self prog) a)) w0
        = Py.Ok (0%Z, files_after, output) ∧
      files w0 = files w ∧
      _get_return_files self (files w) files_after expected w1
        = (Py.Ok (imgs, texts), w2).
Proof.
  unfold Qpwrap.run. unfold bind at 1, getcwd at 1, try_finally. intros H.
  match type of H with context [bind ?m ?k w] =>
    destruct (bind m k w) as [rb wb] eqn:Hbody end.
  destruct (chdir (cwd w) wb) as [[[]|e0] w2]; [|done]. injection H as -> ->.
  unfold bind at 1, chdir at 1 in Hbody.
  destruct (decide (workdir self ∈ dirs w)); [|done].
  unfold bind at 1 in Hbody.
  destruct (echo_Ok self (command_line (_find is_executable self prog) a)
              (set_cwd (workdir self) w)) as (w0 & Hecho & Hfiles & _).
  rewrite Hecho in Hbody.
  unfold bind at 1, _get_files at 1 in Hbody.
  unfold bind at 1, Qpwrap.Popen_wait at 1 in Hbody.
  destruct (popen_wait _ w0) as [[[retcode files_after] output]|e1] eqn:Hpopen; [|done].
  destruct (retcode =? 0)%Z eqn:Hret; [|done]. apply Z.eqb_eq in Hret as ->.
  cbn [negb] in Hbody. unfold bind at 1, _get_files at 1 in Hbody.
  unfold bind at 1 in Hbody.
  match type of Hbody with context [_get_return_files ?s ?pre ?post ?ex ?w1] =>
    destruct (_get_return_files s pre post ex w1) as [[[imgs texts]|e2] w3] eqn:Hgrf
  end; [|done].
  injection Hbody as <- <-. exists imgs, texts. split; [done|].
  eexists w0, files_after, output, _, w3. split; [exact Hpopen|].
  split; [by rewrite Hfiles|]. rewrite <- Hgrf. f_equal. by rewrite Hfiles.
Qed.

(** *** How the wrappers hand back their results *)

Lemma bind_Ok {A B} (m : M A) (k : A → M B) w b w' :
  bind m k w = (Py.Ok b, w') →
  ∃ a w1, m w = (Py.Ok a, w1) ∧ k a w1 = (Py.Ok b, w').
Proof.
  unfold bind. destruct (m w) as [[a|e] w1]; [|done]. intros H. by exists a, w1.
Qed.

Section Wrappers.

Variable float_of_str : text → option float.
Variable str_float : float → text.
Variable linalg_inv : list (list float) → Py.result (list (list float)).
Variable clock : World → Z.
Variable Image_save : string → ndarray → World → Py.result (Image * gmap string Z).
Variable Image_data : Image → World → Py.result ndarray.
Variable NamedTemporaryFile :
  string → string → string → World → Py.result (string * gmap string Z).

Local Abbreviation bet :=
  (bet ndarray float re_match shlex_split is_executable popen_wait
       Image_ Image_save Image_data NamedTemporaryFile read_file).
Local Abbreviation flirt :=
  (flirt ndarray float float_of_str str_float linalg_inv re_match shlex_split
         is_executable popen_wait clock
         Image_ Image_save Image_data NamedTemporaryFile read_file).

(** [bet] returns a single result bare and any other number as a tuple. *)
Lemma bet_result self img kwargs w r w' :
  bet self img kwargs w = (Py.Ok r, w') →
  ∃ outs, match outs with [x] => r = x | _ => r = Tuple outs end.
Proof.
  intros H. unfold Qpwrap.bet in H.
  apply bind_Ok in H as ([img1 it] & w1 & _ & H).
  destruct (_get_std self img1 "_bet" kwargs) as [out args0].
  apply bind_Ok in H as (r0 & w2 & _ & H).
  apply bind_Ok in H as ([imgs files] & w3 & _ & H).
  apply bind_Ok in H as (imgs1 & w4 & _ & H).
  apply bind_Ok in H as (outs & w5 & _ & H).
  exists outs. destruct outs as [|x [|y outs]]; by injection H as <- _.
Qed.

(** [flirt] without matrix outputs returns a list of one element. *)
Lemma flirt_without_matrices self img ref kwargs w r w' :
  output_mat kwargs = None → output_invmat kwargs = None →
  flirt self img ref kwargs w = (Py.Ok r, w') →
  ∃ x, r = List [x].
Proof.
  intros Hmat Hinv H. unfold Qpwrap.flirt in H. rewrite Hmat, Hinv in H.
  apply bind_Ok in H as ([img1 it] & w1 & _ & H).
  apply bind_Ok in H as ([ref1 it'] & w2 & _ & H).
  destruct (_get_std self img1 "_reg" kwargs) as [out args0].
  rewrite bool_decide_eq_false_2 in H by (intros Hne; by apply Hne).
  cbn [orb] in H.
  apply bind_Ok in H as (r0 & w3 & _ & H).
  apply bind_Ok in H as ([imgs files] & w4 & _ & H).
  apply bind_Ok in H as (img0 & w5 & _ & H).
  apply bind_Ok in H as (out1 & w6 & _ & H).
  apply bind_Ok in H as (ret1 & w7 & [= <- <-] & H).
  apply bind_Ok in H as (ret2 & w8 & [= <- <-] & H).
  injection H as <- _. by exists out1.
Qed.

End Wrappers.

End RunProofs.

Lemma C10_run_restores_cwd_witness :
  cwd demo_world ∈ dirs demo_world ∧
  cwd (demo_run demo_workspace "flirt" flirt_args [Some "T1_reg"] demo_world).2 = "/home/user" ∧
  cwd (demo_run demo_workspace "false" (args_str "") [] demo_world).2 = "/home/user" ∧
  cwd (demo_run demo_workspace "fslmaths" (args_str "") [] demo_world).2 = "/home/user".
Proof.
  assert (cwd demo_world ∈ dirs demo_world) as Hcwd.
  { apply elem_of_union_l, elem_of_singleton. reflexivity. }
  split; [exact Hcwd|]. unfold demo_run.
  split; [|split]; by rewrite C10_run_restores_cwd.
Defined.

Lemma C6_run_returns_pair_witness :
  flirt_outcome = (Py.Ok flirt_result, flirt_outcome.2) ∧
  ∃ imgs texts, flirt_result = Tuple [List (Img <$> imgs); Dict texts].
Proof.
  assert (flirt_outcome = (Py.Ok flirt_result, flirt_outcome.2)) as Hrun
    by (vm_compute; reflexivity).
  split; [exact Hrun|].
  destruct (C6_run_returns_pair (list Z) Z String.prefix String.words (λ _, false)
              demo_program demo_Image demo_read_file
              demo_workspace "flirt" flirt_args [Some "T1_reg"] demo_world
              (flirt_outcome.2) flirt_result Hrun) as (imgs & texts & Hr & _).
  by exists imgs, texts.
Defined.

(** The tuple that a successful [run] returns has two items, not the three
    that its docstring announces. *)
Lemma C6_run_returns_triple_counterexample :
  ∃ items w', flirt_outcome = (Py.Ok (Tuple items), w') ∧ length items ≠ 3.
Proof.
  exists [List [Img (demo_image "T1_reg")]; Dict ∅], (flirt_outcome.2).
  split; [vm_compute; reflexivity|discriminate].
Qed.

(** C9 fails for [flirt]: without matrix outputs it returns the list that
    holds the registered image, where [bet], in the same setting, returns
    its single image bare. *)
Theorem C9_flirt_returns_one_element_list :
  (demo_flirt demo_workspace (Img (demo_image "T1")) (Img (demo_image "ref"))
     no_kwargs demo_world).1 = Py.Ok (List [Img (demo_image "T1_reg")]) ∧
  (demo_flirt demo_workspace (Str "T1") (Str "ref") no_kwargs demo_world).1
    = Py.Ok (List [Str "T1_reg.nii.gz"]) ∧
  (demo_bet demo_workspace (Img (demo_image "T1")) no_kwargs demo_world).1
    = Py.Ok (Img (demo_image "T1_bet")).
Proof. repeat split; vm_compute; reflexivity. Qed.

(** *** What computations do to the world *)

#[local] Instance log_grows_preorder : PreOrder log_grows.
Proof.
  split.
  - intros w. exists []. by rewrite app_nil_r.
  - intros w1 w2 w3 [l1 H1] [l2 H2]. exists (l1 ++ l2). by rewrite H2, H1, app_assoc.
Qed.

#[local] Instance only_logs_preorder : PreOrder only_logs.
Proof.
  split.
  - intros w. do 3 (split; [done|]). exists []. by rewrite app_nil_r.
  - intros w1 w2 w3 (Hc1 & Hd1 & Hf1 & l1 & H1) (Hc2 & Hd2 & Hf2 & l2 & H2).
    split; [congruence|]. split; [congruence|]. split; [congruence|].
    exists (l1 ++ l2). by rewrite H2, H1, app_assoc.
Qed.

Lemma only_logs_log_grows w w' : only_logs w w' → log_grows w w'.
Proof. by intros (_ & _ & _ & H). Qed.

Section Respects.

Context (R : relation World) `{!PreOrder R}.

Lemma respects_ret {A} (a : A) : respects R (ret a).
Proof. intros w. reflexivity. Qed.
Lemma respects_raise {A} e : respects R (raise (A := A) e).
Proof. intros w. reflexivity. Qed.
Lemma respects_lift {A} (r : Py.result A) : respects R (lift r).
Proof. intros w. reflexivity. Qed.
Lemma respects_reads {A} (f : World → Py.result A) : respects R (reads f).
Proof. intros w. reflexivity. Qed.

Lemma respects_bind {A B} (m : M A) (k : A → M B) :
  respects R m → (∀ a, respects R (k a)) → respects R (bind m k).
Proof.
  intros Hm Hk w. unfold bind. specialize (Hm w).
  destruct (m w) as [[a|e] w']; cbn [snd] in *; [|done].
  etrans; [exact Hm|apply Hk].
Qed.

Lemma respects_try_except {A} (m : M A) (h : Py.exn → M A) :
  respects R m → (∀ e, respects R (h e)) → respects R (try_except m h).
Proof.
  intros Hm Hh w. unfold try_except. specialize (Hm w).
  destruct (m w) as [[a|e] w']; cbn [snd] in *; [done|].
  etrans; [exact Hm|apply Hh].
Qed.

Lemma respects_try_finally {A} (m : M A) (final : M unit) :
  respects R m → respects R final → respects R (try_finally m final).
Proof.
  intros Hm Hf w. unfold try_finally. specialize (Hm w).
  destruct (m w) as [r w1]. specialize (Hf w1).
  destruct (final w1) as [[[]|e] w2]; cbn [snd] in *; by etrans.
Qed.

End Respects.

Lemma only_logs_log_write s : respects only_logs (log_write s).
Proof. intros w. do 3 (split; [done|]). by exists [s]. Qed.

Lemma only_logs_echo self s : respects only_logs (echo self s).
Proof.
  unfold echo. destruct (echo_enabled self); [|apply respects_ret; apply _].
  apply respects_bind; [apply _|apply only_logs_log_write|intros _; apply only_logs_log_write].
Qed.

Lemma only_logs_debug self s : respects only_logs (debug self s).
Proof.
  unfold debug. destruct (debug_enabled self); [|apply respects_ret; apply _].
  apply respects_bind; [apply _|apply only_logs_log_write|intros _; apply only_logs_log_write].
Qed.

Section RunWorld.

Variable ndarray : Type.
Variable float : Type.
Variable re_match : string → string → bool.
Variable shlex_split : string → list string.
Variable is_executable : string → bool.
Variable popen_wait : list string → World → Py.result (Z * gmap string Z * list string).
Variable Image_ : string → World → Py.result Image.
Variable read_file : string → World → Py.result string.

Local Abbreviation run := (run ndarray float re_match shlex_split is_executable
                               popen_wait Image_ read_file).
Local Abbreviation _get_return_files := (_get_return_files re_match Image_ read_file).
Local Abbreviation return_files := (return_files re_match).
Local Abbreviation classify := (classify Image_ read_file).
Local Abbreviation _find := (_find is_executable).
Local Abbreviation as_image := (as_image Image_).
Local Abbreviation add_texts := (add_texts Image_ read_file).

Lemma only_logs_return_files self pre post expected :
  respects only_logs (return_files self pre post expected).
Proof.
  unfold Qpwrap.return_files. destruct expected; [|apply respects_lift; apply _].
  unfold _changed_files.
  apply respects_bind; [apply _|apply only_logs_debug|intros _].
  apply respects_bind; [apply _|apply only_logs_debug|intros _].
  apply respects_ret; apply _.
Qed.

Lemma only_logs_classify self names : ∀ imgs texts,
  respects only_logs (classify self names imgs texts).
Proof.
  induction names as [|fname names IH]; intros imgs texts; [apply respects_ret; apply _|].
  cbn [Qpwrap.classify]. apply respects_bind; [apply _| |by intros [??]].
  apply respects_try_except; [apply _| |intros _].
  { apply respects_bind; [apply _|apply respects_reads; apply _|].
    intros ?. apply respects_ret; apply _. }
  apply respects_try_except; [apply _| |intros e].
  { apply respects_bind; [apply _|apply respects_reads; apply _|].
    intros ?. apply respects_ret; apply _. }
  apply respects_bind; [apply _|apply only_logs_log_write|].
  intros _. apply respects_raise; apply _.
Qed.

Lemma only_logs_get_return_files self pre post expected :
  respects only_logs (_get_return_files self pre post expected).
Proof.
  unfold Qpwrap._get_return_files.
  apply respects_bind; [apply _|apply only_logs_return_files|].
  intros names. apply only_logs_classify.
Qed.

Lemma set_cwd_same w : set_cwd (cwd w) w = w.
Proof. by destruct w. Qed.

(** [run], case by case. *)
Lemma run_cases self prog a expected w :
  cwd w ∈ dirs w →
  run self prog a expected w =
    let cmd := command_line (_find self prog) a in
    let w0 := (echo self cmd (set_cwd (workdir self) w)).2 in
    if decide (workdir self ∈ dirs w) then
      match popen_wait (shlex_split cmd) w0 with
      | Py.Raise e => (Py.Raise e, set_cwd (cwd w) w0)
      | Py.Ok (retcode, files_after, output) =>
          let w1 := set_log (log w0 ++ output) (set_files files_after w0) in
          if (retcode =? 0)%Z then
            let out := _get_return_files self (files w0) files_after expected w1 in
            (match out.1 with
             | Py.Ok (imgs, texts) => Py.Ok (Tuple [List (Img <$> imgs); Dict texts])
             | Py.Raise e => Py.Raise e
             end, set_cwd (cwd w) out.2)
          else
            (Py.Raise (Py.RuntimeError ("Command '" +:+ cmd +:+ "': Non-zero output status: "
                                        +:+ pretty retcode)),
             set_cwd (cwd w) w1)
      end
    else (Py.Raise (Py.OSError (workdir self)), w).
Proof.
  intros Hcwd. cbn zeta. unfold Qpwrap.run.
  unfold bind at 1, getcwd at 1, try_finally.
  unfold bind at 1, chdir at 1.
  destruct (decide (workdir self ∈ dirs w)) as [Hwd|Hwd].
  2:{ unfold chdir. rewrite decide_True by done. by rewrite set_cwd_same. }
  unfold bind at 1.
  set (cmd := command_line (_find self prog) a).
  destruct (only_logs_echo self cmd (set_cwd (workdir self) w)) as (_ & Hd0 & _ & _).
  destruct (echo_Ok self cmd (set_cwd (workdir self) w)) as (w0 & Hecho & _ & _).
  rewrite Hecho in *. cbn [fst snd] in *.
  unfold bind at 1, _get_files at 1.
  unfold bind at 1, Qpwrap.Popen_wait at 1.
  destruct (popen_wait (shlex_split cmd) w0) as [[[retcode files_after] output]|e].
  2:{ unfold chdir. rewrite decide_True by (by rewrite Hd0). done. }
  destruct (retcode =? 0)%Z; cbn [negb].
  2:{ unfold raise, chdir. rewrite decide_True by (cbn; by rewrite Hd0). done. }
  unfold bind at 1, _get_files at 1. unfold bind at 1.
  cbn [files set_log set_files].
  match goal with |- context [_get_return_files ?s ?pre ?post ?ex ?w1] =>
    pose proof (only_logs_get_return_files s pre post ex w1) as (_ & Hd2 & _ & _);
    destruct (_get_return_files s pre post ex w1) as [[[imgs texts]|e] w2]
  end; cbn [fst snd] in *.
  - unfold ret, chdir. rewrite decide_True by (by rewrite Hd2; cbn; rewrite Hd0). done.
  - unfold chdir. rewrite decide_True by (by rewrite Hd2; cbn; rewrite Hd0). done.
Qed.

Lemma echo_log self s w :
  (echo self s w).2 =
    set_log (log w ++ (if echo_enabled self then [s; nl] else [])) w.
Proof.
  unfold echo. destruct (echo_enabled self).
  - cbn. by rewrite <- app_assoc.
  - cbn. rewrite app_nil_r. by destruct w.
Qed.

(** What [run] adds to the log starts with the command line, when echo is
    enabled. *)
Lemma run_log self prog a expected w :
  cwd w ∈ dirs w → workdir self ∈ dirs w →
  ∃ l, log (run self prog a expected w).2 =
         log w ++ (if echo_enabled self
                   then [command_line (_find self prog) a; nl] else []) ++ l.
Proof.
  intros Hcwd Hwd. rewrite run_cases by done. cbn zeta.
  rewrite decide_True by done. rewrite echo_log.
  set (cmd := command_line (_find self prog) a). set (w0 := set_log _ _).
  destruct (popen_wait (shlex_split cmd) w0) as [[[retcode files_after] output]|e].
  - destruct (retcode =? 0)%Z.
    + match goal with |- context [_get_return_files ?s ?pre ?post ?ex ?w1] =>
        pose proof (only_logs_get_return_files s pre post ex w1) as (_ & _ & _ & l & Hl)
      end.
      exists (output ++ l). cbn [snd log set_cwd]. rewrite Hl. cbn.
      by rewrite <- !app_assoc.
    + exists output. cbn. by rewrite <- !app_assoc.
  - exists []. cbn. by rewrite app_nil_r.
Qed.

Lemma set_cwd_twice c c' w : set_cwd c (set_cwd c' w) = set_cwd c w.
Proof. done. Qed.

(** A successful [run], step by step: the command is launched in the
    workspace directory once the command line has been echoed, and exits
    with status 0; the names to return are computed from the files before
    the launch and the files [post] that the command leaves; each name is
    loaded as an image or read as a text, in the world [wl]; the current
    directory is set back. *)
Lemma run_outcome self prog a expected w r w' :
  run self prog a expected w = (Py.Ok r, w') →
  let cmd := command_line (_find self prog) a in
  let w0 := (echo self cmd (set_cwd (workdir self) w)).2 in
  ∃ post output names wl,
    popen_wait (shlex_split cmd) w0 = Py.Ok (0%Z, post, output) ∧
    return_files self (files w) post expected
      (set_log (log w0 ++ output) (set_files post w0)) = (Py.Ok names, wl) ∧
    cwd wl = workdir self ∧ dirs wl = dirs w ∧ files wl = post ∧
    w' = set_cwd (cwd w) wl ∧
    Forall (λ f, as_image f wl = None → Py.is_Ok (read_file f wl)) names ∧
    r = Tuple [List (Img <$> omap (λ f, as_image f wl) names);
               Dict (add_texts ∅ names wl)].
Proof.
  intros H cmd w0. unfold Qpwrap.run in H.
  unfold bind at 1, getcwd at 1, try_finally in H.
  match type of H with context [bind ?m ?k w] =>
    destruct (bind m k w) as [rb wb] eqn:Hbody end.
  unfold chdir in H. destruct (decide (cwd w ∈ dirs wb)); [|done]. injection H as -> <-.
  apply bind_Ok in Hbody as ([] & w1 & Hcd & Hbody).
  unfold chdir in Hcd. destruct (decide (workdir self ∈ dirs w)) as [Hwd|]; [|done].
  injection Hcd as <-.
  apply bind_Ok in Hbody as ([] & w2 & Hecho & Hbody).
  assert (w2 = w0) as -> by (unfold w0, cmd; by rewrite Hecho).
  destruct (only_logs_echo self cmd (set_cwd (workdir self) w)) as (Hc0 & Hd0 & Hf0 & _).
  fold w0 in Hc0, Hd0, Hf0. cbn [cwd dirs files set_cwd] in Hc0, Hd0, Hf0.
  apply bind_Ok in Hbody as (pre & w3 & [= <- <-] & Hbody).
  apply bind_Ok in Hbody as (retcode & w4 & Hp & Hbody).
  unfold Qpwrap.Popen_wait in Hp. fold cmd in Hp.
  destruct (popen_wait (shlex_split cmd) w0) as [[[rc post] output]|] eqn:Hpopen; [|done].
  injection Hp as -> <-.
  destruct (retcode =? 0)%Z eqn:Hrc; [|done]. apply Z.eqb_eq in Hrc as ->.
  cbn [negb] in Hbody.
  apply bind_Ok in Hbody as (post' & w5 & [= <- <-] & Hbody).
  apply bind_Ok in Hbody as ([imgs texts] & w6 & Hgrf & Hbody). injection Hbody as <- <-.
  unfold Qpwrap._get_return_files in Hgrf. cbn [files set_log set_files] in Hgrf.
  apply bind_Ok in Hgrf as (names & wl & Hnames & Hcl).
  apply classify_result in Hcl as (-> & -> & -> & Hread).
  match type of Hnames with return_files ?s ?pre ?post ?ex ?w1 = _ =>
    pose proof (only_logs_return_files s pre post ex w1) as Hol end.
  rewrite Hnames in Hol. destruct Hol as (Hc & Hd & Hf & _).
  cbn [snd cwd dirs files set_log set_files] in Hc, Hd, Hf.
  exists post, output, names, wl. split; [done|].
  split; [by rewrite <- Hf0|]. split; [by rewrite Hc, Hc0|]. split; [by rewrite Hd, Hd0|].
  done.
Qed.

(** What a successful [run] returns, in terms of the world it ends in. *)
Lemma run_names self prog a expected w r w' :
  run self prog a expected w = (Py.Ok r, w') →
  let wl := set_cwd (workdir self) w' in
  ∃ names,
    r = Tuple [List (Img <$> omap (λ f, as_image f wl) names);
               Dict (add_texts ∅ names wl)] ∧
    Forall (λ f, is_Some (files w' !! f) ∧
                 (expected ≠ [] → ∃ p, Some p ∈ expected ∧ re_match p f = true)) names.
Proof.
  intros H wl.
  apply run_outcome in H
    as (post & output & names & wl' & _ & Hnames & Hc & _ & Hf & -> & _ & ->).
  assert (wl = wl') as ->.
  { unfold wl. rewrite set_cwd_twice, <- Hc. apply set_cwd_same. }
  exists names. split; [done|]. cbn [files set_cwd]. rewrite Hf.
  apply Forall_forall. intros f Hin. unfold Qpwrap.return_files in Hnames.
  destruct expected as [|e expected].
  - pose proof (_changed_files_result self (files w) post
                  (set_log (log (echo self (command_line (_find self prog) a)
                                   (set_cwd (workdir self) w)).2 ++ output)
                     (set_files post (echo self (command_line (_find self prog) a)
                                        (set_cwd (workdir self) w)).2))) as Hres.
    rewrite Hnames in Hres. injection Hres as ->.
    apply changed_files_spec in Hin as (t & Ht & _). split; [by exists t|done].
  - unfold lift in Hnames. injection Hnames as Hnames _.
    apply (expected_files_Ok re_match) with (x := f) in Hnames.
    apply Hnames in Hin as [Hin Hp]. split; [|done].
    apply list_elem_of_fmap in Hin as ([g t] & -> & Hgt).
    apply elem_of_map_to_list in Hgt. by exists t.
Qed.

(** C1: a successful [run] has launched the command between two readings of
    the workspace files, and the command has left the files [post].  With a
    non-empty list of patterns, the names returned are exactly the files of
    [post] that [re.match] accepts for at least one pattern, changed or not;
    without patterns, exactly the files of [post] that are absent from the
    files before the launch or whose modification time is strictly greater
    than there.  The result holds the images that load from these names,
    in order, and the texts of the others under their base names.  For
    files [{a: t0}] before and [{a: t0, b: t1}] after: [b] alone without
    patterns, [a] alone with a pattern that matches [a] and not [b]. *)
Theorem C1_returned_files
    (self : Workspace) (prog : string) (a : Args) (expected : list (option string))
    (w w' : World) (r : obj ndarray float) :
  run self prog a expected w = (Py.Ok r, w') →
  let cmd := command_line (_find self prog) a in
  let w0 := (echo self cmd (set_cwd (workdir self) w)).2 in
  ∃ post output names wl,
    files w0 = files w ∧
    popen_wait (shlex_split cmd) w0 = Py.Ok (0%Z, post, output) ∧
    files wl = post ∧ cwd wl = workdir self ∧ w' = set_cwd (cwd w) wl ∧
    (expected ≠ [] →
       ∀ f, f ∈ names ↔
            is_Some (post !! f) ∧ ∃ p, Some p ∈ expected ∧ re_match p f = true) ∧
    (expected = [] →
       ∀ f, f ∈ names ↔
            ∃ t, post !! f = Some t ∧
                 (files w !! f = None ∨ ∃ t0, files w !! f = Some t0 ∧ (t0 < t)%Z)) ∧
    r = Tuple [List (Img <$> omap (λ f, as_image f wl) names);
               Dict (add_texts ∅ names wl)] ∧
    (∀ t0 t1, files w = {["a" := t0]} → post = <["b" := t1]> {["a" := t0]} →
       (expected = [] → names = ["b"]) ∧
       (∀ p, expected = [Some p] → re_match p "a" = true → re_match p "b" = false →
             names = ["a"])).
Proof.
  intros H cmd w0.
  apply run_outcome in H
    as (post & output & names & wl & Hp & Hnames & Hc & _ & Hf & -> & _ & ->).
  fold cmd in Hp, Hnames. fold w0 in Hp, Hnames.
  exists post, output, names, wl.
  split; [apply (only_logs_echo self cmd (set_cwd (workdir self) w))|].
  do 4 (split; [done|]).
  assert (expected = [] → names = changed_files (files w) post) as Hchanged.
  { intros ->. cbn [Qpwrap.return_files] in Hnames.
    pose proof (_changed_files_result self (files w) post
                  (set_log (log w0 ++ output) (set_files post w0))) as Hres.
    rewrite Hnames in Hres. by injection Hres as ->. }
  assert (expected ≠ [] →
          expected_files re_match expected (map_to_list post).*1 = Py.Ok names) as Hexp.
  { intros Hne. unfold Qpwrap.return_files in Hnames.
    destruct expected; [done|]. unfold lift in Hnames. by injection Hnames as ->. }
  split; [|split; [|split; [done|]]].
  - intros Hne f. rewrite (expected_files_Ok re_match _ _ _ (Hexp Hne) f).
    apply and_iff_compat_r. rewrite list_elem_of_fmap. split.
    + intros ([g t] & -> & Hgt). apply elem_of_map_to_list in Hgt. by exists t.
    + intros [t Ht]. exists (f, t). split; [done|]. by apply elem_of_map_to_list.
  - intros He f. rewrite (Hchanged He). apply changed_files_spec.
  - intros t0 t1 Hpre Hpost. split.
    + intros He. rewrite (Hchanged He), Hpre, Hpost. unfold changed_files.
      change (map_to_list _) with [("a", t0); ("b", t1)].
      cbn [omap list_omap]. rewrite lookup_singleton_eq, Z.ltb_irrefl.
      by rewrite lookup_singleton_ne.
    + intros p He Ha Hb. assert (expected ≠ []) as Hne by by rewrite He.
      specialize (Hexp Hne). rewrite He, Hpost in Hexp.
      change (map_to_list _) with [("a", t0); ("b", t1)] in Hexp.
      cbn in Hexp. rewrite Ha, Hb in Hexp. by injection Hexp as <-.
Qed.

(** X9: Without its working directory [run] raises [OSError] at once: nothing
    is logged, no program is started and the world is as before. *)
Theorem run_needs_its_directory
    (self : Workspace) (prog : string) (a : Args) (expected : list (option string))
    (w : World) :
  cwd w ∈ dirs w → workdir self ∉ dirs w →
  run self prog a expected w = (Py.Raise (Py.OSError (workdir self)), w).
Proof. intros Hcwd Hwd. rewrite run_cases by done. cbn zeta. by rewrite decide_False. Qed.

(** X10: A command that cannot be started, or that exits with a non-zero status,
    makes [run] raise: the error of the launch itself, or a [RuntimeError]
    that names the command line and the status.  The files that the command
    has left stay in the workspace and what it printed stays in the log,
    but no output file is looked at. *)
Theorem run_failed_command
    (self : Workspace) (prog : string) (a : Args) (expected : list (option string))
    (w : World) :
  cwd w ∈ dirs w → workdir self ∈ dirs w →
  let cmd := command_line (_find self prog) a in
  let w0 := (echo self cmd (set_cwd (workdir self) w)).2 in
  (∀ e, popen_wait (shlex_split cmd) w0 = Py.Raise e →
     run self prog a expected w = (Py.Raise e, set_cwd (cwd w) w0)) ∧
  (∀ retcode files_after output,
     popen_wait (shlex_split cmd) w0 = Py.Ok (retcode, files_after, output) →
     retcode ≠ 0%Z →
     run self prog a expected w =
       (Py.Raise (Py.RuntimeError ("Command '" +:+ cmd +:+ "': Non-zero output status: "
                                   +:+ pretty retcode)),
        set_cwd (cwd w) (set_log (log w0 ++ output) (set_files files_after w0)))).
Proof.
  intros Hcwd Hwd cmd w0. split.
  - intros e He. rewrite run_cases by done. cbn zeta. rewrite decide_True by done.
    fold cmd. fold w0. by rewrite He.
  - intros retcode files_after output Hp Hrc. rewrite run_cases by done. cbn zeta.
    rewrite decide_True by done. fold cmd. fold w0. rewrite Hp.
    by rewrite (proj2 (Z.eqb_neq _ _) Hrc).
Qed.


(** *** Output files that cannot be handled *)

(** X12: A returned name that loads neither as an image nor as a text is a hard
    error: the loop raises the error of the failed read, having logged a
    warning that names the file; the files before it have been read without
    any effect on the world, and the names after it are not looked at. *)
Theorem unreadable_output_is_an_error
    (self : Workspace) (before after : list string) (f : string)
    (imgs0 : list Image) (texts0 : gmap string string) (w : World) (e0 e : Py.exn) :
  Forall (λ g, Py.is_Ok (Image_ g w) ∨ Py.is_Ok (read_file g w)) before →
  Image_ f w = Py.Raise e0 → read_file f w = Py.Raise e →
  classify self (before ++ f :: after) imgs0 texts0 w =
    (Py.Raise e,
     set_log (log w ++ ["WARNING: Could not handle output file " +:+ f +:+ nl]) w).
Proof.
  intros Hbefore Himg Htext. revert imgs0 texts0.
  induction Hbefore as [|g before Hg _ IH]; intros imgs0 texts0.
  - cbn [app Qpwrap.classify]. unfold bind at 1, try_except at 1, bind at 1, reads at 1.
    rewrite Himg. unfold try_except at 1, bind at 1, reads at 1. rewrite Htext. done.
  - cbn [app Qpwrap.classify]. unfold bind at 1, try_except at 1, bind at 1, reads at 1.
    destruct (Image_ g w) as [img|e1] eqn:Hgi; [apply IH|].
    unfold try_except at 1, bind at 1, reads at 1.
    destruct Hg as [[? Hg]|[t Hg]]; [done|]. rewrite Hg. apply IH.
Qed.

End RunWorld.

(** *** Finding a program *)

Section FindProofs.

Variable is_executable : string → bool.

Local Abbreviation _find := (_find is_executable).
Local Abbreviation _find_in := (_find_in is_executable).

Lemma _find_in_first before d after cmd :
  Forall (λ d', is_executable (path_join d' cmd) = false) before →
  is_executable (path_join d cmd) = true →
  _find_in (before ++ d :: after) cmd = path_join d cmd.
Proof.
  intros Hbefore Hd. induction Hbefore as [|d' before Hd' _ IH]; simpl.
  - by rewrite Hd.
  - by rewrite Hd'.
Qed.

Lemma _find_in_none path cmd :
  Forall (λ d, is_executable (path_join d cmd) = false) path → _find_in path cmd = cmd.
Proof. induction 1 as [|d path Hd _ IH]; simpl; [done|]. by rewrite Hd. Qed.

Lemma init_path_local local_dir environ :
  ∃ rest, init_path None true local_dir environ = local_dir :: rest.
Proof.
  unfold init_path. cbn [foldl app].
  destruct (environ !! "FSLDEVDIR"), (environ !! "FSLDIR"); by eexists.
Qed.

Lemma init_path_dev local_dir environ dev :
  environ !! "FSLDEVDIR" = Some dev →
  ∃ rest, init_path None false local_dir environ = path_join dev "bin" :: rest.
Proof.
  intros Hdev. unfold init_path. cbn [foldl app]. rewrite Hdev.
  destruct (environ !! "FSLDIR"); by eexists.
Qed.

(** X13: A program is taken from the first directory of the search path that has
    an executable file of its name, and its bare name is used when none
    has.  On the path that the constructor builds by default, the directory
    of the calling program therefore comes before anything of FSL, and
    without it the [bin] directory of [FSLDEVDIR] comes first. *)
Theorem find_takes_the_first_executable (self : Workspace) (cmd : string) :
  (∀ before d after,
     _path self = before ++ d :: after →
     Forall (λ d', is_executable (path_join d' cmd) = false) before →
     is_executable (path_join d cmd) = true →
     _find self cmd = path_join d cmd) ∧
  (Forall (λ d, is_executable (path_join d cmd) = false) (_path self) →
   _find self cmd = cmd) ∧
  (∀ local_dir environ,
     _path self = init_path None true local_dir environ →
     is_executable (path_join local_dir cmd) = true →
     _find self cmd = path_join local_dir cmd) ∧
  (∀ local_dir environ dev,
     _path self = init_path None false local_dir environ →
     environ !! "FSLDEVDIR" = Some dev →
     is_executable (path_join (path_join dev "bin") cmd) = true →
     _find self cmd = path_join (path_join dev "bin") cmd).
Proof.
  unfold Qpwrap._find. split; [|split; [|split]].
  - intros before d after -> Hbefore Hd. by apply _find_in_first.
  - apply _find_in_none.
  - intros local_dir environ Hpath Hd.
    destruct (init_path_local local_dir environ) as [rest Hrest].
    rewrite Hpath, Hrest. by apply (_find_in_first []).
  - intros local_dir environ dev Hpath Hdev Hd.
    destruct (init_path_dev local_dir environ dev Hdev) as [rest Hrest].
    rewrite Hpath, Hrest. by apply (_find_in_first []).
Qed.

End FindProofs.

(** *** How often a file is returned *)

Lemma occurrences_app f l1 l2 : occurrences f (l1 ++ l2) = occurrences f l1 + occurrences f l2.
Proof. unfold occurrences. by rewrite List.filter_app, length_app. Qed.

Lemma occurrences_replicate f g n :
  occurrences f (replicate n g) = if decide (g = f) then n else 0.
Proof.
  unfold occurrences. induction n as [|n IH]; simpl.
  - by destruct (decide _).
  - destruct (decide (g = f)) as [->|Hne].
    + rewrite bool_decide_eq_true_2 by done. simpl. by rewrite IH.
    + by rewrite bool_decide_eq_false_2 by done.
Qed.

Lemma occurrences_NoDup f l :
  NoDup l → occurrences f l = if decide (f ∈ l) then 1 else 0.
Proof.
  unfold occurrences. induction 1 as [|x l Hx Hl IH]; simpl.
  - destruct (decide (f ∈ [])) as [?%elem_of_nil|]; done.
  - destruct (decide (f ∈ x :: l)) as [Hin|Hout];
      destruct (decide (x = f)) as [->|Hne].
    + rewrite bool_decide_eq_true_2 by done. simpl. rewrite IH.
      by rewrite decide_False.
    + rewrite bool_decide_eq_false_2 by done. rewrite IH.
      apply elem_of_cons in Hin as [?|Hin]; [congruence|]. by rewrite decide_True.
    + destruct Hout. apply list_elem_of_here.
    + rewrite bool_decide_eq_false_2 by done. rewrite IH.
      rewrite decide_False; [done|]. intros ?. by apply Hout, list_elem_of_further.
Qed.

Lemma omap_keys_NoDup {A} (g : string * A → option string) (l : list (string * A)) :
  (∀ kv f, g kv = Some f → f = kv.1) → NoDup l.*1 → NoDup (omap g l).
Proof.
  intros Hg. induction l as [|kv l IH]; intros Hnd; [constructor|].
  rewrite fmap_cons in Hnd. apply NoDup_cons in Hnd as [Hkv Hnd].
  cbn [omap list_omap]. destruct (g kv) as [f|] eqn:Hf; [|by apply IH].
  apply NoDup_cons. split; [|by apply IH].
  intros Hin. apply list_elem_of_omap in Hin as (kv' & Hkv' & Hf').
  apply Hg in Hf as ->. apply Hg in Hf'. apply Hkv.
  apply list_elem_of_fmap. exists kv'. by rewrite Hf'.
Qed.

Section Multiplicity.

Variable re_match : string → string → bool.

Local Abbreviation return_files := (return_files re_match).
Local Abbreviation matches := (matches re_match).
Local Abbreviation expected_files := (expected_files re_match).

Lemma matches_replicate pats f :
  matches (Some <$> pats) f
    = Py.Ok (replicate (length (List.filter (λ p, re_match p f) pats)) f).
Proof.
  induction pats as [|p pats IH]; [done|].
  rewrite fmap_cons. cbn [Qpwrap.matches]. rewrite IH. cbn [Py.bind List.filter].
  by destruct (re_match p f).
Qed.

Lemma expected_files_occurrences pats names f :
  ∃ l, expected_files (Some <$> pats) names = Py.Ok l ∧
       occurrences f l
         = occurrences f names * length (List.filter (λ p, re_match p f) pats).
Proof.
  induction names as [|g names (l & Hl & Hocc)]; [by exists []|].
  cbn [Qpwrap.expected_files]. rewrite matches_replicate, Hl. cbn [Py.bind].
  eexists. split; [reflexivity|].
  rewrite occurrences_app, occurrences_replicate, Hocc.
  assert (occurrences f (g :: names)
          = (if decide (g = f) then 1 else 0) + occurrences f names) as ->.
  { unfold occurrences. cbn [List.filter].
    destruct (decide (g = f)) as [->|Hne].
    - by rewrite bool_decide_eq_true_2 by done.
    - by rewrite bool_decide_eq_false_2 by done. }
  destruct (decide (g = f)) as [->|Hne]; lia.
Qed.

(** X14: Without patterns every changed file is returned once.  With patterns a
    file of the workspace is returned once for each pattern that matches
    it, so a file that several patterns match is returned several times. *)
Theorem returned_once_per_matching_pattern
    (self : Workspace) (pre post : gmap string Z) (w : World) :
  NoDup (changed_files pre post) ∧
  (∀ pats, pats ≠ [] →
     ∃ names, return_files self pre post (Some <$> pats) w = (Py.Ok names, w) ∧
       ∀ f, occurrences f names =
            if decide (is_Some (post !! f))
            then length (List.filter (λ p, re_match p f) pats) else 0).
Proof.
  split.
  - unfold changed_files. apply omap_keys_NoDup; [|apply NoDup_fst_map_to_list].
    intros [g t] f. cbn. destruct (pre !! g) as [t0|]; [|by intros [= ->]].
    destruct (t0 <? t)%Z; [by intros [= ->]|done].
  - intros pats Hne. unfold Qpwrap.return_files.
    destruct pats as [|p pats]; [done|]. rewrite fmap_cons.
    change (Some p :: (Some <$> pats)) with (Some <$> (p :: pats)).
    assert (∀ f, f ∈ (map_to_list post).*1 ↔ is_Some (post !! f)) as Hkeys.
    { intros f. rewrite list_elem_of_fmap. split.
      - intros ([g t] & -> & Hgt). apply elem_of_map_to_list in Hgt. by exists t.
      - intros [t Ht]. exists (f, t). split; [done|]. by apply elem_of_map_to_list. }
    unfold lift.
    destruct (expected_files_occurrences (p :: pats) (map_to_list post).*1 "")
      as (names & Hnames & _).
    exists names. rewrite Hnames. split; [done|]. intros f.
    destruct (expected_files_occurrences (p :: pats) (map_to_list post).*1 f)
      as (names' & Hnames' & Hocc).
    rewrite Hnames in Hnames'. injection Hnames' as <-. rewrite Hocc.
    rewrite (occurrences_NoDup f) by apply NoDup_fst_map_to_list.
    destruct (decide (is_Some (post !! f))) as [Hin|Hout].
    + rewrite decide_True; [lia|]. by apply Hkeys.
    + rewrite decide_False; [lia|]. by rewrite Hkeys.
Qed.

End Multiplicity.

(** *** The texts that parse as a matrix *)

Section MatrixAccepts.

Variable float : Type.
Variable float_of_str : text → option float.

Local Abbreviation float_row := (float_row float float_of_str).
Local Abbreviation matrix_rows := (matrix_rows float float_of_str).
Local Abbreviation text_to_matrix := (text_to_matrix float float_of_str).
Local Abbreviation numeric val := (is_Some (float_of_str val)).

Lemma float_row_accepts vals : Forall (λ val, numeric val) vals → Py.is_Ok (float_row vals).
Proof.
  induction 1 as [|val vals [v Hv] _ [row Hrow]]; [by eexists|].
  cbn [Qpwrap.float_row]. rewrite Hv, Hrow. by eexists.
Qed.

Lemma matrix_rows_accepts lines : ∀ ncols,
  let rows := filter (λ vals, vals ≠ []) (line_vals <$> lines) in
  Forall (Forall (λ val, numeric val)) rows →
  ((0 ≤ ncols)%Z → Forall (λ row, Z.of_nat (length row) = ncols) rows) →
  ((ncols < 0)%Z → ∀ row0, head rows = Some row0 →
     Forall (λ row, length row = length row0) rows) →
  Py.is_Ok (matrix_rows ncols lines).
Proof.
  induction lines as [|line lines IH]; intros ncols rows Hnum Hcols Hhead; [by eexists|].
  subst rows. rewrite fmap_cons in *. cbn [Qpwrap.matrix_rows].
  destruct (line_vals line) as [|val vals] eqn:Hvals.
  { rewrite filter_cons_False in * by (intros H; by apply H). by apply IH. }
  rewrite filter_cons_True in * by done.
  apply Forall_cons in Hnum as [Hrow Hnum].
  destruct (float_row_accepts _ Hrow) as [row Hfrow].
  assert (∀ nc, Py.is_Ok (matrix_rows nc lines) →
            Py.is_Ok (row ←! float_row (val :: vals);;
                      rows ←! matrix_rows nc lines;; Py.Ok (row :: rows))) as Hbody.
  { intros nc [m Hm]. rewrite Hfrow, Hm. by eexists. }
  destruct (ncols <? 0)%Z eqn:Hneg.
  - apply Z.ltb_lt in Hneg. apply Hbody.
    specialize (Hhead Hneg (val :: vals) eq_refl).
    apply Forall_cons in Hhead as [_ Hhead].
    apply IH; [done| |lia]. intros _.
    eapply Forall_impl; [exact Hhead|]. intros r Hr. cbn beta in Hr. by rewrite Hr.
  - apply Z.ltb_ge in Hneg. specialize (Hcols Hneg).
    apply Forall_cons in Hcols as [Hlen Hcols].
    rewrite (proj2 (Z.eqb_eq _ _) Hlen). cbn [negb]. apply Hbody.
    apply IH; [done|done|lia].
Qed.

Lemma row_read_numeric (row : list text) (frow : list float) :
  Forall2 (λ val v, float_of_str val = Some v) row frow → Forall (λ val, numeric val) row.
Proof. induction 1 as [|val v row frow Hv _ IH]; constructor; [by eexists|done]. Qed.

Lemma rows_read_numeric (rows : list (list text)) (m : list (list float)) :
  Forall2 (Forall2 (λ val v, float_of_str val = Some v)) rows m →
  Forall (Forall (λ val, numeric val)) rows.
Proof.
  induction 1 as [|row frow rows m Hrow _ IH]; constructor; [|done].
  by eapply row_read_numeric.
Qed.

(** X15: A text parses as a matrix exactly when, blank and comment-only lines
    apart, every entry is a number and every row has as many entries as the
    first; the matrix then has one row for each such line.  So a text
    without any such line parses, as the matrix without rows. *)
Theorem text_to_matrix_accepts_exactly (t : text) :
  (Py.is_Ok (text_to_matrix t) ↔
     Forall (Forall (λ val, numeric val)) (text_rows t) ∧
     ∀ row0, head (text_rows t) = Some row0 →
       Forall (λ row, length row = length row0) (text_rows t)) ∧
  (∀ m, text_to_matrix t = Py.Ok m → length m = length (text_rows t)) ∧
  (text_rows t = [] → text_to_matrix t = Py.Ok []).
Proof.
  assert (∀ m, text_to_matrix t = Py.Ok m →
            Forall2 (Forall2 (λ val v, float_of_str val = Some v)) (text_rows t) m ∧
            ∀ row0, head (text_rows t) = Some row0 →
              Forall (λ row, length row = length row0) (text_rows t)) as Hok.
  { intros m Hm. apply matrix_rows_Ok in Hm as (Hrows & _ & Hlen).
    split; [done|]. apply Hlen. lia. }
  assert (Forall (Forall (λ val, numeric val)) (text_rows t) →
          (∀ row0, head (text_rows t) = Some row0 →
             Forall (λ row, length row = length row0) (text_rows t)) →
          Py.is_Ok (text_to_matrix t)) as Haccepts.
  { intros Hnum Hlen. apply matrix_rows_accepts; [done|lia|]. intros _. apply Hlen. }
  split; [|split].
  - split; [|by intros [??]; apply Haccepts].
    intros [m Hm]. destruct (Hok m Hm) as [Hrows Hlen]. split; [|done].
    by eapply rows_read_numeric.
  - intros m Hm. destruct (Hok m Hm) as [Hrows _]. symmetry. by eapply Forall2_length.
  - intros Hempty. destruct Haccepts as [m Hm].
    { rewrite Hempty. constructor. }
    { rewrite Hempty. intros row0 [=]. }
    destruct (Hok m Hm) as [Hrows _]. rewrite Hempty in Hrows.
    by apply Forall2_nil_inv_l in Hrows as ->.
Qed.

End MatrixAccepts.

(** *** The wrappers: inputs and results *)

Section WrapperProofs.

Variable ndarray : Type.
Variable float : Type.
Variable float_of_str : text → option float.
Variable str_float : float → text.
Variable array_text : ndarray → text.
Variable linalg_inv : list (list float) → Py.result (list (list float)).
Variable re_match : string → string → bool.
Variable shlex_split : string → list string.
Variable is_executable : string → bool.
Variable popen_wait : list string → World → Py.result (Z * gmap string Z * list string).
Variable clock : World → Z.
Variable Image_ : string → World → Py.result Image.
Variable Image_save : string → ndarray → World → Py.result (Image * gmap string Z).
Variable Image_data : Image → World → Py.result ndarray.
Variable NamedTemporaryFile :
  string → string → string → World → Py.result (string * gmap string Z).
Variable read_file : string → World → Py.result string.

Local Abbreviation obj := (obj ndarray float).
Local Abbreviation run := (run ndarray float re_match shlex_split is_executable
                               popen_wait Image_ read_file).
Local Abbreviation _find := (_find is_executable).
Local Abbreviation _input_img := (_input_img ndarray float Image_ Image_save NamedTemporaryFile).
Local Abbreviation _output_img := (_output_img ndarray float Image_data).
Local Abbreviation unpack2 := (unpack2 ndarray float).
Local Abbreviation first := (first ndarray float).
Local Abbreviation getitem := (getitem ndarray float).
Local Abbreviation fast :=
  (fast ndarray float re_match shlex_split is_executable popen_wait
        Image_ Image_save Image_data NamedTemporaryFile read_file).
Local Abbreviation mcflirt :=
  (mcflirt ndarray float re_match shlex_split is_executable popen_wait
           Image_ Image_save Image_data NamedTemporaryFile read_file).
Local Abbreviation fabber :=
  (fabber ndarray float re_match shlex_split is_executable popen_wait
          Image_ Image_save Image_data NamedTemporaryFile read_file).
Local Abbreviation flirt :=
  (flirt ndarray float float_of_str str_float linalg_inv re_match shlex_split
         is_executable popen_wait clock
         Image_ Image_save Image_data NamedTemporaryFile read_file).
Local Abbreviation apply_xfm :=
  (apply_xfm ndarray float str_float array_text re_match shlex_split is_executable
             popen_wait clock Image_ Image_save Image_data NamedTemporaryFile read_file).
Local Abbreviation maths :=
  (maths ndarray float re_match shlex_split is_executable popen_wait
         Image_ Image_save Image_data NamedTemporaryFile read_file).
Local Abbreviation text_to_matrix := (text_to_matrix float float_of_str).

Lemma run_result_shape self prog a expected w r w' :
  run self prog a expected w = (Py.Ok r, w') →
  ∃ imgs texts, r = Tuple [List (Img <$> imgs); Dict texts].
Proof.
  unfold Qpwrap.run. unfold bind at 1, getcwd at 1, try_finally. intros H.
  match type of H with context [bind ?m ?k w] =>
    destruct (bind m k w) as [rb wb] eqn:Hbody end.
  destruct (chdir (cwd w) wb) as [[[]|e0] w2]; [|done]. injection H as -> ->.
  apply bind_Ok in Hbody as ([] & w1 & _ & Hbody).
  apply bind_Ok in Hbody as ([] & w3 & _ & Hbody).
  apply bind_Ok in Hbody as (pre & w4 & _ & Hbody).
  apply bind_Ok in Hbody as (retcode & w5 & _ & Hbody).
  destruct (negb _); [done|].
  apply bind_Ok in Hbody as (post & w6 & _ & Hbody).
  apply bind_Ok in Hbody as ([imgs texts] & w7 & _ & Hbody).
  injection Hbody as <- _. by exists imgs, texts.
Qed.

(** The kind that [_input_img] records for each form of input. *)
Lemma _input_img_kind self img w i it w1 :
  _input_img self img w = (Py.Ok (i, it), w1) →
  match img with
  | Img i' => i = i' ∧ it = IMAGE
  | Str _ => it = FILENAME
  | Array _ => it = NUMPY
  | _ => False
  end ∧ cwd w1 = cwd w ∧ dirs w1 = dirs w ∧ log w1 = log w.
Proof.
  destruct img as [i'|name|a|m|d|l|l]; cbn [Qpwrap._input_img]; try done.
  - by intros [= <- <- <-].
  - intros H. apply bind_Ok in H as (i0 & w0 & H0 & H). injection H as <- <- <-.
    unfold reads in H0. by injection H0 as _ <-.
  - intros H. apply bind_Ok in H as (tempname & w0 & H0 & H).
    apply bind_Ok in H as (i0 & w2 & H2 & H). injection H as <- <- <-.
    unfold writes in H0, H2.
    destruct (NamedTemporaryFile _ _ _ w) as [[? fs0]|]; [|done]. injection H0 as _ <-.
    destruct (Image_save _ _ _) as [[? fs2]|]; [|done]. by injection H2 as _ <-.
Qed.

(** What [_output_img] hands back for each kind. *)
Lemma _output_img_kind self o it w r w' :
  _output_img self o it w = (Py.Ok r, w') →
  w' = w ∧
  match it with
  | IMAGE => r = o
  | FILENAME => ∃ i, o = Img i ∧ r = Str (fpath i)
  | NUMPY => ∃ i a, o = Img i ∧ Image_data i w = Py.Ok a ∧ r = Array a
  end.
Proof.
  destruct it; cbn [Qpwrap._output_img].
  - destruct o as [i| | | | | |]; try done. intros [= <- <-]. split; [done|]. by exists i.
  - by intros [= <- <-].
  - destruct o as [i| | | | | |]; try done. intros H.
    apply bind_Ok in H as (a & w0 & H0 & H). injection H as <- <-.
    unfold reads in H0. injection H0 as H0 <-. split; [done|]. by exists i, a.
Qed.

(** The first image of the result of [run] has been loaded from a file that
    the command left in the workspace and that matches a pattern. *)
Lemma run_first_image self prog a expected w i rest texts w' :
  run self prog a expected w = (Py.Ok (Tuple [List (Img <$> i :: rest); Dict texts]), w') →
  ∃ f, is_Some (files w' !! f) ∧
       Image_ f (set_cwd (workdir self) w') = Py.Ok i ∧
       (expected ≠ [] → ∃ p, Some p ∈ expected ∧ re_match p f = true).
Proof.
  intros H. apply run_names in H as (names & Hr & Hnames). injection Hr as Himgs _.
  apply (f_equal head) in Himgs. cbn [head fmap list_fmap] in Himgs.
  rewrite Forall_forall in Hnames.
  induction names as [|f names IH]; [done|]. cbn [omap list_omap] in Himgs.
  destruct (as_image Image_ f _) as [i'|] eqn:Has.
  - injection Himgs as [= ->]. exists f.
    destruct (Hnames f (list_elem_of_here _ _)) as [Hfile Hpat].
    split; [done|]. split; [|done]. unfold as_image in Has.
    by destruct (Image_ f _) as [?|?]; [injection Has as ->|].
  - apply IH; [done|]. intros g Hg. by apply Hnames, list_elem_of_further.
Qed.

(** A text of the result of [run] has been read from a file that the
    command left in the workspace and that matches a pattern. *)
Lemma run_text self prog a expected w imgs texts w' k t :
  run self prog a expected w = (Py.Ok (Tuple [List imgs; Dict texts]), w') →
  texts !! k = Some t →
  ∃ g, basename g = k ∧ is_Some (files w' !! g) ∧
       read_file g (set_cwd (workdir self) w') = Py.Ok t ∧
       (expected ≠ [] → ∃ p, Some p ∈ expected ∧ re_match p g = true).
Proof.
  intros H Ht. apply run_names in H as (names & Hr & Hnames). injection Hr as _ ->.
  apply add_texts_lookup in Ht as [Ht|(g & Hg & Hk & _ & Hread)]; [done|].
  rewrite Forall_forall in Hnames. destruct (Hnames g Hg) as [Hfile Hpat].
  by exists g.
Qed.

(** The tail that the wrappers with a single output share. *)
Lemma single_output self img i0 it w0 wi prog a expected wr r0 w r w' :
  _input_img self img w0 = (Py.Ok (i0, it), wi) →
  run self prog a expected wr = (Py.Ok r0, w) →
  ('(imgs, _) ←$ unpack2 r0 ;; img0 ←$ first imgs ;; _output_img self img0 it) w
    = (Py.Ok r, w') →
  ∃ i f,
    is_Some (files w' !! f) ∧
    Image_ f (set_cwd (workdir self) w') = Py.Ok i ∧
    (expected ≠ [] → ∃ p, Some p ∈ expected ∧ re_match p f = true) ∧
    handed_back Image_data img r i w'.
Proof.
  intros Hin Hrun H. apply _input_img_kind in Hin as [Hkind _].
  destruct (run_result_shape _ _ _ _ _ _ _ Hrun) as (imgs & texts & ->).
  apply bind_Ok in H as ([imgs1 files1] & w1 & [= <- <- <-] & H).
  apply bind_Ok in H as (img0 & w2 & H0 & H).
  destruct imgs as [|i imgs]; [done|]. injection H0 as <- <-.
  apply _output_img_kind in H as [-> H].
  destruct (run_first_image _ _ _ _ _ _ _ _ _ Hrun) as (f & Hfile & Himg & Hpat).
  exists i, f. do 3 (split; [done|]).
  destruct img as [i'|name|arr|m|d|l|l]; try done.
  - destruct Hkind as [_ ->]. done.
  - subst it. destruct H as (i1 & [= <-] & ->). done.
  - subst it. destruct H as (i1 & a0 & [= <-] & Hdata & ->). by exists a0.
Qed.

(** The one pattern of a call of [run]. *)
Lemma one_pattern (pat f : string) :
  ([Some pat] ≠ [] → ∃ p, Some p ∈ [Some pat] ∧ re_match p f = true) →
  re_match pat f = true.
Proof.
  intros H. destruct H as (p & Hp & Hm); [done|].
  apply list_elem_of_singleton in Hp. by injection Hp as ->.
Qed.

(** X16: [fast], [mcflirt] and [fabber] return the image that loads from a
    file which the command has left in the workspace and whose name matches
    the pattern of the wrapper (the output name followed by [_seg], the
    output name, the output name followed by [/finalMVN]), in the form in
    which the input image was given: the image object for an image object,
    the path of its file for a name, its data for an array; for any other
    input they do not return. *)
Theorem single_output_wrappers_mirror_the_input (self : Workspace) :
  (∀ img kwargs w r w',
     fast self img kwargs w = (Py.Ok r, w') →
     ∃ i0 it w1 i f,
       _input_img self img w = (Py.Ok (i0, it), w1) ∧
       re_match ((_get_std self i0 "_fast" kwargs).1 +:+ "_seg") f = true ∧
       is_Some (files w' !! f) ∧
       Image_ f (set_cwd (workdir self) w') = Py.Ok i ∧
       handed_back Image_data img r i w') ∧
  (∀ img cost ref kwargs w r w',
     mcflirt self img cost ref kwargs w = (Py.Ok r, w') →
     ∃ i0 it w1 i f,
       _input_img self img w = (Py.Ok (i0, it), w1) ∧
       re_match (_get_std self i0 "_mc" kwargs).1 f = true ∧
       is_Some (files w' !! f) ∧
       Image_ f (set_cwd (workdir self) w') = Py.Ok i ∧
       handed_back Image_data img r i w') ∧
  (∀ model_group img mask options overwrite kwargs w r w',
     fabber self model_group img mask options overwrite kwargs w = (Py.Ok r, w') →
     ∃ i0 it w1 i f,
       _input_img self img w = (Py.Ok (i0, it), w1) ∧
       re_match ((_get_std self i0 "_fabber" kwargs).1 +:+ "/finalMVN") f = true ∧
       is_Some (files w' !! f) ∧
       Image_ f (set_cwd (workdir self) w') = Py.Ok i ∧
       handed_back Image_data img r i w').
Proof.
  split; [|split].
  - intros img kwargs w r w' H. unfold Qpwrap.fast in H.
    apply bind_Ok in H as ([i0 it] & w1 & Hin & H).
    destruct (_get_std self i0 "_fast" kwargs) as [out args0] eqn:Hstd.
    apply bind_Ok in H as (r0 & w2 & Hrun & H).
    destruct (single_output _ _ _ _ _ _ _ _ _ _ _ _ _ _ Hin Hrun H)
      as (i & f & Hfile & Himg & Hpat & Hback).
    exists i0, it, w1, i, f. split; [done|]. rewrite Hstd. cbn [fst].
    split; [by apply one_pattern|]. done.
  - intros img cost ref kwargs w r w' H. unfold Qpwrap.mcflirt in H.
    apply bind_Ok in H as ([i0 it] & w1 & Hin & H).
    destruct (_get_std self i0 "_mc" kwargs) as [out args0] eqn:Hstd.
    apply bind_Ok in H as (args1 & w2 & _ & H).
    apply bind_Ok in H as (r0 & w3 & Hrun & H).
    destruct (single_output _ _ _ _ _ _ _ _ _ _ _ _ _ _ Hin Hrun H)
      as (i & f & Hfile & Himg & Hpat & Hback).
    exists i0, it, w1, i, f. split; [done|]. rewrite Hstd. cbn [fst].
    split; [by apply one_pattern|]. done.
  - intros model_group img mask options overwrite kwargs w r w' H.
    unfold Qpwrap.fabber in H.
    apply bind_Ok in H as ([i0 it] & w1 & Hin & H).
    apply bind_Ok in H as ([m0 it'] & w2 & _ & H).
    destruct (_get_std self i0 "_fabber" kwargs) as [out args0] eqn:Hstd.
    apply bind_Ok in H as (r0 & w3 & Hrun & H).
    destruct (single_output _ _ _ _ _ _ _ _ _ _ _ _ _ _ Hin Hrun H)
      as (i & f & Hfile & Himg & Hpat & Hback).
    exists i0, it, w1, i, f. split; [done|]. rewrite Hstd. cbn [fst].
    split; [by apply one_pattern|]. done.
Qed.

(** X17: Asked for the inverse matrix alone, [flirt] never returns: it passes
    [None] on as the name of the matrix file and then looks the matrix text
    up under that name. *)
Theorem flirt_inverse_needs_the_matrix
    (self : Workspace) (img ref : obj) (kwargs : Kwargs) (w : World) :
  output_mat kwargs = None → is_Some (output_invmat kwargs) →
  ∃ e, (flirt self img ref kwargs w).1 = Py.Raise e.
Proof.
  intros Hmat [invname Hinv].
  destruct (flirt self img ref kwargs w) as [[r|e] w'] eqn:H; [exfalso|by exists e].
  unfold Qpwrap.flirt in H. rewrite Hmat, Hinv in H.
  apply bind_Ok in H as ([img1 it] & w1 & _ & H).
  apply bind_Ok in H as ([ref1 it'] & w2 & _ & H).
  destruct (_get_std self img1 "_reg" kwargs) as [out args0].
  destruct (_ || _).
  - apply bind_Ok in H as (r0 & w3 & _ & H).
    apply bind_Ok in H as ([imgs files] & w4 & _ & H).
    apply bind_Ok in H as (img0 & w5 & _ & H).
    apply bind_Ok in H as (out1 & w6 & _ & H).
    apply bind_Ok in H as (ret1 & w7 & _ & H).
    apply bind_Ok in H as (ret2 & w8 & H & _).
    apply bind_Ok in H as (t & w9 & H & _).
    by destruct files.
  - apply bind_Ok in H as (r0 & w3 & _ & H).
    apply bind_Ok in H as ([imgs files] & w4 & _ & H).
    apply bind_Ok in H as (img0 & w5 & _ & H).
    apply bind_Ok in H as (out1 & w6 & _ & H).
    apply bind_Ok in H as (ret1 & w7 & _ & H).
    apply bind_Ok in H as (ret2 & w8 & H & _).
    apply bind_Ok in H as (t & w9 & H & _).
    by destruct files.
Qed.

(** X18: Asked for the matrix, [flirt] returns a tuple of the registered image
    and the matrix.  The image is the one that loads from a file which the
    command has left in the workspace and which matches the output name or
    the name of the matrix file, in the form of the input image; the matrix
    is what [text_to_matrix] makes of the text read from a file left by the
    command whose base name is the name of the matrix file.  Asked for the
    inverse as well, it returns a tuple of three with the inverse that
    [numpy.linalg.inv] computes, having written a file of that name to the
    workspace and nothing else. *)
Theorem flirt_returns_the_matrices
    (self : Workspace) (img ref : obj) (kwargs : Kwargs) (mat : string)
    (w w' : World) (r : obj) :
  output_mat kwargs = Some mat →
  flirt self img ref kwargs w = (Py.Ok r, w') →
  ∃ i0 it w1 w3 i f g x t m,
    _input_img self img w = (Py.Ok (i0, it), w1) ∧
    let out := (_get_std self i0 "_reg" kwargs).1 in
    let wl := set_cwd (workdir self) w3 in
    (re_match out f = true ∨ re_match mat f = true) ∧
    is_Some (files w3 !! f) ∧ Image_ f wl = Py.Ok i ∧
    handed_back Image_data img x i w3 ∧
    basename g = mat ∧
    (re_match out g = true ∨ re_match mat g = true) ∧
    is_Some (files w3 !! g) ∧ read_file g wl = Py.Ok t ∧
    text_to_matrix (list_ascii_of_string t) = Py.Ok m ∧
    match output_invmat kwargs with
    | None => r = Tuple [x; Matrix m] ∧ w' = w3
    | Some invname =>
        ∃ inv, linalg_inv m = Py.Ok inv ∧
               r = Tuple [x; Matrix m; Matrix inv] ∧
               w' = set_files (<[invname := clock w3]> (files w3)) w3 ∧
               is_Some (files w' !! invname)
    end.
Proof.
  intros Hmat H. unfold Qpwrap.flirt in H. rewrite Hmat in H.
  apply bind_Ok in H as ([img1 it] & w1 & Hin & H).
  apply bind_Ok in H as ([ref1 it'] & w2 & _ & H).
  destruct (_get_std self img1 "_reg" kwargs) as [out args0] eqn:Hstd.
  rewrite bool_decide_eq_true_2 in H by done. cbn [orb] in H.
  apply bind_Ok in H as (r0 & w3 & Hrun & H).
  destruct (run_result_shape _ _ _ _ _ _ _ Hrun) as (imgs & texts & ->).
  apply bind_Ok in H as ([imgs1 files1] & w4 & [= <- <- <-] & H).
  apply bind_Ok in H as (img0 & w5 & H0 & H).
  destruct imgs as [|i imgs]; [done|]. injection H0 as <- <-.
  apply bind_Ok in H as (out1 & w6 & Hout & H).
  apply _output_img_kind in Hout as [-> Hout].
  apply bind_Ok in H as (ret1 & w7 & H1 & H).
  apply bind_Ok in H1 as (t & w8 & Ht & H1).
  apply bind_Ok in H1 as (m & w9 & Hm & H1).
  injection H1 as <- <-. unfold lift in Hm. injection Hm as Hm <-.
  cbn [Qpwrap.getitem default] in Ht.
  destruct (texts !! mat) as [t'|] eqn:Htext; [|done]. injection Ht as -> <-.
  destruct (run_first_image _ _ _ _ _ _ _ _ _ Hrun) as (f & Hfile & Himg & Hpat).
  destruct (run_text _ _ _ _ _ _ _ _ _ _ Hrun Htext) as (g & Hbase & Hgfile & Hread & Hgpat).
  assert (∀ h, ([Some out] ++ [Some mat] ≠ [] →
                ∃ p, Some p ∈ [Some out] ++ [Some mat] ∧ re_match p h = true) →
               re_match out h = true ∨ re_match mat h = true) as Hone.
  { intros h Hh. destruct Hh as (p & Hp & Hmatch); [done|].
    apply elem_of_cons in Hp as [[= ->]|Hp]; [by left|].
    apply list_elem_of_singleton in Hp. injection Hp as ->. by right. }
  exists img1, it, w1, w3, i, f, g, out1, t, m. split; [done|].
  rewrite Hstd. cbn [fst]. cbn zeta.
  split; [by apply Hone|]. split; [done|]. split; [done|].
  split.
  { apply _input_img_kind in Hin as [Hkind _].
    destruct img as [i'|name|arr|m0|d|l|l]; try done.
    - destruct Hkind as [_ ->]. done.
    - subst it. destruct Hout as (i1 & [= <-] & ->). done.
    - subst it. destruct Hout as (i1 & a0 & [= <-] & Hdata & ->). by exists a0. }
  split; [done|]. split; [by apply Hone|]. split; [done|]. split; [done|]. split; [done|].
  destruct (output_invmat kwargs) as [invname|].
  - apply bind_Ok in H as (ret2 & w10 & H2 & H).
    apply bind_Ok in H2 as (t2 & w11 & Ht2 & H2).
    cbn [Qpwrap.getitem default] in Ht2. rewrite Htext in Ht2. injection Ht2 as <- <-.
    apply bind_Ok in H2 as (m' & w12 & Hm' & H2).
    unfold lift in Hm'. rewrite Hm in Hm'. injection Hm' as <- <-.
    apply bind_Ok in H2 as (inv & w13 & Hinv & H2).
    unfold lift in Hinv. injection Hinv as Hinv <-.
    apply bind_Ok in H2 as ([] & w14 & Hadd & H2). injection H2 as <- <-.
    injection H as <- <-. exists inv. split; [done|]. split; [done|].
    unfold add_text in Hadd. injection Hadd as <-. split; [done|]. cbn.
    rewrite lookup_insert_eq. by eexists.
  - apply bind_Ok in H as (ret2 & w10 & [= <- <-] & H). by injection H as <- <-.
Qed.

(** X19: [apply_xfm] returns only when the reference is an image object and no
    keyword beyond [output_name] and [args] is given; it then returns the
    image that loads from a file which the command has left in the
    workspace and whose name matches the output name, in the form of the
    input image. *)
Theorem apply_xfm_takes_an_image_reference
    (self : Workspace) (img ref xfm : obj) (kwargs : Kwargs) (w w' : World) (r : obj) :
  apply_xfm self img ref xfm kwargs w = (Py.Ok r, w') →
  (∃ i, ref = Img i) ∧ leftover kwargs = false ∧
  ∃ i0 it w1 i f,
    _input_img self img w = (Py.Ok (i0, it), w1) ∧
    re_match (_get_std self i0 "_reg" kwargs).1 f = true ∧
    is_Some (files w' !! f) ∧
    Image_ f (set_cwd (workdir self) w') = Py.Ok i ∧
    handed_back Image_data img r i w'.
Proof.
  intros H. unfold Qpwrap.apply_xfm in H.
  apply bind_Ok in H as ([i0 it] & w1 & Hin & H).
  apply bind_Ok in H as ([xfm1 it'] & w2 & _ & H).
  destruct (_get_std self i0 "_reg" kwargs) as [out args0] eqn:Hstd.
  apply bind_Ok in H as (ref_iname & w3 & Href & H).
  split; [destruct ref as [i| | | | | |]; try done; by exists i|].
  destruct (leftover kwargs); [done|]. split; [done|].
  apply bind_Ok in H as (r0 & w4 & Hrun & H).
  destruct (single_output _ _ _ _ _ _ _ _ _ _ _ _ _ _ Hin Hrun H)
    as (i & f & Hfile & Himg & Hpat & Hback).
  exists i0, it, w1, i, f. split; [done|]. rewrite Hstd. cbn [fst].
  split; [by apply one_pattern|]. done.
Qed.

Lemma only_logs_unpack2 (o : obj) : respects only_logs (unpack2 o).
Proof.
  destruct o as [i|name|arr|m|d|l|l]; try (apply respects_raise; apply _);
    destruct l as [|x [|y [|z l]]];
    first [apply respects_ret; apply _|apply respects_raise; apply _].
Qed.

Lemma only_logs_first (o : obj) : respects only_logs (first o).
Proof.
  destruct o as [i|name|arr|m|d|l|l]; try (apply respects_raise; apply _);
    destruct l as [|x l];
    first [apply respects_ret; apply _|apply respects_raise; apply _].
Qed.

Lemma only_logs_output_img self (o : obj) it : respects only_logs (_output_img self o it).
Proof.
  destruct it; cbn [Qpwrap._output_img].
  - destruct o; first [apply respects_ret; apply _|apply respects_raise; apply _].
  - apply respects_ret; apply _.
  - destruct o; try (apply respects_raise; apply _).
    apply respects_bind; [apply _|apply respects_reads; apply _|].
    intros a. apply respects_ret; apply _.
Qed.

(** X20: [maths] turns echo on before it runs its command: the command line is
    written to the log also in a workspace that does not echo.  The command
    line is made of the input image, the [args] keyword and the output name;
    the positional arguments after the image are not used. *)
Theorem maths_always_echoes
    (self : Workspace) (img : obj) (pargs : list string) (kwargs : Kwargs)
    (w w1 : World) (i : Image) (it : itype) :
  cwd w ∈ dirs w → workdir self ∈ dirs w →
  _input_img self img w = (Py.Ok (i, it), w1) →
  let cmd :=
    command_line (_find self "fslmaths")
      (args_str (ipath i +:+ " " +:+ (_get_std self i "_maths" kwargs).2 +:+ " "
                 +:+ (_get_std self i "_maths" kwargs).1)) in
  (∃ l, log (maths self img pargs kwargs w).2 = log w ++ [cmd; nl] ++ l) ∧
  maths self img pargs kwargs w = maths self img [] kwargs w.
Proof.
  intros Hcwd Hwd Hin cmd. split; [|done].
  unfold Qpwrap.maths. unfold bind at 1. rewrite Hin.
  apply _input_img_kind in Hin as (_ & Hc1 & Hd1 & Hl1).
  change (_get_std (echoing self) i "_maths" kwargs) with (_get_std self i "_maths" kwargs).
  destruct (_get_std self i "_maths" kwargs) as [out args0] eqn:Hstd. cbn [fst snd] in cmd.
  unfold bind at 1.
  destruct (run_log ndarray float re_match shlex_split is_executable popen_wait
              Image_ read_file (echoing self) "fslmaths"
              (args_str (ipath i +:+ " " +:+ args0 +:+ " " +:+ out)) [Some out] w1)
    as [l Hl]; [by rewrite Hc1, Hd1|by rewrite Hd1|].
  cbn [echo_enabled echoing] in Hl. rewrite Hl1 in Hl. fold cmd in Hl.
  destruct (run (echoing self) "fslmaths" _ _ w1) as [[r0|e] w2]; cbn [snd] in *.
  2:{ by exists l. }
  match goal with |- context [log (?k w2).2] =>
    assert (respects only_logs k) as Htail end.
  { apply respects_bind; [apply _|apply only_logs_unpack2|]. intros [imgs files0].
    apply respects_bind; [apply _|apply only_logs_first|]. intros img0.
    apply only_logs_output_img. }
  destruct (Htail w2) as (_ & _ & _ & l2 & Hl2). exists (l ++ l2).
  rewrite Hl2, Hl. by rewrite <- !app_assoc.
Qed.

End WrapperProofs.

(** *** The command line of the model-fit wrapper *)

Lemma append_assoc (a b c : string) : (a +:+ b) +:+ c = a +:+ (b +:+ c).
Proof.
  induction a as [|x a IH]; [done|].
  change (String x ((a +:+ b) +:+ c) = String x (a +:+ (b +:+ c))). by rewrite IH.
Qed.

Lemma option_args_from (l : list (string * Py.value)) (acc : string) :
  foldl (λ option_args '(k, v), option_args +:+ option_arg k v) acc l
    = acc +:+ foldl (λ option_args '(k, v), option_args +:+ option_arg k v) "" l.
Proof.
  revert acc. induction l as [|[k v] l IH]; intros acc; cbn [foldl].
  - induction acc as [|x acc IHacc]; [done|].
    change (String x acc = String x (acc +:+ "")). by rewrite <- IHacc.
  - rewrite IH. rewrite (IH ("" +:+ option_arg k v)). by rewrite append_assoc.
Qed.

(** The rendering of every option is part of the option string. *)
Lemma option_args_contains (options : gmap string Py.value) k v :
  options !! k = Some v →
  ∃ pre post, option_args options = pre +:+ option_arg k v +:+ post.
Proof.
  intros Hk. apply elem_of_map_to_list in Hk.
  apply list_elem_of_split in Hk as (l1 & l2 & Hl). unfold option_args. rewrite Hl.
  rewrite foldl_app. cbn [foldl]. rewrite option_args_from.
  eexists _, _. by rewrite append_assoc.
Qed.

Lemma option_arg_Str k s : s ≠ "" → option_arg k (Py.Str s) = " --" +:+ k +:+ "=" +:+ s.
Proof. intros Hs. rewrite option_arg_cases. by destruct s. Qed.

(** X23: Whatever options the caller gives to [fabber], also for these
    very keys, the option string of the command has [--save-mvn], the
    output name as [--output=...], the paths of the input and mask images
    as [--data=...] and [--mask=...], and [--overwrite] unless the caller
    turns [overwrite] off. *)
Theorem fabber_always_passes_its_own_settings
    (img mask : Image) (output_name : string) (overwrite : bool)
    (options : gmap string Py.value) :
  let o := fabber_options img mask output_name overwrite options in
  (∃ pre post, option_args o = pre +:+ " --save-mvn" +:+ post) ∧
  (output_name ≠ "" →
     ∃ pre post, option_args o = pre +:+ (" --output=" +:+ output_name) +:+ post) ∧
  (ipath img ≠ "" →
     ∃ pre post, option_args o = pre +:+ (" --data=" +:+ ipath img) +:+ post) ∧
  (ipath mask ≠ "" →
     ∃ pre post, option_args o = pre +:+ (" --mask=" +:+ ipath mask) +:+ post) ∧
  (overwrite = true → ∃ pre post, option_args o = pre +:+ " --overwrite" +:+ post).
Proof.
  intros o.
  assert (o !! "save-mvn" = Some (Py.Str "") ∧
          o !! "output" = Some (Py.Str output_name) ∧
          o !! "data" = Some (Py.Str (ipath img)) ∧
          o !! "mask" = Some (Py.Str (ipath mask)) ∧
          (overwrite = true → o !! "overwrite" = Some (Py.Str "")))
    as (Hmvn & Hout & Hdata & Hmask & Hover).
  { unfold o, fabber_options. destruct overwrite; by simplify_map_eq. }
  split; [|split; [|split; [|split]]].
  - by apply (option_args_contains o "save-mvn" (Py.Str "")).
  - intros Hne.
    replace (" --output=" +:+ output_name) with (option_arg "output" (Py.Str output_name))
      by (by rewrite option_arg_Str).
    by apply option_args_contains.
  - intros Hne.
    replace (" --data=" +:+ ipath img) with (option_arg "data" (Py.Str (ipath img)))
      by (by rewrite option_arg_Str).
    by apply option_args_contains.
  - intros Hne.
    replace (" --mask=" +:+ ipath mask) with (option_arg "mask" (Py.Str (ipath mask)))
      by (by rewrite option_arg_Str).
    by apply option_args_contains.
  - intros Hov. apply (option_args_contains o "overwrite" (Py.Str "")). by apply Hover.
Qed.

(** *** The wrappers and the current directory *)

#[local] Instance stays_put_preorder : PreOrder stays_put.
Proof.
  split.
  - by intros w _.
  - intros w1 w2 w3 H12 H23 Hcwd. destruct (H12 Hcwd) as [Hc Hd].
    destruct H23 as [Hc' Hd']; [by rewrite Hc, Hd|]. split; congruence.
Qed.

Lemma stays_put_writes {A} (f : World → Py.result (A * gmap string Z)) :
  respects stays_put (writes f).
Proof. intros w _. unfold writes. by destruct (f w) as [[a fs]|e]. Qed.

Section WrappersStayPut.

Variable ndarray : Type.
Variable float : Type.
Variable float_of_str : text → option float.
Variable str_float : float → text.
Variable array_text : ndarray → text.
Variable linalg_inv : list (list float) → Py.result (list (list float)).
Variable re_match : string → string → bool.
Variable shlex_split : string → list string.
Variable is_executable : string → bool.
Variable popen_wait : list string → World → Py.result (Z * gmap string Z * list string).
Variable clock : World → Z.
Variable Image_ : string → World → Py.result Image.
Variable Image_save : string → ndarray → World → Py.result (Image * gmap string Z).
Variable Image_data : Image → World → Py.result ndarray.
Variable NamedTemporaryFile :
  string → string → string → World → Py.result (string * gmap string Z).
Variable read_file : string → World → Py.result string.

Local Abbreviation obj := (obj ndarray float).
Local Abbreviation run := (run ndarray float re_match shlex_split is_executable
                               popen_wait Image_ read_file).
Local Abbreviation _input_img := (_input_img ndarray float Image_ Image_save NamedTemporaryFile).
Local Abbreviation _input_matrix :=
  (_input_matrix ndarray float str_float array_text clock NamedTemporaryFile).
Local Abbreviation _output_img := (_output_img ndarray float Image_data).
Local Abbreviation _output_imgs := (_output_imgs ndarray float Image_data).
Local Abbreviation unpack2 := (unpack2 ndarray float).
Local Abbreviation iter := (iter ndarray float).
Local Abbreviation first := (first ndarray float).
Local Abbreviation getitem := (getitem ndarray float).
Local Abbreviation bet :=
  (bet ndarray float re_match shlex_split is_executable popen_wait
       Image_ Image_save Image_data NamedTemporaryFile read_file).
Local Abbreviation fast :=
  (fast ndarray float re_match shlex_split is_executable popen_wait
        Image_ Image_save Image_data NamedTemporaryFile read_file).
Local Abbreviation mcflirt :=
  (mcflirt ndarray float re_match shlex_split is_executable popen_wait
           Image_ Image_save Image_data NamedTemporaryFile read_file).
Local Abbreviation fabber :=
  (fabber ndarray float re_match shlex_split is_executable popen_wait
          Image_ Image_save Image_data NamedTemporaryFile read_file).
Local Abbreviation flirt :=
  (flirt ndarray float float_of_str str_float linalg_inv re_match shlex_split
         is_executable popen_wait clock
         Image_ Image_save Image_data NamedTemporaryFile read_file).
Local Abbreviation apply_xfm :=
  (apply_xfm ndarray float str_float array_text re_match shlex_split is_executable
             popen_wait clock Image_ Image_save Image_data NamedTemporaryFile read_file).
Local Abbreviation maths :=
  (maths ndarray float re_match shlex_split is_executable popen_wait
         Image_ Image_save Image_data NamedTemporaryFile read_file).

(** The operations that leave the current directory alone, and sequencing. *)
Ltac stays :=
  first
    [ apply respects_ret; apply _
    | apply respects_raise; apply _
    | apply respects_lift; apply _
    | apply respects_reads; apply _
    | apply stays_put_writes ].
Ltac stays_bind := apply respects_bind; [apply _| |].

Lemma stays_put_run self prog a expected : respects stays_put (run self prog a expected).
Proof.
  intros w Hcwd.
  rewrite (run_cases ndarray float re_match shlex_split is_executable popen_wait
             Image_ read_file) by done.
  cbn zeta. destruct (decide (workdir self ∈ dirs w)) as [Hwd|]; [|done].
  rewrite echo_log. set (w0 := set_log _ _).
  destruct (popen_wait _ w0) as [[[retcode files_after] output]|e]; [|done].
  destruct (retcode =? 0)%Z; [|done].
  match goal with |- context [_get_return_files ?rm ?im ?rf ?s ?pre ?post ?ex ?w1] =>
    pose proof (only_logs_get_return_files rm im rf s pre post ex w1) as (_ & Hd & _)
  end.
  cbn [snd cwd dirs set_cwd]. by rewrite Hd.
Qed.

Lemma stays_put_add_text self t name : respects stays_put (add_text clock self t name).
Proof. by intros w _. Qed.

Lemma stays_put_unpack2 (o : obj) : respects stays_put (unpack2 o).
Proof.
  destruct o as [i|name|arr|m|d|l|l]; try stays; destruct l as [|x [|y [|z l]]]; stays.
Qed.

Lemma stays_put_iter (o : obj) : respects stays_put (iter o).
Proof. destruct o; stays. Qed.

Lemma stays_put_first (o : obj) : respects stays_put (first o).
Proof. destruct o as [i|name|arr|m|d|l|l]; try stays; destruct l; stays. Qed.

Lemma stays_put_getitem (o : obj) key : respects stays_put (getitem o key).
Proof.
  destruct o as [i|name|arr|m|d|l|l], key as [k|]; try stays.
  cbn [Qpwrap.getitem]. destruct (d !! k); stays.
Qed.

Lemma stays_put_input_img self (o : obj) : respects stays_put (_input_img self o).
Proof.
  destruct o; cbn [Qpwrap._input_img]; try stays.
  - stays_bind; [stays|]. intros i. stays.
  - stays_bind; [stays|]. intros tempname. stays_bind; [stays|]. intros i. stays.
Qed.

Lemma stays_put_input_matrix self (o : obj) : respects stays_put (_input_matrix self o).
Proof.
  destruct o; cbn [Qpwrap._input_matrix]; try stays.
  - stays_bind; [stays|]. intros fname.
    stays_bind; [apply stays_put_add_text|]. intros _. stays.
  - stays_bind; [stays|]. intros fname.
    stays_bind; [apply stays_put_add_text|]. intros _. stays.
Qed.

Lemma stays_put_output_img self (o : obj) it : respects stays_put (_output_img self o it).
Proof.
  destruct it, o; cbn [Qpwrap._output_img]; try stays.
  stays_bind; [stays|]. intros arr. stays.
Qed.

Lemma stays_put_output_imgs self (l : list obj) it : respects stays_put (_output_imgs self l it).
Proof.
  induction l as [|o l IH]; cbn [Qpwrap._output_imgs]; [stays|].
  stays_bind; [apply stays_put_output_img|]. intros o'.
  stays_bind; [apply IH|]. intros os. stays.
Qed.

(** The tail that the wrappers with a single output share. *)
Lemma stays_put_single_output self it (r : obj) :
  respects stays_put
    ('(imgs, _) ←$ unpack2 r ;; img0 ←$ first imgs ;; _output_img self img0 it).
Proof.
  stays_bind; [apply stays_put_unpack2|]. intros [imgs files0].
  stays_bind; [apply stays_put_first|]. intros img0. apply stays_put_output_img.
Qed.

Lemma stays_put_bet self img kwargs : respects stays_put (bet self img kwargs).
Proof.
  unfold Qpwrap.bet. stays_bind; [apply stays_put_input_img|]. intros [i it].
  destruct (_get_std self i "_bet" kwargs) as [out args0].
  stays_bind; [apply stays_put_run|]. intros r.
  stays_bind; [apply stays_put_unpack2|]. intros [imgs files0].
  stays_bind; [apply stays_put_iter|]. intros imgs1.
  stays_bind; [apply stays_put_output_imgs|]. intros [|x [|y l]]; stays.
Qed.

Lemma stays_put_fast self img kwargs : respects stays_put (fast self img kwargs).
Proof.
  unfold Qpwrap.fast. stays_bind; [apply stays_put_input_img|]. intros [i it].
  destruct (_get_std self i "_fast" kwargs) as [out args0].
  stays_bind; [apply stays_put_run|]. intros r. apply stays_put_single_output.
Qed.

Lemma stays_put_mcflirt self img cost ref kwargs :
  respects stays_put (mcflirt self img cost ref kwargs).
Proof.
  unfold Qpwrap.mcflirt. stays_bind; [apply stays_put_input_img|]. intros [i it].
  destruct (_get_std self i "_mc" kwargs) as [out args0].
  stays_bind.
  { destruct ref as [ref|]; [|stays]. stays_bind; [apply stays_put_input_img|].
    intros [r it']. stays. }
  intros args1. stays_bind; [apply stays_put_run|]. intros r.
  apply stays_put_single_output.
Qed.

Lemma stays_put_fabber self model_group img mask options overwrite kwargs :
  respects stays_put (fabber self model_group img mask options overwrite kwargs).
Proof.
  unfold Qpwrap.fabber. stays_bind; [apply stays_put_input_img|]. intros [i it].
  stays_bind; [apply stays_put_input_img|]. intros [m it'].
  destruct (_get_std self i "_fabber" kwargs) as [out args0].
  stays_bind; [apply stays_put_run|]. intros r. apply stays_put_single_output.
Qed.

Lemma stays_put_flirt self img ref kwargs : respects stays_put (flirt self img ref kwargs).
Proof.
  unfold Qpwrap.flirt. stays_bind; [apply stays_put_input_img|]. intros [i it].
  stays_bind; [apply stays_put_input_img|]. intros [r it'].
  destruct (_get_std self i "_reg" kwargs) as [out args0].
  destruct (_ || _); cbn beta iota zeta.
  all: stays_bind; [apply stays_put_run|]; intros r0.
  all: stays_bind; [apply stays_put_unpack2|]; intros [imgs files0].
  all: stays_bind; [apply stays_put_first|]; intros img0.
  all: stays_bind; [apply stays_put_output_img|]; intros out1.
  all: stays_bind;
    [destruct (output_mat kwargs); [|stays];
     stays_bind; [apply stays_put_getitem|]; intros t;
     stays_bind; [stays|]; intros m; stays|].
  all: intros ret1; stays_bind;
    [destruct (output_invmat kwargs); [|stays];
     stays_bind; [apply stays_put_getitem|]; intros t;
     stays_bind; [stays|]; intros m; stays_bind; [stays|]; intros inv;
     stays_bind; [apply stays_put_add_text|]; intros _; stays|].
  all: intros [|x [|y l]]; stays.
Qed.

Lemma stays_put_apply_xfm self img ref xfm kwargs :
  respects stays_put (apply_xfm self img ref xfm kwargs).
Proof.
  unfold Qpwrap.apply_xfm. stays_bind; [apply stays_put_input_img|]. intros [i it].
  stays_bind; [apply stays_put_input_matrix|]. intros [x it'].
  destruct (_get_std self i "_reg" kwargs) as [out args0].
  stays_bind; [destruct ref; stays|]. intros ref_iname.
  destruct (leftover kwargs); [stays|].
  stays_bind; [apply stays_put_run|]. intros r. apply stays_put_single_output.
Qed.

Lemma stays_put_maths self img pargs kwargs :
  respects stays_put (maths self img pargs kwargs).
Proof.
  unfold Qpwrap.maths. stays_bind; [apply stays_put_input_img|]. intros [i it].
  destruct (_get_std (echoing self) i "_maths" kwargs) as [out args0].
  stays_bind; [apply stays_put_run|]. intros r. apply stays_put_single_output.
Qed.

(** X24: Every tool wrapper leaves the current directory of the process
    as it found it, whether it returns or raises, in a world whose current
    directory exists. *)
Theorem wrappers_restore_the_current_directory (self : Workspace) (w : World) :
  cwd w ∈ dirs w →
  (∀ img kwargs, cwd (bet self img kwargs w).2 = cwd w) ∧
  (∀ img kwargs, cwd (fast self img kwargs w).2 = cwd w) ∧
  (∀ img ref kwargs, cwd (flirt self img ref kwargs w).2 = cwd w) ∧
  (∀ img cost ref kwargs, cwd (mcflirt self img cost ref kwargs w).2 = cwd w) ∧
  (∀ model_group img mask options overwrite kwargs,
     cwd (fabber self model_group img mask options overwrite kwargs w).2 = cwd w) ∧
  (∀ img ref xfm kwargs, cwd (apply_xfm self img ref xfm kwargs w).2 = cwd w) ∧
  (∀ img pargs kwargs, cwd (maths self img pargs kwargs w).2 = cwd w).
Proof.
  intros Hcwd. repeat split; intros.
  - by apply stays_put_bet.
  - by apply stays_put_fast.
  - by apply stays_put_flirt.
  - by apply stays_put_mcflirt.
  - by apply stays_put_fabber.
  - by apply stays_put_apply_xfm.
  - by apply stays_put_maths.
Qed.

End WrappersStayPut.

(** *** The theorems at the example inputs *)

Lemma demo_cwd_exists : cwd demo_world ∈ dirs demo_world.
Proof. apply elem_of_union_l, elem_of_singleton. reflexivity. Qed.

Lemma demo_workdir_exists : "/tmp/fsl" ∈ dirs demo_world.
Proof. apply elem_of_union_r, elem_of_singleton. reflexivity. Qed.

Lemma C1_returned_files_witness :
  (ab_run quiet_workspace "touch" (args_str "b") [] ab_world).1
    = Py.Ok (Tuple [List []; Dict {["b" := "1 0 0 1"]}]) ∧
  (ab_run quiet_workspace "touch" (args_str "b") [Some "a"] ab_world).1
    = Py.Ok (Tuple [List []; Dict {["a" := "1 0 0 1"]}]) ∧
  (∃ names wl,
     names = ["b"] ∧
     (Tuple [List []; Dict {["b" := "1 0 0 1"]}] : obj (list Z) Z)
       = Tuple [List (Img <$> omap (λ f, as_image demo_Image f wl) names);
                Dict (add_texts demo_Image demo_read_file ∅ names wl)]) ∧
  (∃ names wl,
     names = ["a"] ∧
     (Tuple [List []; Dict {["a" := "1 0 0 1"]}] : obj (list Z) Z)
       = Tuple [List (Img <$> omap (λ f, as_image demo_Image f wl) names);
                Dict (add_texts demo_Image demo_read_file ∅ names wl)]).
Proof.
  assert (ab_run quiet_workspace "touch" (args_str "b") [] ab_world
          = (Py.Ok (Tuple [List []; Dict {["b" := "1 0 0 1"]}]),
             (ab_run quiet_workspace "touch" (args_str "b") [] ab_world).2)) as Hrun1
    by (vm_compute; reflexivity).
  assert (ab_run quiet_workspace "touch" (args_str "b") [Some "a"] ab_world
          = (Py.Ok (Tuple [List []; Dict {["a" := "1 0 0 1"]}]),
             (ab_run quiet_workspace "touch" (args_str "b") [Some "a"] ab_world).2))
    as Hrun2 by (vm_compute; reflexivity).
  split; [by rewrite Hrun1|]. split; [by rewrite Hrun2|]. split.
  - pose proof (C1_returned_files (list Z) Z String.prefix String.words (λ _, false)
                  touch_b demo_Image demo_read_file quiet_workspace "touch"
                  (args_str "b") [] ab_world _ _ Hrun1) as H.
    cbv zeta in H.
    destruct H as (post & output & names & wl & Hf0 & Hp & _ & _ & _ & _ & _ & Hr & Hex).
    assert (post = <["b" := 2%Z]> {["a" := 1%Z]}) as Hpost
      by (unfold touch_b in Hp; by injection Hp as <- _).
    exists names, wl. split; [|exact Hr].
    exact (proj1 (Hex 1%Z 2%Z eq_refl Hpost) eq_refl).
  - pose proof (C1_returned_files (list Z) Z String.prefix String.words (λ _, false)
                  touch_b demo_Image demo_read_file quiet_workspace "touch"
                  (args_str "b") [Some "a"] ab_world _ _ Hrun2) as H.
    cbv zeta in H.
    destruct H as (post & output & names & wl & Hf0 & Hp & _ & _ & _ & _ & _ & Hr & Hex).
    assert (post = <["b" := 2%Z]> {["a" := 1%Z]}) as Hpost
      by (unfold touch_b in Hp; by injection Hp as <- _).
    exists names, wl. split; [|exact Hr].
    exact (proj2 (Hex 1%Z 2%Z eq_refl Hpost) "a" eq_refl eq_refl eq_refl).
Defined.

Lemma run_needs_its_directory_witness :
  tools_run lost_workspace "flirt" flirt_args [] demo_world
    = (Py.Raise (Py.OSError "/tmp/gone"), demo_world).
Proof.
  apply (run_needs_its_directory (list Z) Z String.prefix String.words (λ _, false)
           demo_tools demo_Image demo_read_file lost_workspace "flirt" flirt_args []
           demo_world).
  - apply elem_of_union_l, elem_of_singleton. reflexivity.
  - intros [H|H]%elem_of_union; apply elem_of_singleton in H; discriminate H.
Defined.

Lemma run_failed_command_witness :
  (tools_run demo_workspace "false" (args_str "") [] demo_world).1
    = Py.Raise (Py.RuntimeError "Command 'false ': Non-zero output status: 1") ∧
  files (tools_run demo_workspace "false" (args_str "") [] demo_world).2 !! "core"
    = Some 2%Z ∧
  log (tools_run demo_workspace "false" (args_str "") [] demo_world).2
    = ["false "; nl; "oops"].
Proof.
  assert (cwd demo_world ∈ dirs demo_world) as Hcwd
    by (apply elem_of_union_l, elem_of_singleton; reflexivity).
  assert (workdir demo_workspace ∈ dirs demo_world) as Hwd
    by (apply elem_of_union_r, elem_of_singleton; reflexivity).
  unfold tools_run.
  rewrite (proj2 (run_failed_command (list Z) Z String.prefix String.words (λ _, false)
                    demo_tools demo_Image demo_read_file demo_workspace "false"
                    (args_str "") [] demo_world Hcwd Hwd)
             1%Z (<["core" := 2%Z]> (files demo_world)) ["oops"]).
  - split; [vm_compute; reflexivity|]. split; vm_compute; reflexivity.
  - vm_compute. reflexivity.
  - discriminate.
Defined.


Lemma unreadable_output_is_an_error_witness :
  classify demo_Image demo_read_file demo_workspace
    (["T1.nii.gz"] ++ "ghost.txt" :: ["ref.nii.gz"]) [] ∅ demo_world
  = (Py.Raise (Py.IOError "ghost.txt"),
     set_log (log demo_world ++ ["WARNING: Could not handle output file " +:+ "ghost.txt"
                                 +:+ nl]) demo_world).
Proof.
  apply (unreadable_output_is_an_error demo_Image demo_read_file demo_workspace
           ["T1.nii.gz"] ["ref.nii.gz"] "ghost.txt" [] ∅ demo_world
           (Py.IOError "ghost.txt") (Py.IOError "ghost.txt")).
  - constructor; [|constructor]. left. eexists. vm_compute. reflexivity.
  - vm_compute. reflexivity.
  - vm_compute. reflexivity.
Defined.

Lemma find_takes_the_first_executable_witness :
  _find fsl_only quiet_workspace "flirt" = "/usr/local/fsl/bin/flirt" ∧
  _find fsl_only quiet_workspace "fast" = "fast".
Proof.
  split.
  - apply (proj1 (find_takes_the_first_executable fsl_only quiet_workspace "flirt")
             ["/opt/local/bin"] "/usr/local/fsl/bin" []);
      [reflexivity|by repeat constructor|reflexivity].
  - apply (proj1 (proj2 (find_takes_the_first_executable fsl_only quiet_workspace "fast"))).
    by repeat constructor.
Defined.

Lemma returned_once_per_matching_pattern_witness :
  ∃ names,
    return_files String.prefix demo_workspace (files demo_world) bet_outputs
      (Some <$> bet_patterns) demo_world = (Py.Ok names, demo_world) ∧
    occurrences "T1_bet.nii.gz" names = 1 ∧
    occurrences "T1_bet_mask.nii.gz" names = 2.
Proof.
  destruct (proj2 (returned_once_per_matching_pattern String.prefix demo_workspace
                     (files demo_world) bet_outputs demo_world) bet_patterns)
    as (names & Hnames & Hocc); [discriminate|].
  exists names. split; [exact Hnames|].
  rewrite !Hocc. split; vm_compute; reflexivity.
Defined.

Lemma text_to_matrix_accepts_exactly_witness :
  text_to_matrix Z int_of_text commented_text = Py.Ok [[1; 0]; [0; 1]]%Z ∧
  length [[1; 0]; [0; 1]]%Z = length (text_rows commented_text).
Proof.
  assert (text_to_matrix Z int_of_text commented_text = Py.Ok [[1; 0]; [0; 1]]%Z) as Hm
    by (vm_compute; reflexivity).
  split; [exact Hm|].
  exact (proj1 (proj2 (text_to_matrix_accepts_exactly Z int_of_text commented_text)) _ Hm).
Defined.

Lemma single_output_wrappers_mirror_the_input_witness :
  tools_fast demo_workspace (Str "T1") no_kwargs demo_world
    = (Py.Ok (Str "T1_fast_seg.nii.gz"),
       (tools_fast demo_workspace (Str "T1") no_kwargs demo_world).2) ∧
  ∃ i f,
    String.prefix "T1_fast_seg" f = true ∧
    is_Some (files (tools_fast demo_workspace (Str "T1") no_kwargs demo_world).2 !! f) ∧
    demo_Image f (set_cwd "/tmp/fsl"
                    (tools_fast demo_workspace (Str "T1") no_kwargs demo_world).2)
      = Py.Ok i ∧
    handed_back demo_Image_data (Str "T1") (Str "T1_fast_seg.nii.gz" : obj (list Z) Z) i
      (tools_fast demo_workspace (Str "T1") no_kwargs demo_world).2.
Proof.
  assert (tools_fast demo_workspace (Str "T1") no_kwargs demo_world
          = (Py.Ok (Str "T1_fast_seg.nii.gz"),
             (tools_fast demo_workspace (Str "T1") no_kwargs demo_world).2)) as Hrun
    by (vm_compute; reflexivity).
  split; [exact Hrun|].
  destruct (proj1 (single_output_wrappers_mirror_the_input (list Z) Z String.prefix
                     String.words (λ _, false) demo_tools demo_Image demo_Image_save
                     demo_Image_data demo_NamedTemporaryFile demo_read_file demo_workspace)
              _ _ _ _ _ Hrun) as (i0 & it & w1 & i & f & Hin & Hpat & Hfile & Himg & Hback).
  assert (i0 = demo_image "T1") as ->
    by (vm_compute in Hin; by injection Hin as <- _ _).
  exists i, f. exact (conj Hpat (conj Hfile (conj Himg Hback))).
Defined.

Lemma flirt_inverse_needs_the_matrix_witness :
  ∃ e, (tools_flirt demo_workspace (Img (demo_image "T1")) (Img (demo_image "ref"))
          with_invmat_only demo_world).1 = Py.Raise e.
Proof.
  apply (flirt_inverse_needs_the_matrix (list Z) Z int_of_text text_of_int (λ m, Py.Ok m)
           String.prefix String.words (λ _, false) demo_tools (λ _, 3%Z)
           demo_Image demo_Image_save demo_Image_data demo_NamedTemporaryFile demo_read_file
           demo_workspace (Img (demo_image "T1")) (Img (demo_image "ref"))
           with_invmat_only demo_world).
  - reflexivity.
  - by eexists.
Defined.

Lemma flirt_returns_the_matrices_witness :
  ∃ w3 i f g x t m,
    demo_Image f (set_cwd "/tmp/fsl" w3) = Py.Ok i ∧
    handed_back demo_Image_data (Img (demo_image "T1")) x i w3 ∧
    basename g = "reg.mat" ∧
    demo_read_file g (set_cwd "/tmp/fsl" w3) = Py.Ok t ∧
    text_to_matrix Z int_of_text (list_ascii_of_string t) = Py.Ok m ∧
    (Tuple [Img (demo_image "T1_reg"); Matrix [[1; 0; 0; 1]]%Z] : obj (list Z) Z)
      = Tuple [x; Matrix m].
Proof.
  assert (tools_flirt demo_workspace (Img (demo_image "T1")) (Img (demo_image "ref"))
            with_mat demo_world
          = (Py.Ok (Tuple [Img (demo_image "T1_reg"); Matrix [[1; 0; 0; 1]]%Z]),
             (tools_flirt demo_workspace (Img (demo_image "T1")) (Img (demo_image "ref"))
                with_mat demo_world).2)) as Hrun
    by (vm_compute; reflexivity).
  pose proof (flirt_returns_the_matrices (list Z) Z int_of_text text_of_int
                (λ m, Py.Ok m) String.prefix String.words (λ _, false) demo_tools
                (λ _, 3%Z) demo_Image demo_Image_save demo_Image_data
                demo_NamedTemporaryFile demo_read_file demo_workspace
                (Img (demo_image "T1")) (Img (demo_image "ref")) with_mat "reg.mat"
                demo_world _ _ eq_refl Hrun) as H.
  cbv zeta in H.
  destruct H as (i0 & it & w1 & w3 & i & f & g & x & t & m & _ & _ & _ & Himg & Hback
                 & Hbase & _ & _ & Hread & Hm & Hr).
  change (output_invmat with_mat) with (@None string) in Hr. cbn iota in Hr.
  destruct Hr as [Hr _].
  exists w3, i, f, g, x, t, m.
  exact (conj Himg (conj Hback (conj Hbase (conj Hread (conj Hm Hr))))).
Defined.

Lemma apply_xfm_takes_an_image_reference_witness :
  tools_apply_xfm demo_workspace (Img (demo_image "T1")) (Img (demo_image "ref"))
    (Str "reg.mat") no_kwargs demo_world
    = (Py.Ok (Img (demo_image "T1_reg")),
       (tools_apply_xfm demo_workspace (Img (demo_image "T1")) (Img (demo_image "ref"))
          (Str "reg.mat") no_kwargs demo_world).2) ∧
  (∃ i, (Img (demo_image "ref") : obj (list Z) Z) = Img i) ∧
  leftover no_kwargs = false ∧
  ∃ f,
    is_Some (files (tools_apply_xfm demo_workspace (Img (demo_image "T1"))
                      (Img (demo_image "ref")) (Str "reg.mat") no_kwargs demo_world).2
             !! f) ∧
    demo_Image f (set_cwd "/tmp/fsl"
                    (tools_apply_xfm demo_workspace (Img (demo_image "T1"))
                       (Img (demo_image "ref")) (Str "reg.mat") no_kwargs demo_world).2)
      = Py.Ok (demo_image "T1_reg").
Proof.
  assert (tools_apply_xfm demo_workspace (Img (demo_image "T1")) (Img (demo_image "ref"))
            (Str "reg.mat") no_kwargs demo_world
          = (Py.Ok (Img (demo_image "T1_reg")),
             (tools_apply_xfm demo_workspace (Img (demo_image "T1"))
                (Img (demo_image "ref")) (Str "reg.mat") no_kwargs demo_world).2)) as Hrun
    by (vm_compute; reflexivity).
  split; [exact Hrun|].
  destruct (apply_xfm_takes_an_image_reference (list Z) Z text_of_int (λ _, [])
              String.prefix String.words (λ _, false) demo_tools (λ _, 3%Z)
              demo_Image demo_Image_save demo_Image_data demo_NamedTemporaryFile
              demo_read_file _ _ _ _ _ _ _ _ Hrun)
    as (Href & Hleft & i0 & it & w1 & i & f & _ & _ & Hfile & Himg & Hback).
  split; [exact Href|]. split; [exact Hleft|].
  exists f. split; [exact Hfile|]. cbn [handed_back] in Hback.
  injection Hback as ->. exact Himg.
Defined.

Lemma maths_always_echoes_witness :
  ∃ l, log (tools_maths quiet_workspace (Img (demo_image "T1")) ["-mul 2"] no_kwargs
              demo_world).2
       = log demo_world ++ ["fslmaths T1  T1_maths"; nl] ++ l.
Proof.
  apply (proj1 (maths_always_echoes (list Z) Z String.prefix String.words (λ _, false)
                  demo_tools demo_Image demo_Image_save demo_Image_data
                  demo_NamedTemporaryFile demo_read_file quiet_workspace
                  (Img (demo_image "T1")) ["-mul 2"] no_kwargs demo_world demo_world
                  (demo_image "T1") IMAGE demo_cwd_exists demo_workdir_exists eq_refl)).
Defined.

Lemma fabber_always_passes_its_own_settings_witness :
  ∃ pre post,
    option_args (fabber_options (demo_image "asldata") (demo_image "mask") "asldata_fabber"
                   true (<["save-mvn" := Py.Bool false]> (<["output" := Py.Str "mine"]> ∅)))
    = pre +:+ (" --output=" +:+ "asldata_fabber") +:+ post.
Proof.
  apply (proj1 (proj2 (fabber_always_passes_its_own_settings
                         (demo_image "asldata") (demo_image "mask") "asldata_fabber" true
                         (<["save-mvn" := Py.Bool false]> (<["output" := Py.Str "mine"]> ∅))))).
  discriminate.
Defined.

Lemma wrappers_restore_the_current_directory_witness :
  cwd (tools_flirt demo_workspace (Img (demo_image "T1")) (Img (demo_image "ref"))
         with_mat demo_world).2 = cwd demo_world ∧
  cwd (tools_fast lost_workspace (Str "T1") no_kwargs demo_world).2 = cwd demo_world.
Proof.
  split.
  - exact (proj1 (proj2 (proj2
      (wrappers_restore_the_current_directory (list Z) Z int_of_text text_of_int
         (λ _, []) (λ m, Py.Ok m) String.prefix String.words (λ _, false) demo_tools
         (λ _, 3%Z) demo_Image demo_Image_save demo_Image_data demo_NamedTemporaryFile
         demo_read_file demo_workspace demo_world demo_cwd_exists)))
      (Img (demo_image "T1")) (Img (demo_image "ref")) with_mat).
  - exact (proj1 (proj2
      (wrappers_restore_the_current_directory (list Z) Z int_of_text text_of_int
         (λ _, []) (λ m, Py.Ok m) String.prefix String.words (λ _, false) demo_tools
         (λ _, 3%Z) demo_Image demo_Image_save demo_Image_data demo_NamedTemporaryFile
         demo_read_file lost_workspace demo_world demo_cwd_exists))
      (Str "T1") no_kwargs).
Defined.

End QpwrapProofs.

(** ** The step sequencer: proofs *)

Module ProcessProofs.
Import Process.

Lemma fabber_options_final (s : Step) :
  Forall (λ k, fabber_options true s !! k = Some (Py.Str "")) summary_keys.
Proof.
  unfold fabber_options, summary_keys.
  destruct (prev_step s); repeat constructor; by simplify_map_eq.
Qed.

Lemma fabber_options_nonfinal (s : Step) :
  fabber_options false s !! "save-mvn" = Some (Py.Str "") ∧
  Forall (λ k, fabber_options false s !! k = options s !! k) summary_keys.
Proof.
  unfold fabber_options, summary_keys.
  destruct (prev_step s); split; repeat constructor; by simplify_map_eq.
Qed.

Lemma dispatch_list_lookup n k rest i o :
  dispatch_list n k rest !! i = Some o →
  ∃ s, rest !! i = Some s ∧ o = fabber_options (bool_decide (S (k + i) = n)) s.
Proof.
  revert k i. induction rest as [|s rest IH]; intros k i H; [done|].
  destruct i as [|i]; simpl in *.
  - injection H as <-. exists s. by rewrite Nat.add_0_r.
  - apply IH in H as (s' & Hs' & ->). exists s'. split; [done|].
    by rewrite Nat.add_succ_r.
Qed.

Lemma dispatch_list_length n k rest : length (dispatch_list n k rest) = length rest.
Proof. revert k. induction rest; intros k; simpl; [done|]. by rewrite IHrest. Qed.

Lemma dispatched_app out1 out2 : dispatched (out1 ++ out2) = dispatched out1 ++ dispatched out2.
Proof. unfold dispatched. apply omap_app. Qed.

(** The last step has succeeded: [_next_step] closes the run. *)
Lemma _next_step_complete self :
  status self = RUNNING → length (steps self) ≤ step_num self →
  ∃ self',
    _next_step self =
      (self', (if decide ("finalMVN" ∈ ivm_data self)
               then [ivm_delete_data "finalMVN"] else [])
              ++ [sig_finished SUCCEEDED (log self +:+ ("COMPLETE" +:+ nl)) (exception self)]) ∧
    status self' = SUCCEEDED ∧ ("finalMVN" ∉ ivm_data self') ∧
    ivm_data self' = ivm_data self ∖ {["finalMVN"]}.
Proof.
  intros Hrun Hlen. unfold _next_step.
  rewrite decide_False by (rewrite Hrun; intros H; by apply H).
  rewrite (lookup_ge_None_2 _ _ Hlen). simpl.
  destruct (decide ("finalMVN" ∈ ivm_data self)) as [Hin|Hout]; simpl.
  - eexists. split; [reflexivity|]. simpl. split; [done|]. split; [|done].
    rewrite elem_of_difference, elem_of_singleton. tauto.
  - eexists. split; [reflexivity|]. simpl. split; [done|]. split; [done|].
    apply set_eq. intros x. rewrite elem_of_difference, elem_of_singleton.
    split; [|tauto]. intros Hx. split; [done|]. by intros ->.
Qed.

(** Starting the next step while steps remain. *)
Lemma _next_step_start self s :
  status self = RUNNING → steps self !! step_num self = Some s →
  _next_step self =
    (set_log (log self +:+ (match prev_step s with
                            | Some p => step_desc s +:+ " - init with STEP " +:+ pretty p
                            | None => step_desc s
                            end) +:+ nl +:+ nl)
       (set_step_num (S (step_num self)) self),
     [sig_step (step_desc s);
      fabber_execute (fabber_options (bool_decide (S (step_num self) = length (steps self))) s)]).
Proof.
  intros Hrun Hs. unfold _next_step.
  rewrite decide_False by (rewrite Hrun; intros H; by apply H).
  by rewrite Hs.
Qed.

Lemma deliver_running evs : ∀ self,
  status self = RUNNING →
  step_num self ≤ length (steps self) →
  completesb (S (length (steps self) - step_num self)) evs = true →
  ∃ self' pre lg exc,
    deliver self evs = (self', pre ++ [sig_finished SUCCEEDED lg exc]) ∧
    dispatched pre =
      dispatch_list (length (steps self)) (step_num self)
                    (drop (step_num self) (steps self)) ∧
    (∀ st l e, sig_finished st l e ∉ pre) ∧
    status self' = SUCCEEDED ∧ ("finalMVN" ∉ ivm_data self').
Proof.
  induction evs as [|ev evs IH]; intros self Hrun Hle Hc; [done|].
  destruct ev as [st lg exc|c|name]; simpl in Hc.
  - (* a step has finished *)
    apply andb_prop in Hc as [Hst Hc]. apply bool_decide_eq_true in Hst as ->.
    simpl. unfold _fabber_finished.
    rewrite decide_False by (rewrite Hrun; intros H; by apply H).
    rewrite decide_True by done.
    set (self0 := set_log _ self).
    destruct (steps self !! step_num self) as [s|] eqn:Hs.
    + rewrite (_next_step_start self0 s) by done.
      set (self1 := set_log _ _).
      pose proof (lookup_lt_Some _ _ _ Hs) as Hlt.
      destruct (IH self1) as (self' & pre & lg' & exc' & Hd & Hdisp & Hnf & Hst & Hmvn).
      * done.
      * simpl. lia.
      * simpl. replace (S (length (steps self) - S (step_num self)))
          with (length (steps self) - step_num self) by lia. done.
      * rewrite Hd. exists self', ([sig_step (step_desc s);
          fabber_execute (fabber_options (bool_decide (S (step_num self) = length (steps self))) s)] ++ pre), lg', exc'.
        split; [done|]. split; [|split; [|done]].
        -- rewrite dispatched_app, Hdisp. simpl.
           rewrite (drop_S _ _ _ Hs). done.
        -- intros st l e Hin. apply elem_of_app in Hin as [Hin|Hin].
           ++ apply elem_of_cons in Hin as [?|Hin]; [done|].
              apply elem_of_cons in Hin as [?|Hin]; [done|].
              by apply elem_of_nil in Hin.
           ++ by apply Hnf in Hin.
    + apply lookup_ge_None_1 in Hs.
      destruct (_next_step_complete self0) as (self' & Hn & Hst & Hmvn & _); [done|done|].
      rewrite Hn. replace (length (steps self) - step_num self) with 0 in Hc by lia.
      destruct evs; [|destruct e; done]. simpl.
      eexists self', _, _, _. rewrite app_nil_r. split; [reflexivity|].
      split; [|split; [|done]].
      * rewrite drop_ge by done. by destruct (decide _).
      * intros st l e Hin. destruct (decide _).
        -- apply elem_of_cons in Hin as [?|Hin]; [done|]. by apply elem_of_nil in Hin.
        -- by apply elem_of_nil in Hin.
  - (* progress *)
    destruct (IH self) as (self' & pre & lg' & exc' & Hd & Hdisp & Hnf & Hst & Hmvn); [done..|].
    assert (∃ e, _fabber_progress self c = (self, [e]) ∧ dispatched [e] = [] ∧
                 ∀ st l x, e ≠ sig_finished st l x)
      as (e & He & Hde & Hne).
    { unfold _fabber_progress. rewrite decide_True by done.
      destruct (steps self); eexists; (split; [reflexivity|done]). }
    cbn [deliver handle]. rewrite He, Hd.
    exists self', (e :: pre), lg', exc'. split; [done|].
    split; [by change (e :: pre) with ([e] ++ pre); rewrite dispatched_app, Hde|].
    split; [|done].
    intros st l x Hin. apply elem_of_cons in Hin as [Heq|Hin].
    + by eapply Hne.
    + by eapply Hnf.
  - (* the fitting process stores a data set *)
    destruct (IH (set_ivm_data ({[name]} ∪ ivm_data self) self))
      as (self' & pre & lg' & exc' & Hd & Hdisp & Hnf & Hst & Hmvn); [done..|].
    cbn [deliver handle]. rewrite Hd. by exists self', pre, lg', exc'.
Qed.

Lemma deliver_not_running self evs :
  status self ≠ RUNNING → forallb is_callback evs = true → deliver self evs = (self, []).
Proof.
  intros Hst. induction evs as [|ev evs IH]; intros Hcb; [done|].
  simpl in Hcb. apply andb_prop in Hcb as [Hev Hcb].
  destruct ev as [st lg exc|c|name]; [| |done]; cbn [deliver handle].
  - unfold _fabber_finished. rewrite decide_True by done. by rewrite IH.
  - unfold _fabber_progress. rewrite decide_False by done. by rewrite IH.
Qed.

(** C4: once the status is anything but RUNNING, a step-completion callback
    and a progress callback (and any sequence of them) leave the process
    record unchanged (status, log, step counter) and emit nothing; a
    progress signal is emitted only by a process whose status is RUNNING. *)
Theorem C4_terminal_status_is_sticky (self : BasilProcess) :
  (status self ≠ RUNNING →
     (∀ st lg exc, _fabber_finished self st lg exc = (self, [])) ∧
     (∀ c, _fabber_progress self c = (self, [])) ∧
     (∀ evs, forallb is_callback evs = true → deliver self evs = (self, []))) ∧
  (∀ c f, sig_progress f ∈ (_fabber_progress self c).2 → status self = RUNNING).
Proof.
  split.
  - intros Hst. split; [|split].
    + intros st lg exc. unfold _fabber_finished. by rewrite decide_True.
    + intros c. unfold _fabber_progress. by rewrite decide_False.
    + intros evs. by apply deliver_not_running.
  - intros c f. unfold _fabber_progress.
    destruct (decide (status self = RUNNING)) as [|Hst]; [done|].
    simpl. intros Hin. by apply elem_of_nil in Hin.
Qed.

Lemma C4_terminal_status_is_sticky_witness :
  deliver failed_process
    [progress (1 # 2); finished SUCCEEDED "late" None; progress 1] = (failed_process, []).
Proof.
  apply (proj1 (C4_terminal_status_is_sticky failed_process)); [done|reflexivity].
Defined.

Lemma deliver_not_running_dispatch self evs :
  status self ≠ RUNNING → dispatched (deliver self evs).2 = [].
Proof.
  revert self. induction evs as [|ev evs IH]; intros self Hst; [done|].
  destruct ev as [st lg exc|c|name]; cbn [deliver handle].
  - unfold _fabber_finished. rewrite decide_True by done.
    specialize (IH self Hst). by destruct (deliver self evs).
  - unfold _fabber_progress. rewrite decide_False by done.
    specialize (IH self Hst). by destruct (deliver self evs).
  - specialize (IH (set_ivm_data ({[name]} ∪ ivm_data self) self) Hst).
    by destruct (deliver _ evs).
Qed.

Lemma deliver_cons_effects self ev evs :
  (deliver self (ev :: evs)).2 = (handle self ev).2 ++ (deliver (handle self ev).1 evs).2.
Proof.
  cbn [deliver]. destruct (handle self ev) as [self1 out1]. cbn [fst snd].
  by destruct (deliver self1 evs) as [self2 out2].
Qed.

(** Whatever arrives, the option sets dispatched from a given state on are
    those of the steps that follow, in order. *)
Lemma deliver_dispatched evs : ∀ self,
  ∃ k, dispatched (deliver self evs).2 =
         dispatch_list (length (steps self)) (step_num self)
                       (take k (drop (step_num self) (steps self))).
Proof.
  induction evs as [|ev evs IH]; intros self; [exists 0; by rewrite take_0|].
  rewrite deliver_cons_effects, dispatched_app.
  assert (dispatched (handle self ev).2 = [] →
          steps (handle self ev).1 = steps self →
          step_num (handle self ev).1 = step_num self →
          ∃ k, dispatched (handle self ev).2 ++ dispatched (deliver (handle self ev).1 evs).2 =
                 dispatch_list (length (steps self)) (step_num self)
                               (take k (drop (step_num self) (steps self)))) as Hsame.
  { intros Hout Hsteps Hnum. destruct (IH (handle self ev).1) as [k Hk]. exists k.
    by rewrite Hout, Hk, Hsteps, Hnum. }
  destruct ev as [st lg exc|c|name].
  - cbn [handle] in *. unfold _fabber_finished in *.
    destruct (decide (status self ≠ RUNNING)) as [Hst|Hst]; [by apply Hsame|].
    apply dec_stable in Hst.
    destruct (decide (st = SUCCEEDED)) as [->|Hfail]; [|by apply Hsame].
    set (self0 := set_log _ self) in *.
    destruct (steps self !! step_num self) as [s|] eqn:Hs.
    + rewrite (_next_step_start self0 s) by done. cbn [fst snd].
      set (self1 := set_log _ _). destruct (IH self1) as [k Hk]. exists (S k).
      rewrite Hk. rewrite (drop_S _ _ _ Hs). done.
    + apply lookup_ge_None_1 in Hs.
      destruct (_next_step_complete self0) as (self' & Hn & Hst' & _ & _); [done|done|].
      rewrite Hn. cbn [fst snd]. exists 0.
      rewrite (deliver_not_running_dispatch self' evs) by (rewrite Hst'; done).
      rewrite app_nil_r, take_0. by destruct (decide _).
  - assert ((handle self (progress c)).1 = self ∧
            dispatched (handle self (progress c)).2 = []) as [Hp1 Hp2].
    { cbn [handle]. unfold _fabber_progress.
      destruct (decide _); [|done]. by destruct (steps self). }
    apply Hsame; [done|by rewrite Hp1..].
  - by apply Hsame.
Qed.




(** The run above, evaluated: what is dispatched and emitted, in order. *)
Example two_steps_run :
  let '(self1, out1) := run_steps idle_process two_steps "BASIL" in
  let '(self2, out2) := deliver self1 both_succeed in
  (λ o, (o !! "save-mvn", o !! "save-mean", o !! "continue-from-mvn")) <$> dispatched (out1 ++ out2)
    = [(Some (Py.Str ""), None, None);
       (None, Some (Py.Str ""), Some (Py.Str "finalMVN"))] ∧
  omap (λ e, match e with
             | fabber_execute _ => None
             | sig_finished st _ _ => Some (sig_finished st "" None)
             | e => Some e
             end) (out1 ++ out2)
    = [sig_step "STEP 1: VB - Tissue"; sig_progress (1 # 4);
       sig_step "STEP 2: Spatial VB - Tissue"; sig_progress (5 # 8);
       ivm_delete_data "finalMVN"; sig_finished SUCCEEDED "" None].
Proof. vm_compute. split; reflexivity. Qed.

(** *** Label durations and inversion times *)

Lemma pretty_N_go_length x s : String.length s ≤ String.length (pretty_N_go x s).
Proof.
  revert s. induction (N.lt_wf_0 x) as [x _ IH]; intros s.
  assert (x = 0 ∨ 0 < x)%N as [->|Hx] by lia; [by rewrite pretty_N_go_0|].
  rewrite pretty_N_go_step by done.
  etrans; [|apply IH; by apply N.div_lt]. simpl. lia.
Qed.

Lemma pretty_nat_nonempty (n : nat) : pretty n ≠ "".
Proof.
  unfold pretty, pretty_nat, pretty, pretty_N.
  destruct (decide (N.of_nat n = 0%N)) as [|Hn]; [done|].
  rewrite pretty_N_go_step by lia. intros Heq.
  pose proof (pretty_N_go_length (N.of_nat n `div` 10)
    (String (pretty_N_char (N.of_nat n `mod` 10)) "")) as Hlen.
  rewrite Heq in Hlen. simpl in Hlen. lia.
Qed.

Lemma tau_key_inj i j : "tau" +:+ pretty (S i) = "tau" +:+ pretty (S j) → i = j.
Proof. intros H. apply (inj (String.append _)) in H. by apply (inj pretty), (inj S) in H. Qed.

Lemma ti_key_inj i j : "ti" +:+ pretty (S i) = "ti" +:+ pretty (S j) → i = j.
Proof. intros H. apply (inj (String.append _)) in H. by apply (inj pretty), (inj S) in H. Qed.

Lemma tau_key_ne_shared i : "tau" ≠ "tau" +:+ pretty (S i).
Proof.
  intros H. apply (inj (String.append "tau") "" (pretty (S i))) in H.
  by apply (pretty_nat_nonempty (S i)).
Qed.

Section TimingProofs.

Variable str : Q → string.

Lemma tau_options_frame idx taus options k :
  (∀ j, idx ≤ j → k ≠ "tau" +:+ pretty (S j)) →
  tau_options str idx taus options !! k = options !! k.
Proof.
  revert idx options. induction taus as [|tau taus IH]; intros idx options Hk; [done|].
  simpl. rewrite IH by (intros j Hj; apply Hk; lia).
  rewrite lookup_insert_ne; [done|]. intros Heq. by apply (Hk idx).
Qed.

Lemma tau_options_lookup idx taus options i tau :
  taus !! i = Some tau →
  tau_options str idx taus options !! ("tau" +:+ pretty (S (idx + i)))
    = Some (Py.Str (str tau)).
Proof.
  revert idx options i. induction taus as [|t taus IH]; intros idx options i Hi; [done|].
  destruct i as [|i]; simpl in Hi.
  - injection Hi as ->. cbn [tau_options]. rewrite Nat.add_0_r.
    rewrite tau_options_frame.
    + by rewrite lookup_insert_eq.
    + intros j Hj Heq. apply tau_key_inj in Heq. lia.
  - cbn [tau_options]. replace (idx + S i) with (S idx + i) by lia. by apply IH.
Qed.

Lemma ti_options_frame casl_taus idx tis options o k :
  ti_options str casl_taus idx tis options = Py.Ok o →
  (∀ j, idx ≤ j → k ≠ "ti" +:+ pretty (S j)) →
  o !! k = options !! k.
Proof.
  revert idx options. induction tis as [|ti tis IH]; intros idx options Ho Hk.
  - by injection Ho as ->.
  - cbn [ti_options] in Ho.
    destruct (match casl_taus with Some _ => _ | None => _ end) as [ti'|]; [|done].
    cbn [Py.bind] in Ho. apply IH in Ho; [|intros j Hj; apply Hk; lia].
    rewrite Ho, lookup_insert_ne; [done|]. intros Heq. by apply (Hk idx).
Qed.

(** The TI loop runs through when labelling is not continuous, or when
    there is a label duration at every index it visits. *)
Lemma ti_options_Ok casl_taus idx tis options :
  match casl_taus with
  | Some taus => idx + length tis ≤ length taus
  | None => True
  end →
  Py.is_Ok (ti_options str casl_taus idx tis options).
Proof.
  revert idx options. induction tis as [|ti tis IH]; intros idx options Hlen.
  - by eexists.
  - cbn [ti_options]. destruct casl_taus as [taus|].
    + simpl in Hlen. unfold index.
      destruct (lookup_lt_is_Some_2 taus idx) as [tau ->]; [lia|].
      cbn [Py.bind]. apply IH. lia.
    + cbn [Py.bind]. by apply IH.
Qed.

Lemma ti_options_lookup casl_taus idx tis options o i ti :
  ti_options str casl_taus idx tis options = Py.Ok o →
  tis !! i = Some ti →
  match casl_taus with
  | Some taus => ∃ tau, taus !! (idx + i) = Some tau ∧
      o !! ("ti" +:+ pretty (S (idx + i))) = Some (Py.Str (str (ti + tau)%Q))
  | None => o !! ("ti" +:+ pretty (S (idx + i))) = Some (Py.Str (str ti))
  end.
Proof.
  revert idx options i. induction tis as [|t tis IH]; intros idx options i Ho Hi; [done|].
  cbn [ti_options] in Ho. destruct i as [|i]; simpl in Hi.
  - injection Hi as ->. rewrite Nat.add_0_r. destruct casl_taus as [taus|].
    + unfold index in Ho. destruct (taus !! idx) as [tau|] eqn:Htau; [|done].
      cbn [Py.bind] in Ho. exists tau. split; [done|].
      rewrite (ti_options_frame _ _ _ _ _ _ Ho); [by rewrite lookup_insert_eq|].
      intros j Hj Heq. apply ti_key_inj in Heq. lia.
    + cbn [Py.bind] in Ho.
      rewrite (ti_options_frame _ _ _ _ _ _ Ho); [by rewrite lookup_insert_eq|].
      intros j Hj Heq. apply ti_key_inj in Heq. lia.
  - replace (idx + S i) with (S idx + i) by lia.
    destruct (match casl_taus with Some _ => _ | None => _ end) as [ti'|]; [|done].
    cbn [Py.bind] in Ho. by eapply IH.
Qed.

Lemma fold_min_spec l x :
  let r := fold_left (λ m y, if negb (Qle_bool m y) then y else m) l x in
  (r <= x)%Q ∧ (∀ t, t ∈ l → (r <= t)%Q) ∧ r ∈ x :: l.
Proof.
  revert x. induction l as [|y l IH]; intros x; simpl.
  - split; [apply Qle_refl|]. split; [by intros t Ht; apply elem_of_nil in Ht|].
    apply list_elem_of_here.
  - destruct (Qle_bool x y) eqn:Hxy; simpl.
    + apply Qle_bool_iff in Hxy. destruct (IH x) as (Hx & Hl & Hin).
      split; [done|]. split.
      * intros t Ht. apply elem_of_cons in Ht as [->|Ht]; [|by apply Hl].
        by eapply Qle_trans.
      * apply elem_of_cons in Hin as [->|Hin]; [apply list_elem_of_here|].
        by do 2 apply list_elem_of_further.
    + assert (y <= x)%Q as Hyx.
      { apply Qlt_le_weak, Qnot_le_lt. intros H. apply Qle_bool_iff in H. congruence. }
      destruct (IH y) as (Hy & Hl & Hin).
      split; [by eapply Qle_trans|]. split.
      * intros t Ht. apply elem_of_cons in Ht as [->|Ht]; [done|by apply Hl].
      * by apply list_elem_of_further.
Qed.

Lemma fold_max_spec l x :
  let r := fold_left (λ m y, if negb (Qle_bool y m) then y else m) l x in
  (x <= r)%Q ∧ (∀ t, t ∈ l → (t <= r)%Q) ∧ r ∈ x :: l.
Proof.
  revert x. induction l as [|y l IH]; intros x; simpl.
  - split; [apply Qle_refl|]. split; [by intros t Ht; apply elem_of_nil in Ht|].
    apply list_elem_of_here.
  - destruct (Qle_bool y x) eqn:Hyx; simpl.
    + apply Qle_bool_iff in Hyx. destruct (IH x) as (Hx & Hl & Hin).
      split; [done|]. split.
      * intros t Ht. apply elem_of_cons in Ht as [->|Ht]; [|by apply Hl].
        by eapply Qle_trans.
      * apply elem_of_cons in Hin as [->|Hin]; [apply list_elem_of_here|].
        by do 2 apply list_elem_of_further.
    + assert (x <= y)%Q as Hxy.
      { apply Qlt_le_weak, Qnot_le_lt. intros H. apply Qle_bool_iff in H. congruence. }
      destruct (IH y) as (Hy & Hl & Hin).
      split; [by eapply Qle_trans|]. split.
      * intros t Ht. apply elem_of_cons in Ht as [->|Ht]; [done|by apply Hl].
      * by apply list_elem_of_further.
Qed.

Lemma py_min_spec l lo :
  py_min l = Py.Ok lo → (∀ t, t ∈ l → (lo <= t)%Q) ∧ lo ∈ l.
Proof.
  destruct l as [|x l]; [done|]. intros [= <-].
  destruct (fold_min_spec l x) as (Hx & Hl & Hin). split; [|done].
  intros t Ht. apply elem_of_cons in Ht as [->|Ht]; [done|by apply Hl].
Qed.

Lemma py_max_spec l hi :
  py_max l = Py.Ok hi → (∀ t, t ∈ l → (t <= hi)%Q) ∧ hi ∈ l.
Proof.
  destruct l as [|x l]; [done|]. intros [= <-].
  destruct (fold_max_spec l x) as (Hx & Hl & Hin). split; [|done].
  intros t Ht. apply elem_of_cons in Ht as [->|Ht]; [done|by apply Hl].
Qed.

Lemma min_eq_max_identical l lo hi :
  py_min l = Py.Ok lo → py_max l = Py.Ok hi →
  Qeq_bool lo hi = true ↔ identical l.
Proof.
  intros Hlo Hhi. apply py_min_spec in Hlo as [Hlo Hlo_in].
  apply py_max_spec in Hhi as [Hhi Hhi_in]. rewrite Qeq_bool_iff. split.
  - intros Heq t u Ht Hu.
    assert (∀ v, v ∈ l → (v == lo)%Q) as Hall.
    { intros v Hv. apply Qle_antisym; [|by apply Hlo].
      rewrite Heq. by apply Hhi. }
    rewrite (Hall t Ht), (Hall u Hu). reflexivity.
  - intros Hid. by apply Hid.
Qed.

(** C5: whenever [run] gets as far as [basil.get_steps], the options it has
    built satisfy: with continuous labelling and numerically identical label
    durations there is the single option [tau = str(taus[0])] and no indexed
    one is written; with differing durations each [tau<i+1> = str(taus[i])]
    is written and [tau] is not; every [ti<i+1>] is [str] of the delay plus
    the label duration at the same index under continuous labelling, and
    [str] of the raw delay otherwise.  The block succeeds under pulsed
    labelling, and under continuous labelling when there is at least one
    label duration and one for every inversion time. *)
Theorem C5_tau_and_ti_options
    (struc : Struc) (tis : list Q) (options : gmap string Py.value) :
  (∀ o, timing_options str struc tis options = Py.Ok o →
     match casl struc with
     | Some true =>
         ∃ ts, taus struc = Some ts ∧
           (identical ts →
              o !! "tau" = (λ t, Py.Str (str t)) <$> head ts ∧ is_Some (head ts) ∧
              ∀ i, o !! ("tau" +:+ pretty (S i)) = options !! ("tau" +:+ pretty (S i))) ∧
           (¬ identical ts →
              (∀ i t, ts !! i = Some t →
                 o !! ("tau" +:+ pretty (S i)) = Some (Py.Str (str t))) ∧
              o !! "tau" = options !! "tau") ∧
           (∀ i ti, tis !! i = Some ti →
              ∃ tau, ts !! i = Some tau ∧
                o !! ("ti" +:+ pretty (S i)) = Some (Py.Str (str (ti + tau)%Q)))
     | Some false =>
         ∀ i ti, tis !! i = Some ti →
           o !! ("ti" +:+ pretty (S i)) = Some (Py.Str (str ti))
     | None => False
     end) ∧
  (casl struc = Some false → Py.is_Ok (timing_options str struc tis options)) ∧
  (∀ ts, casl struc = Some true → taus struc = Some ts →
     ts ≠ [] → length tis ≤ length ts →
     Py.is_Ok (timing_options str struc tis options)).
Proof.
  assert (∀ i j, "tau" +:+ pretty (S i) ≠ "ti" +:+ pretty (S j)) as Htau_ti by done.
  assert (∀ j, "tau" ≠ "ti" +:+ pretty (S j)) as Hshared_ti by done.
  split; [|split].
  - intros o Ho. unfold timing_options in Ho.
    destruct (casl struc) as [[|]|]; cbn [getitem Py.bind] in Ho; [| |done].
    + destruct (taus struc) as [ts|]; cbn [getitem Py.bind] in Ho; [|done].
      exists ts. split; [done|].
      destruct (py_min ts) as [lo|] eqn:Hlo; cbn [Py.bind] in Ho; [|done].
      destruct (py_max ts) as [hi|] eqn:Hhi; cbn [Py.bind] in Ho; [|done].
      pose proof (min_eq_max_identical ts lo hi Hlo Hhi) as Hid.
      destruct (Qeq_bool lo hi) eqn:Heq.
      * unfold index in Ho. destruct ts as [|t0 ts']; [done|].
        cbn [lookup list_lookup Py.bind] in Ho. simpl in Ho.
        split; [|split].
        -- intros _. split; [|split; [by eexists|]].
           ++ rewrite (ti_options_frame _ _ _ _ _ _ Ho) by (intros; apply Hshared_ti).
              by rewrite lookup_insert_eq.
           ++ intros i.
              rewrite (ti_options_frame _ _ _ _ _ _ Ho) by (intros; apply Htau_ti).
              rewrite lookup_insert_ne by apply tau_key_ne_shared.
              by rewrite lookup_insert_ne.
        -- intros Hne. destruct Hne. by apply Hid.
        -- intros i ti Hi.
           by apply (ti_options_lookup _ _ _ _ _ _ _ Ho Hi).
      * cbn [Py.bind] in Ho. split; [|split].
        -- intros Hident. apply Hid in Hident. congruence.
        -- intros _. split.
           ++ intros i t Hi.
              rewrite (ti_options_frame _ _ _ _ _ _ Ho) by (intros; apply Htau_ti).
              by apply (tau_options_lookup 0).
           ++ rewrite (ti_options_frame _ _ _ _ _ _ Ho) by (intros; apply Hshared_ti).
              rewrite tau_options_frame by (intros; apply tau_key_ne_shared).
              by rewrite lookup_insert_ne.
        -- intros i ti Hi.
           by apply (ti_options_lookup _ _ _ _ _ _ _ Ho Hi).
    + intros i ti Hi. by apply (ti_options_lookup _ _ _ _ _ _ _ Ho Hi).
  - intros Hc. unfold timing_options. rewrite Hc. cbn [getitem Py.bind].
    by apply ti_options_Ok.
  - intros ts Hc Hts Hne Hlen. unfold timing_options. rewrite Hc, Hts.
    cbn [getitem Py.bind]. destruct ts as [|t0 ts']; [done|].
    cbn [py_min py_max Py.bind]. destruct (Qeq_bool _ _).
    + cbn [index lookup list_lookup Py.bind]. simpl. by apply ti_options_Ok.
    + cbn [Py.bind]. by apply ti_options_Ok.
Qed.

End TimingProofs.

Lemma C5_tau_and_ti_options_witness :
  Py.is_Ok (timing_options show_Q pasl_struc pcasl_tis ∅) ∧
  Py.is_Ok (timing_options show_Q mixed_struc mixed_tis ∅) ∧
  ∃ o, timing_options show_Q pcasl_struc pcasl_tis ∅ = Py.Ok o ∧
       o !! "tau" = Some (Py.Str "14/10") ∧
       o !! "ti2" = Some (Py.Str "38/20").
Proof.
  split; [|split].
  - apply (C5_tau_and_ti_options show_Q pasl_struc pcasl_tis ∅). reflexivity.
  - apply (proj2 (proj2 (C5_tau_and_ti_options show_Q mixed_struc mixed_tis ∅))
             [14 # 10; 16 # 10]);
      [reflexivity|reflexivity|discriminate|simpl; lia].
  - destruct (proj2 (proj2 (C5_tau_and_ti_options show_Q pcasl_struc pcasl_tis ∅))
                [14 # 10; 14 # 10; 14 # 10; 14 # 10; 14 # 10; 14 # 10])
      as [o Ho]; [reflexivity|reflexivity|discriminate|simpl; lia|].
    exists o. split; [exact Ho|].
    destruct (proj1 (C5_tau_and_ti_options show_Q pcasl_struc pcasl_tis ∅) o Ho)
      as (ts & Hts & Hshared & _ & Hti).
    injection Hts as <-. split.
    + destruct Hshared as (-> & _).
      * intros t u Ht Hu.
        repeat (apply elem_of_cons in Ht as [->|Ht]; [|]);
          try (by apply elem_of_nil in Ht);
          repeat (apply elem_of_cons in Hu as [->|Hu]; [|]);
          try (by apply elem_of_nil in Hu); reflexivity.
      * vm_compute. reflexivity.
    + destruct (Hti 1 (1 # 2)%Q eq_refl) as (tau & [= <-] & Hti2).
      assert ("ti" +:+ pretty 2 = "ti2") as Hkey by (vm_compute; reflexivity).
      rewrite Hkey in Hti2. rewrite Hti2. vm_compute. reflexivity.
Defined.

(** The two acquisitions of the spec's examples, evaluated. *)
Example shared_tau_flags :
  Py.map (λ o, (o !! "casl", o !! "tau", o !! "tau1", o !! "ti1", o !! "ti6"))
    (timing_options show_Q pcasl_struc pcasl_tis ∅)
  = Py.Ok (Some (Py.Str ""), Some (Py.Str "14/10"), None,
           Some (Py.Str "66/40"), Some (Py.Str "58/20")).
Proof. vm_compute. reflexivity. Qed.

Example indexed_tau_flags :
  Py.map (λ o, (o !! "tau", o !! "tau1", o !! "tau2", o !! "ti1", o !! "ti2"))
    (timing_options show_Q mixed_struc mixed_tis ∅)
  = Py.Ok (None, Some (Py.Str "14/10"), Some (Py.Str "16/10"),
           Some (Py.Str "66/40"), Some (Py.Str "42/20")).
Proof. vm_compute. reflexivity. Qed.
(** *** The course of a run *)

Lemma string_app_empty_r (a : string) : a +:+ "" = a.
Proof.
  induction a as [|x a IH]; [done|].
  change (String x (a +:+ "") = String x a). by rewrite IH.
Qed.

Lemma whole_run_effects self built logtext evs :
  (whole_run self built logtext evs).2 =
    (run_steps self built logtext).2 ++ (deliver (run_steps self built logtext).1 evs).2.
Proof.
  unfold whole_run. destruct (run_steps self built logtext) as [self1 out1].
  cbn [fst snd]. by destruct (deliver self1 evs).
Qed.

Lemma whole_run_final self built logtext evs :
  (whole_run self built logtext evs).1 = (deliver (run_steps self built logtext).1 evs).1.
Proof.
  unfold whole_run. destruct (run_steps self built logtext) as [self1 out1].
  cbn [fst snd]. by destruct (deliver self1 evs).
Qed.

Lemma deliver_cons_final self ev evs :
  (deliver self (ev :: evs)).1 = (deliver (handle self ev).1 evs).1.
Proof.
  cbn [deliver]. destruct (handle self ev) as [self1 out1]. cbn [fst snd].
  by destruct (deliver self1 evs) as [self2 out2].
Qed.

(** What one callback does to a process that is running. *)
Lemma _next_step_cases self :
  status self = RUNNING →
  (∃ s, steps self !! step_num self = Some s ∧
        _next_step self =
          (set_log (log self +:+ (match prev_step s with
                                  | Some p => step_desc s +:+ " - init with STEP " +:+ pretty p
                                  | None => step_desc s
                                  end) +:+ nl +:+ nl)
             (set_step_num (S (step_num self)) self),
           [sig_step (step_desc s);
            fabber_execute
              (fabber_options (bool_decide (S (step_num self) = length (steps self))) s)])) ∨
  (length (steps self) ≤ step_num self ∧
   ∃ self',
     _next_step self =
       (self', (if decide ("finalMVN" ∈ ivm_data self)
                then [ivm_delete_data "finalMVN"] else [])
               ++ [sig_finished SUCCEEDED (log self +:+ ("COMPLETE" +:+ nl)) (exception self)]) ∧
     status self' = SUCCEEDED ∧ log self' = log self +:+ ("COMPLETE" +:+ nl)).
Proof.
  intros Hrun. destruct (steps self !! step_num self) as [s|] eqn:Hs.
  - left. exists s. split; [done|]. by apply _next_step_start.
  - right. apply lookup_ge_None_1 in Hs. split; [done|].
    unfold _next_step. rewrite decide_False by (rewrite Hrun; intros H; by apply H).
    rewrite (lookup_ge_None_2 _ _ Hs). simpl.
    destruct (decide ("finalMVN" ∈ ivm_data self)); by eexists.
Qed.

(** Once the run has ended nothing is emitted any more, and status and log
    stay; the data store may still grow. *)
Lemma deliver_ended evs : ∀ self,
  status self ≠ RUNNING →
  (deliver self evs).2 = [] ∧
  status (deliver self evs).1 = status self ∧
  log (deliver self evs).1 = log self ∧
  steps (deliver self evs).1 = steps self ∧
  step_num (deliver self evs).1 = step_num self ∧
  ivm_data self ⊆ ivm_data (deliver self evs).1.
Proof.
  induction evs as [|ev evs IH]; intros self Hst; [done|].
  rewrite deliver_cons_effects, deliver_cons_final.
  destruct ev as [st lg exc|c|name]; cbn [handle].
  - unfold _fabber_finished. rewrite decide_True by done. by apply IH.
  - unfold _fabber_progress. rewrite decide_False by done. by apply IH.
  - cbn [fst snd]. destruct (IH (set_ivm_data ({[name]} ∪ ivm_data self) self) Hst)
      as (-> & -> & -> & -> & -> & Hsub).
    do 5 (split; [done|]). etrans; [|exact Hsub]. simpl. apply union_subseteq_r.
Qed.

(** X3: The log of the process only grows: what earlier steps have written
    stays when later callbacks arrive. *)
Theorem log_is_cumulative (self : BasilProcess) (evs : list Event) :
  ∃ suffix, log (deliver self evs).1 = log self +:+ suffix.
Proof.
  revert self. induction evs as [|ev evs IH]; intros self.
  { exists "". by rewrite string_app_empty_r. }
  rewrite deliver_cons_final.
  assert (∃ suffix, log (handle self ev).1 = log self +:+ suffix) as [s1 Hs1].
  { destruct ev as [st lg exc|c|name]; cbn [handle].
    - unfold _fabber_finished.
      destruct (decide (status self ≠ RUNNING)) as [Hst|Hst].
      { exists "". by rewrite string_app_empty_r. }
      apply dec_stable in Hst.
      destruct (decide (st = SUCCEEDED)) as [->|Hfail].
      + destruct (_next_step_cases (set_log (log self +:+ lg +:+ nl +:+ nl) self) Hst)
          as [(s & _ & ->)|(_ & self' & -> & _ & Hlog)]; cbn [fst].
        * eexists. cbn [log set_log set_step_num]. by rewrite QpwrapProofs.append_assoc.
        * eexists. rewrite Hlog. cbn [log set_log]. by rewrite QpwrapProofs.append_assoc.
      + eexists. cbn [fst log set_status set_log]. by rewrite QpwrapProofs.append_assoc.
    - unfold _fabber_progress. exists "". rewrite string_app_empty_r.
      destruct (decide _); [|done]. by destruct (steps self).
    - exists "". by rewrite string_app_empty_r. }
  destruct (IH (handle self ev).1) as [s2 Hs2].
  exists (s1 +:+ s2). by rewrite Hs2, Hs1, QpwrapProofs.append_assoc.
Qed.

Lemma completions_app out1 out2 :
  completions (out1 ++ out2) = completions out1 ++ completions out2.
Proof. unfold completions. apply omap_app. Qed.

Lemma deliver_running_completion evs : ∀ self,
  status self = RUNNING → Forall reports_end evs →
  (completions (deliver self evs).2 = [] ∧ status (deliver self evs).1 = RUNNING) ∨
  (∃ pre st lg exc,
     (deliver self evs).2 = pre ++ [sig_finished st lg exc] ∧ completions pre = [] ∧
     st ≠ RUNNING ∧ status (deliver self evs).1 = st ∧ log (deliver self evs).1 = lg).
Proof.
  induction evs as [|ev evs IH]; intros self Hrun Hevs; [by left|].
  apply Forall_cons in Hevs as [Hev Hevs].
  rewrite deliver_cons_effects, deliver_cons_final.
  assert (∀ self1 out1,
            handle self ev = (self1, out1) → status self1 = RUNNING → completions out1 = [] →
            (completions (out1 ++ (deliver self1 evs).2) = [] ∧
             status (deliver self1 evs).1 = RUNNING) ∨
            (∃ pre st lg exc,
               out1 ++ (deliver self1 evs).2 = pre ++ [sig_finished st lg exc] ∧
               completions pre = [] ∧ st ≠ RUNNING ∧
               status (deliver self1 evs).1 = st ∧ log (deliver self1 evs).1 = lg)) as Hgo.
  { intros self1 out1 _ Hrun1 Hout1.
    destruct (IH self1 Hrun1 Hevs) as [[Hc Hs]|(pre & st & lg & exc & -> & Hpre & Hst & Hs & Hl)].
    - left. by rewrite completions_app, Hout1, Hc.
    - right. exists (out1 ++ pre), st, lg, exc. rewrite <- app_assoc.
      split; [done|]. split; [by rewrite completions_app, Hout1, Hpre|done]. }
  assert (∀ self1 pre st lg exc,
            handle self ev = (self1, pre ++ [sig_finished st lg exc]) →
            completions pre = [] → status self1 = st → log self1 = lg → st ≠ RUNNING →
            ∃ pre' st' lg' exc',
              (pre ++ [sig_finished st lg exc]) ++ (deliver self1 evs).2
                = pre' ++ [sig_finished st' lg' exc'] ∧
              completions pre' = [] ∧ st' ≠ RUNNING ∧
              status (deliver self1 evs).1 = st' ∧ log (deliver self1 evs).1 = lg') as Hend.
  { intros self1 pre st lg exc _ Hpre Hst Hlg Hne.
    destruct (deliver_ended evs self1) as (-> & -> & -> & _); [by rewrite Hst|].
    exists pre, st, lg, exc. by rewrite app_nil_r. }
  destruct ev as [st lg exc|c|name]; cbn [handle] in *.
  - unfold _fabber_finished in *.
    rewrite decide_False in * by (rewrite Hrun; intros H; by apply H).
    destruct (decide (st = SUCCEEDED)) as [->|Hfail].
    + destruct (_next_step_cases (set_log (log self +:+ lg +:+ nl +:+ nl) self) Hrun)
        as [(s & _ & Hn)|(_ & self' & Hn & Hst' & Hlog')]; rewrite Hn in *; cbn [fst snd].
      * by eapply Hgo.
      * right. eapply Hend; [reflexivity| |exact Hst'|exact Hlog'|done].
        by destruct (decide _).
    + right. cbn [fst snd].
      eapply (Hend _ []); [reflexivity|done|done|done|exact Hev].
  - unfold _fabber_progress in *. rewrite decide_True in * by done.
    destruct (steps self); cbn [fst snd]; by eapply Hgo.
  - cbn [fst snd]. by eapply Hgo.
Qed.

(** X1: A run signals its end once: as long as the fitting process reports
    statuses it has ended with, either no completion signal has been emitted
    and the process is still running, or exactly one has, as the last thing
    emitted, and it carries the final status and the final log. *)
Theorem one_completion_signal
    (self : BasilProcess) (built : list Step) (logtext : string) (evs : list Event) :
  Forall reports_end evs →
  (completions (whole_run self built logtext evs).2 = [] ∧
   status (whole_run self built logtext evs).1 = RUNNING) ∨
  (∃ pre st lg exc,
     (whole_run self built logtext evs).2 = pre ++ [sig_finished st lg exc] ∧
     completions pre = [] ∧ st ≠ RUNNING ∧
     status (whole_run self built logtext evs).1 = st ∧
     log (whole_run self built logtext evs).1 = lg).
Proof.
  intros Hevs. rewrite whole_run_effects, whole_run_final. unfold run_steps.
  set (self0 := set_status RUNNING (set_step_num 0 (set_log logtext (set_steps built self)))).
  destruct (_next_step_cases self0) as [(s & _ & Hn)|(_ & self' & Hn & Hst' & Hlog')];
    [done| |]; rewrite Hn; cbn [fst snd].
  - match goal with |- context [deliver ?s evs] =>
      destruct (deliver_running_completion evs s)
        as [[Hc Hs]|(pre & st & lg & exc & -> & Hpre & Hst & Hs & Hl)]; [done|done| |] end.
    + left. by rewrite completions_app, Hc.
    + right. eexists (_ :: _ :: pre), st, lg, exc. split; [done|].
      split; [|done]. change (?a :: ?b :: pre) with ([a; b] ++ pre).
      by rewrite completions_app, Hpre.
  - right. destruct (deliver_ended evs self') as (-> & -> & -> & _); [by rewrite Hst'|].
    eexists _, SUCCEEDED, _, _. rewrite app_nil_r. split; [reflexivity|].
    split; [by destruct (decide _)|]. by rewrite Hst', Hlog'.
Qed.

Lemma one_completion_signal_witness :
  (completions (whole_run idle_process two_steps "BASIL" first_fails).2 = [] ∧
   status (whole_run idle_process two_steps "BASIL" first_fails).1 = RUNNING) ∨
  (∃ pre st lg exc,
     (whole_run idle_process two_steps "BASIL" first_fails).2
       = pre ++ [sig_finished st lg exc] ∧
     completions pre = [] ∧ st ≠ RUNNING ∧
     status (whole_run idle_process two_steps "BASIL" first_fails).1 = st ∧
     log (whole_run idle_process two_steps "BASIL" first_fails).1 = lg).
Proof.
  apply (one_completion_signal idle_process two_steps "BASIL" first_fails).
  repeat constructor; done.
Defined.

(** X2: A step for which the fitting process reports a status other than
    SUCCEEDED and RUNNING ends the run: the completion signal carries the
    status and exception that the fitting process reported and the log with
    [CANCELLED] appended; the step list, the step counter and the process's
    own exception stay as they are; whatever arrives afterwards, nothing is
    emitted (no later step is started, [finalMVN] is not removed) and the
    data store keeps what it holds. *)
Theorem failed_step_ends_the_run
    (self : BasilProcess) (st : Status) (lg : string) (exc : option Py.exn)
    (evs : list Event) :
  status self = RUNNING → st ≠ SUCCEEDED → st ≠ RUNNING →
  ∃ self1,
    _fabber_finished self st lg exc =
      (self1, [sig_finished st ((log self +:+ lg +:+ nl +:+ nl) +:+ "CANCELLED" +:+ nl) exc]) ∧
    status self1 = st ∧
    log self1 = (log self +:+ lg +:+ nl +:+ nl) +:+ "CANCELLED" +:+ nl ∧
    steps self1 = steps self ∧ step_num self1 = step_num self ∧
    exception self1 = exception self ∧
    (deliver self1 evs).2 = [] ∧
    status (deliver self1 evs).1 = st ∧
    steps (deliver self1 evs).1 = steps self ∧
    ivm_data self ⊆ ivm_data (deliver self1 evs).1.
Proof.
  intros Hrun Hfail Hend. eexists. unfold _fabber_finished.
  rewrite decide_False by (rewrite Hrun; intros H; by apply H).
  rewrite decide_False by done. split; [reflexivity|].
  do 5 (split; [done|]).
  match goal with |- context [deliver ?s evs] =>
    destruct (deliver_ended evs s) as (-> & -> & _ & -> & _ & Hsub); [done|] end.
  done.
Qed.

Lemma failed_step_ends_the_run_witness :
  ∃ self1,
    _fabber_finished running_process FAILED "step 1 log" (Some (Py.RuntimeError "fabber")) =
      (self1, [sig_finished FAILED
                 ((log running_process +:+ "step 1 log" +:+ nl +:+ nl) +:+ "CANCELLED" +:+ nl)
                 (Some (Py.RuntimeError "fabber"))]) ∧
    status self1 = FAILED ∧
    log self1 = (log running_process +:+ "step 1 log" +:+ nl +:+ nl) +:+ "CANCELLED" +:+ nl ∧
    steps self1 = steps running_process ∧ step_num self1 = step_num running_process ∧
    exception self1 = exception running_process ∧
    (deliver self1 [progress 1; finished SUCCEEDED "late" None]).2 = [] ∧
    status (deliver self1 [progress 1; finished SUCCEEDED "late" None]).1 = FAILED ∧
    steps (deliver self1 [progress 1; finished SUCCEEDED "late" None]).1
      = steps running_process ∧
    ivm_data running_process
      ⊆ ivm_data (deliver self1 [progress 1; finished SUCCEEDED "late" None]).1.
Proof.
  apply (failed_step_ends_the_run running_process FAILED "step 1 log"
           (Some (Py.RuntimeError "fabber")) [progress 1; finished SUCCEEDED "late" None]);
    [reflexivity|discriminate|discriminate].
Defined.

(** X4: A step is started only by the start of the run or by a callback that
    reports success: the number of invocations dispatched never exceeds the
    number of such callbacks received (plus one for a whole run), so there
    is never more than one invocation in flight. *)
Theorem one_dispatch_per_success
    (self : BasilProcess) (built : list Step) (logtext : string) (evs : list Event) :
  length (dispatched (deliver self evs).2) ≤ length (List.filter reports_success evs) ∧
  length (dispatched (whole_run self built logtext evs).2)
    ≤ 1 + length (List.filter reports_success evs).
Proof.
  assert (∀ evs self,
            length (dispatched (deliver self evs).2)
              ≤ length (List.filter reports_success evs)) as Hdeliver.
  { clear. induction evs as [|ev evs IH]; intros self; [done|].
    rewrite deliver_cons_effects, dispatched_app, length_app.
    specialize (IH (handle self ev).1).
    set (rest := length (dispatched (deliver (handle self ev).1 evs).2)) in *.
    clearbody rest.
    destruct ev as [st lg exc|c|name]; cbn [handle List.filter reports_success].
    - unfold _fabber_finished.
      destruct (decide (status self ≠ RUNNING)) as [Hst|Hst].
      { destruct st; simpl; lia. }
      apply dec_stable in Hst.
      destruct (decide (st = SUCCEEDED)) as [->|Hfail].
      + destruct (_next_step_cases (set_log (log self +:+ lg +:+ nl +:+ nl) self) Hst)
          as [(s & _ & Hn)|(_ & self' & Hn & _ & _)]; rewrite Hn; cbn [fst snd].
        * simpl. lia.
        * destruct (decide _); simpl; lia.
      + cbn [fst snd]. destruct st; simpl; lia.
    - unfold _fabber_progress. destruct (decide _); [|simpl; lia].
      destruct (steps self); simpl; lia.
    - simpl. lia. }
  split; [apply Hdeliver|].
  rewrite whole_run_effects, dispatched_app, length_app.
  specialize (Hdeliver evs (run_steps self built logtext).1).
  assert (length (dispatched (run_steps self built logtext).2) ≤ 1); [|lia].
  unfold run_steps.
  set (self0 := set_status RUNNING (set_step_num 0 (set_log logtext (set_steps built self)))).
  destruct (_next_step_cases self0) as [(s & _ & Hn)|(_ & self' & Hn & _ & _)];
    [done| |]; rewrite Hn; cbn [fst snd].
  - simpl. lia.
  - destruct (decide _); simpl; lia.
Qed.

(** *** Progress *)

Lemma run_steps_in_step self built logtext : in_step (run_steps self built logtext).1.
Proof.
  unfold run_steps.
  set (self0 := set_status RUNNING (set_step_num 0 (set_log logtext (set_steps built self)))).
  destruct (_next_step_cases self0) as [(s & Hs & Hn)|(_ & self' & Hn & Hst & _)];
    [done| |]; rewrite Hn; cbn [fst]; intros Hrun.
  - apply lookup_lt_Some in Hs. simpl in *. lia.
  - congruence.
Qed.

Lemma handle_in_step self ev : in_step self → in_step (handle self ev).1.
Proof.
  intros Hin. destruct ev as [st lg exc|c|name]; cbn [handle].
  - unfold _fabber_finished.
    destruct (decide (status self ≠ RUNNING)) as [Hst|Hst]; [done|].
    apply dec_stable in Hst.
    destruct (decide (st = SUCCEEDED)) as [->|Hfail].
    + destruct (_next_step_cases (set_log (log self +:+ lg +:+ nl +:+ nl) self) Hst)
        as [(s & Hs & Hn)|(_ & self' & Hn & Hst' & _)]; rewrite Hn; cbn [fst]; intros Hrun.
      * apply lookup_lt_Some in Hs. simpl in *. lia.
      * congruence.
    + cbn [fst]. intros Hrun. simpl in *. by apply Hin.
  - unfold _fabber_progress. destruct (decide _); [|done]. by destruct (steps self).
  - done.
Qed.

Lemma scaled_progress (n N : nat) (c : Q) :
  1 ≤ n ≤ N → (0 <= c)%Q → (c <= 1)%Q →
  (0 <= (inject_Z (Z.of_nat n - 1) + c) / inject_Z (Z.of_nat N) ∧
   (inject_Z (Z.of_nat n - 1) + c) / inject_Z (Z.of_nat N) <= 1)%Q.
Proof.
  intros Hn H0 H1.
  assert (0 < inject_Z (Z.of_nat N))%Q as HN.
  { change 0%Q with (inject_Z 0). rewrite <- Zlt_Qlt. lia. }
  assert (0 <= inject_Z (Z.of_nat n - 1))%Q as Hlo.
  { change 0%Q with (inject_Z 0). rewrite <- Zle_Qle. lia. }
  assert (inject_Z (Z.of_nat n - 1) + 1 <= inject_Z (Z.of_nat N))%Q as Hhi.
  { change 1%Q with (inject_Z 1). rewrite <- inject_Z_plus, <- Zle_Qle. lia. }
  split.
  - apply Qle_shift_div_l; [done|]. rewrite Qmult_0_l.
    change 0%Q with (0 + 0)%Q. by apply Qplus_le_compat.
  - apply Qle_shift_div_r; [done|]. rewrite Qmult_1_l.
    eapply Qle_trans; [|exact Hhi]. apply Qplus_le_compat; [apply Qle_refl|done].
Qed.

Lemma fractions_app out1 out2 : fractions (out1 ++ out2) = fractions out1 ++ fractions out2.
Proof. unfold fractions. apply omap_app. Qed.

Lemma escaped_app out1 out2 : escaped (out1 ++ out2) = escaped out1 ++ escaped out2.
Proof. unfold escaped. apply omap_app. Qed.

Lemma handle_progress self ev :
  in_step self → unit_progress ev →
  escaped (handle self ev).2 = [] ∧
  Forall (λ f, (0 <= f ∧ f <= 1)%Q) (fractions (handle self ev).2).
Proof.
  intros Hin Hev. destruct ev as [st lg exc|c|name]; cbn [handle].
  - unfold _fabber_finished.
    destruct (decide (status self ≠ RUNNING)) as [Hst|Hst]; [done|].
    apply dec_stable in Hst.
    destruct (decide (st = SUCCEEDED)) as [->|Hfail]; [|done].
    destruct (_next_step_cases (set_log (log self +:+ lg +:+ nl +:+ nl) self) Hst)
      as [(s & Hs & Hn)|(_ & self' & Hn & Hst' & _)]; rewrite Hn; cbn [snd]; [done|].
    by destruct (decide _).
  - unfold _fabber_progress. destruct (decide _) as [Hrun|]; [|done].
    specialize (Hin Hrun). destruct (steps self) as [|s0 ss] eqn:Hsteps.
    { simpl in Hin. lia. }
    cbn [snd escaped fractions omap list_omap]. split; [done|].
    constructor; [|constructor]. destruct Hev as [H0 H1].
    by apply scaled_progress.
  - done.
Qed.

(** X5: Every progress fraction that a run emits lies between 0 and 1, and no
    progress callback divides by an empty step list, whenever the fitting
    process reports fractions between 0 and 1. *)
Theorem progress_is_a_fraction_of_the_run
    (self : BasilProcess) (built : list Step) (logtext : string) (evs : list Event) :
  Forall unit_progress evs →
  escaped (whole_run self built logtext evs).2 = [] ∧
  Forall (λ f, (0 <= f ∧ f <= 1)%Q) (fractions (whole_run self built logtext evs).2).
Proof.
  intros Hevs. rewrite whole_run_effects, escaped_app, fractions_app.
  assert (escaped (run_steps self built logtext).2 = [] ∧
          fractions (run_steps self built logtext).2 = []) as [-> ->].
  { unfold run_steps.
    set (self0 := set_status RUNNING (set_step_num 0 (set_log logtext (set_steps built self)))).
    destruct (_next_step_cases self0) as [(s & _ & Hn)|(_ & self' & Hn & _ & _)];
      [done| |]; rewrite Hn; cbn [snd]; [done|]. by destruct (decide _). }
  pose proof (run_steps_in_step self built logtext) as Hin.
  revert Hin. generalize (run_steps self built logtext).1. clear self.
  induction Hevs as [|ev evs Hev Hevs IH]; intros self Hin; [done|].
  rewrite deliver_cons_effects, escaped_app, fractions_app.
  destruct (handle_progress self ev Hin Hev) as [-> Hf].
  destruct (IH (handle self ev).1) as [He Hf']; [by apply handle_in_step|].
  cbn [app] in *. split; [done|]. by apply Forall_app.
Qed.

Lemma progress_is_a_fraction_of_the_run_witness :
  escaped (whole_run idle_process two_steps "BASIL" both_succeed).2 = [] ∧
  Forall (λ f, (0 <= f ∧ f <= 1)%Q)
         (fractions (whole_run idle_process two_steps "BASIL" both_succeed).2).
Proof.
  apply (progress_is_a_fraction_of_the_run idle_process two_steps "BASIL" both_succeed).
  repeat constructor; done.
Defined.
(** *** Label durations and inversion times: how the block fails *)

Section TimingErrors.

Variable str : Q → string.

Lemma ti_options_IndexError taus tis : ∀ idx options,
  idx ≤ length taus → length taus < idx + length tis →
  ti_options str (Some taus) idx tis options = Py.Raise Py.IndexError.
Proof.
  induction tis as [|ti tis IH]; intros idx options Hidx Hlen; [simpl in Hlen; lia|].
  cbn [ti_options]. unfold index.
  destruct (taus !! idx) as [tau|] eqn:Htau; [|done].
  apply lookup_lt_Some in Htau. cbn [Py.bind]. apply IH; simpl in *; lia.
Qed.

(** X6: The outcome of the block by the stored structure: without a [casl]
    entry it raises [KeyError]; under pulsed labelling it succeeds and never
    looks at the label durations; under continuous labelling it raises
    [KeyError] without a [taus] entry, [ValueError] for an empty list of
    label durations and [IndexError] when there are more inversion times
    than label durations (also when all durations are equal), and succeeds
    otherwise. *)
Theorem timing_options_outcome
    (struc : Struc) (tis : list Q) (options : gmap string Py.value) :
  match casl struc with
  | None => timing_options str struc tis options = Py.Raise (Py.KeyError "casl")
  | Some false => Py.is_Ok (timing_options str struc tis options)
  | Some true =>
      match taus struc with
      | None => timing_options str struc tis options = Py.Raise (Py.KeyError "taus")
      | Some [] =>
          timing_options str struc tis options
            = Py.Raise (Py.ValueError "min() arg is an empty sequence")
      | Some ts =>
          if decide (length tis ≤ length ts)
          then Py.is_Ok (timing_options str struc tis options)
          else timing_options str struc tis options = Py.Raise Py.IndexError
      end
  end.
Proof.
  unfold timing_options.
  destruct (casl struc) as [[|]|]; cbn [getitem Py.bind]; [| |done].
  - destruct (taus struc) as [[|t0 ts]|]; cbn [getitem Py.bind]; [done| |done].
    cbn [py_min py_max Py.bind].
    destruct (decide (length tis ≤ length (t0 :: ts))) as [Hlen|Hlen].
    + destruct (Qeq_bool _ _).
      * cbn [index lookup list_lookup Py.bind]. simpl. by apply ti_options_Ok.
      * cbn [Py.bind]. by apply ti_options_Ok.
    + destruct (Qeq_bool _ _).
      * cbn [index lookup list_lookup Py.bind]. simpl.
        apply ti_options_IndexError; simpl in *; lia.
      * cbn [Py.bind]. apply ti_options_IndexError; simpl in *; lia.
  - by apply ti_options_Ok.
Qed.

End TimingErrors.

(** One label duration for two inversion times, evaluated. *)
Example one_tau_for_two_tis :
  timing_options show_Q short_struc mixed_tis ∅ = Py.Raise Py.IndexError.
Proof. vm_compute. reflexivity. Qed.

(** *** The stored acquisition structure *)

Section StructureProofs.

Variable V : Type.

Local Abbreviation merge_opt := (merge_opt V).
Local Abbreviation merge_struc := (merge_struc V).

(** What [options.pop(opt, None)] finds that is not [None]. *)
Local Abbreviation given options k :=
  (match options !! k with Some (Some v) => Some (Some v) | _ => None end).

Lemma merge_opt_lookup struc options opt k :
  (merge_opt (struc, options) opt).1 !! k
    = (if decide (k = opt) then given options k else struc !! k) ∧
  (merge_opt (struc, options) opt).2 !! k
    = (if decide (k = opt) then None else options !! k).
Proof.
  unfold Process.merge_opt.
  destruct (decide (k = opt)) as [->|Hne].
  - destruct (options !! opt) as [[v|]|] eqn:Hopt; cbn [fst snd];
      by rewrite ?lookup_insert_eq, ?lookup_delete_eq.
  - destruct (options !! opt) as [[v|]|]; cbn [fst snd];
      by rewrite ?lookup_insert_ne, ?lookup_delete_ne.
Qed.

Lemma merge_fold_lookup opts : ∀ struc options k,
  NoDup opts →
  (foldl merge_opt (struc, options) opts).1 !! k
    = (if decide (k ∈ opts) then given options k else struc !! k) ∧
  (foldl merge_opt (struc, options) opts).2 !! k
    = (if decide (k ∈ opts) then None else options !! k).
Proof.
  induction opts as [|opt opts IH]; intros struc options k Hnd.
  { cbn [foldl fst snd]. by rewrite decide_False by by intros ?%elem_of_nil. }
  apply NoDup_cons in Hnd as [Hopt Hnd]. cbn [foldl].
  destruct (merge_opt_lookup struc options opt k) as [H1 H2].
  destruct (merge_opt (struc, options) opt) as [struc1 options1]. cbn [fst snd] in H1, H2.
  destruct (IH struc1 options1 k Hnd) as [-> ->]. rewrite H1, H2.
  destruct (decide (k = opt)) as [->|Hne].
  - destruct (decide (opt ∈ opts)) as [?|_]; [done|].
    destruct (decide (opt ∈ opt :: opts)) as [_|Hout]; [done|].
    destruct Hout. apply list_elem_of_here.
  - destruct (decide (k ∈ opts)) as [Hin|Hout];
      destruct (decide (k ∈ opt :: opts)) as [Hin'|Hout']; try done.
    + destruct Hout'. by apply list_elem_of_further.
    + by apply elem_of_cons in Hin' as [?|?].
Qed.

(** X7: The structure that [get_asldata] leaves in [self.struc]: for each of
    the seven structure options the value given in [options], and no entry
    when [options] has none or has [None] (whatever was stored before);
    every other stored entry as it was.  The seven options are removed
    from [options], and nothing else is. *)
Theorem structure_is_taken_from_the_options
    (stored : option (gmap string (option V))) (options : gmap string (option V))
    (k : string) :
  (merge_struc stored options).1 !! k
    = (if decide (k ∈ struc_opts) then given options k
       else match stored with Some s => s | None => ∅ end !! k) ∧
  (merge_struc stored options).2 !! k
    = (if decide (k ∈ struc_opts) then None else options !! k).
Proof.
  unfold Process.merge_struc. apply merge_fold_lookup.
  apply (bool_decide_unpack _). by vm_compute.
Qed.

End StructureProofs.

(** A stored structure with [casl] and [order], and a later call that gives
    the inversion times only: the stored [casl] and [order] are dropped. *)
Example stored_structure_is_dropped :
  let struc := (merge_struc Py.value (Some stored_struc) tis_only).1 in
  (struc !! "casl", struc !! "order", struc !! "tis", struc !! "comment")
    = (None, None, Some (Some (Py.Str "1.5")), Some (Some (Py.Str "pcasl"))) ∧
  (merge_struc Py.value (Some stored_struc) tis_only).2
    = <["data" := Some (Py.Str "asldata")]> ∅.
Proof. split; vm_compute; reflexivity. Qed.

(** *** Scripts of processes *)

Section MacroProofs.

Variable fmt_seconds : Q → string.
Variable fmt_status : Status → string.

Local Abbreviation macro_handle := (macro_handle fmt_seconds fmt_status).
Local Abbreviation macro_deliver := (macro_deliver fmt_seconds fmt_status).

Lemma macro_deliver_cons self ev evs :
  macro_deliver self (ev :: evs) =
    ((macro_deliver (macro_handle self ev).1 evs).1,
     (macro_handle self ev).2 ++ (macro_deliver (macro_handle self ev).1 evs).2).
Proof.
  cbn [Process.macro_deliver]. destruct (macro_handle self ev) as [self1 out1].
  cbn [fst snd]. by destruct (macro_deliver self1 evs).
Qed.

(** What one signal of a process does to the status and to the completion
    signals. *)
Lemma macro_handle_process self ev :
  from_process ev = true →
  m_status (macro_handle self ev).1 = last_failure (m_status self) [ev] ∧
  length (completions (macro_handle self ev).2) = length (failures [ev]) ∧
  ∀ st lg exc, (st, lg, exc) ∈ completions (macro_handle self ev).2 → st ≠ SUCCEEDED.
Proof.
  intros Hev. destruct ev as [proc_id now|plog pstatus pexc now|c|]; [| | |done].
  - cbn. split; [done|]. split; [done|]. by intros st lg exc ?%elem_of_nil.
  - cbn [Process.macro_handle last_failure failures List.filter].
    unfold _done_process. cbn [m_start m_status m_log m_exception].
    destruct (decide (pstatus = SUCCEEDED)) as [->|Hfail].
    + rewrite bool_decide_eq_true_2 by done. cbn [negb].
      destruct (m_start self); cbn; (split; [done|]; split; [done|]);
        by intros st lg exc ?%elem_of_nil.
    + rewrite bool_decide_eq_false_2 by done. cbn. split; [done|]. split; [done|].
      intros st lg exc [Heq|Hin]%elem_of_cons; [congruence|by apply elem_of_nil in Hin].
  - cbn [Process.macro_handle last_failure failures List.filter]. unfold _progress.
    destruct (decide _); cbn; (split; [done|]; split; [done|]);
      by intros st lg exc ?%elem_of_nil.
Qed.

(** X8: While the processes of a script report, every process that does not
    succeed sets the status of the macro to its own and makes it emit a
    completion signal at once, whatever the status of the macro is by then;
    so there is one completion signal per such process, none of them
    reporting success, and the status is that of the last such process.
    When the script ends, one further signal reports SUCCEEDED exactly when
    that status is still RUNNING. *)
Theorem macro_reports_each_failure (self : MacroProcess) (evs : list MacroEvent) :
  forallb from_process evs = true →
  m_status (macro_deliver self evs).1 = last_failure (m_status self) evs ∧
  length (completions (macro_deliver self evs).2) = length (failures evs) ∧
  (∀ st lg exc, (st, lg, exc) ∈ completions (macro_deliver self evs).2 → st ≠ SUCCEEDED) ∧
  completions (_done_script (macro_deliver self evs).1).2
    = (if decide (last_failure (m_status self) evs = RUNNING)
       then [(SUCCEEDED,
              m_log (macro_deliver self evs).1 +:+ ("Script finished" +:+ nl),
              m_exception (macro_deliver self evs).1)]
       else []).
Proof.
  intros Hevs.
  assert (m_status (macro_deliver self evs).1 = last_failure (m_status self) evs ∧
          length (completions (macro_deliver self evs).2) = length (failures evs) ∧
          (∀ st lg exc, (st, lg, exc) ∈ completions (macro_deliver self evs).2 →
                        st ≠ SUCCEEDED)) as (Hst & Hlen & Hfail).
  { revert self Hevs. induction evs as [|ev evs IH]; intros self Hevs.
    { split; [done|]. split; [done|]. by intros st lg exc ?%elem_of_nil. }
    cbn [forallb] in Hevs. apply andb_prop in Hevs as [Hev Hevs].
    rewrite macro_deliver_cons. cbn [fst snd].
    destruct (macro_handle_process self ev Hev) as (H1 & H2 & H3).
    destruct (IH (macro_handle self ev).1 Hevs) as (IH1 & IH2 & IH3).
    rewrite completions_app, length_app, IH1, IH2, H1, H2.
    split; [|split].
    - destruct ev as [proc_id now|plog pstatus pexc now|c|]; done.
    - destruct ev as [proc_id now|plog pstatus pexc now|c|]; cbn; try done.
      by destruct (negb _).
    - intros st lg exc [Hin|Hin]%elem_of_app; [by eapply H3|by eapply IH3]. }
  do 3 (split; [done|]). unfold _done_script. rewrite Hst.
  by destruct (decide _).
Qed.

End MacroProofs.

Lemma macro_reports_each_failure_witness :
  m_status (macro_deliver show_Q (λ _, "2") (macro_run idle_macro) failing_script).1 = FAILED ∧
  length (completions
            (macro_deliver show_Q (λ _, "2") (macro_run idle_macro) failing_script).2) = 1 ∧
  completions (_done_script
                 (macro_deliver show_Q (λ _, "2") (macro_run idle_macro) failing_script).1).2
    = [].
Proof.
  destruct (macro_reports_each_failure show_Q (λ _, "2") (macro_run idle_macro)
              failing_script eq_refl) as (H1 & H2 & _ & H4).
  split; [exact H1|]. split; [exact H2|exact H4].
Defined.

(** *** What is dispatched, step by step *)

Lemma whole_run_dispatched self built logtext evs :
  ∃ k, dispatched (whole_run self built logtext evs).2
       = dispatch_list (length built) 0 (take k built).
Proof.
  rewrite whole_run_effects. unfold run_steps.
  set (self0 := set_status RUNNING (set_step_num 0 (set_log logtext (set_steps built self)))).
  destruct built as [|s built'] eqn:Hb.
  - destruct (_next_step_complete self0) as (self' & -> & Hst & _); [done|simpl; lia|].
    exists 0. cbn [fst snd]. rewrite dispatched_app.
    rewrite (deliver_not_running_dispatch self' evs) by (rewrite Hst; done).
    rewrite app_nil_r. by destruct (decide _).
  - rewrite (_next_step_start self0 s) by done. cbn [fst snd].
    set (self1 := set_log _ _). destruct (deliver_dispatched evs self1) as [k Hk].
    exists (S k). rewrite dispatched_app, Hk. cbn [take]. done.
Qed.

Lemma not_own_key k : k ∉ own_keys → Forall (λ key, key ≠ k) own_keys.
Proof.
  intros Hk. apply Forall_forall. intros key Hkey ->. by apply Hk.
Qed.

(** X21: Whatever the course of a run, the invocations of the fitting
    process follow the step list: the [i]-th option set dispatched is made
    from the [i]-th step; it has the model group [asl], the names of the
    step's input and mask images as [data] and [roi], the table of output
    names, and [continue-from-mvn = finalMVN] when the step names a previous
    step; every option of the step that [_start_fabber] does not set
    itself is passed on as it is. *)
Theorem invocations_follow_the_step_list
    (self : BasilProcess) (built : list Step) (logtext : string) (evs : list Event)
    (i : nat) (o : gmap string Py.value) :
  dispatched (whole_run self built logtext evs).2 !! i = Some o →
  ∃ s, built !! i = Some s ∧
    o !! "model-group" = Some (Py.Str "asl") ∧
    o !! "data" = Some (Py.Str (iname (infile s))) ∧
    o !! "roi" = Some (Py.Str (iname (mask s))) ∧
    o !! "output-rename" = Some (Py.Dict output_rename) ∧
    (is_Some (prev_step s) → o !! "continue-from-mvn" = Some (Py.Str "finalMVN")) ∧
    (∀ k, k ∉ own_keys → o !! k = options s !! k).
Proof.
  intros Ho. destruct (whole_run_dispatched self built logtext evs) as [n Hn].
  rewrite Hn in Ho. apply dispatch_list_lookup in Ho as (s & Hs & ->).
  apply lookup_take_Some in Hs as [Hs _]. exists s. split; [done|].
  unfold fabber_options.
  destruct (bool_decide _), (prev_step s) as [p|]; simplify_map_eq;
    (do 4 (split; [done|])); (split; [by intros [??]|]);
    intros k Hk%not_own_key; unfold own_keys in Hk;
    repeat (apply Forall_cons in Hk as [? Hk]); by simplify_map_eq.
Qed.

Lemma invocations_follow_the_step_list_witness :
  ∃ s, two_steps !! 1 = Some s ∧
    fabber_options true s !! "model-group" = Some (Py.Str "asl") ∧
    fabber_options true s !! "data" = Some (Py.Str (iname (infile s))) ∧
    fabber_options true s !! "roi" = Some (Py.Str (iname (mask s))) ∧
    fabber_options true s !! "output-rename" = Some (Py.Dict output_rename) ∧
    (is_Some (prev_step s) →
       fabber_options true s !! "continue-from-mvn" = Some (Py.Str "finalMVN")) ∧
    (∀ k, k ∉ own_keys → fabber_options true s !! k = options s !! k).
Proof.
  destruct (invocations_follow_the_step_list idle_process two_steps "BASIL" both_succeed 1
              (fabber_options true
                 (mkStep 2 "STEP 2: Spatial VB - Tissue" (demo_image "asldata")
                    (demo_image "mask") (<["method" := Py.Str "spatialvb"]> ∅) (Some 1%Z))))
    as (s & Hs & H); [vm_compute; reflexivity|].
  exists s. split; [exact Hs|]. injection Hs as <-. exact H.
Defined.

(** *** The log of a run in which every step succeeds *)

Lemma completesb_reported n evs :
  completesb n evs = true → length (reported_logs evs) = n.
Proof.
  unfold reported_logs. revert n. induction evs as [|ev evs IH]; intros n Hc.
  - simpl in Hc. by apply bool_decide_eq_true in Hc.
  - destruct ev as [st lg exc|c|name]; simpl in Hc; cbn [omap list_omap length].
    + destruct n as [|n]; [done|]. apply andb_prop in Hc as [_ Hc].
      by rewrite (IH n).
    + apply andb_prop in Hc as [_ Hc]. by apply IH.
    + apply andb_prop in Hc as [_ Hc]. by apply IH.
Qed.

Lemma completesb_reports_end n evs : completesb n evs = true → Forall reports_end evs.
Proof.
  revert n. induction evs as [|ev evs IH]; intros n Hc; [constructor|].
  destruct ev as [st lg exc|c|name]; simpl in Hc.
  - destruct n as [|n]; [done|]. apply andb_prop in Hc as [Hst Hc].
    apply bool_decide_eq_true in Hst as ->. constructor; [done|by eapply IH].
  - apply andb_prop in Hc as [_ Hc]. constructor; [done|by eapply IH].
  - apply andb_prop in Hc as [_ Hc]. constructor; [done|by eapply IH].
Qed.

Lemma deliver_success_log evs : ∀ self lg lgs,
  status self = RUNNING → step_num self ≤ length (steps self) →
  completesb (S (length (steps self) - step_num self)) evs = true →
  reported_logs evs = lg :: lgs →
  log (deliver self evs).1
    = log self +:+ (lg +:+ nl +:+ nl +:+ success_log (drop (step_num self) (steps self)) lgs).
Proof.
  induction evs as [|ev evs IH]; intros self lg lgs Hrun Hle Hc Hlogs; [done|].
  rewrite deliver_cons_final.
  destruct ev as [st lg0 exc|c|name]; simpl in Hc;
    change (reported_logs (?e :: evs)) with
      (match e with finished _ l _ => l :: reported_logs evs | _ => reported_logs evs end)
      in Hlogs; cbn beta iota in Hlogs.
  - injection Hlogs as -> Hlogs. apply andb_prop in Hc as [Hst Hc].
    apply bool_decide_eq_true in Hst as ->. cbn [handle]. unfold _fabber_finished.
    rewrite decide_False by (rewrite Hrun; intros H; by apply H).
    rewrite decide_True by done.
    destruct (_next_step_cases (set_log (log self +:+ lg +:+ nl +:+ nl) self) Hrun)
      as [(s & Hs & Hn)|(Hlen & self' & Hn & Hst' & Hlog')]; rewrite Hn; cbn [fst].
    + cbn [steps step_num set_log] in Hs. pose proof (lookup_lt_Some _ _ _ Hs) as Hlt.
      replace (length (steps self) - step_num self)
        with (S (length (steps self) - S (step_num self))) in Hc by lia.
      pose proof (completesb_reported _ _ Hc) as Hn'.
      destruct (reported_logs evs) as [|lg' lgs'] eqn:Hrep; [done|]. subst lgs.
      erewrite IH; [|done|cbn; lia|exact Hc|reflexivity].
      cbn [log steps step_num set_log set_step_num].
      rewrite (drop_S _ _ _ Hs). cbn [success_log]. fold (announced s).
      by rewrite !QpwrapProofs.append_assoc.
    + cbn [steps step_num set_log] in Hlen.
      replace (length (steps self) - step_num self) with 0 in Hc by lia.
      destruct evs as [|ev' evs']; [|by destruct ev'].
      cbn in Hlogs. subst lgs. cbn [deliver fst]. rewrite Hlog'. cbn [log set_log].
      rewrite drop_ge by lia. cbn [success_log]. by rewrite !QpwrapProofs.append_assoc.
  - assert ((handle self (progress c)).1 = self) as ->.
    { cbn [handle]. unfold _fabber_progress. destruct (decide _); [|done].
      by destruct (steps self). }
    by apply IH.
  - cbn [handle fst].
    by rewrite (IH (set_ivm_data ({[name]} ∪ ivm_data self) self) lg lgs).
Qed.

(** X22: When every step succeeds, the log of the process, which is also
    the log that the completion signal carries, is the log text of
    [basil.get_steps] followed, for each step in order, by the line of the
    step (with [- init with STEP n] for a step that continues from step
    [n]) and the log that the fitting process reported for it, each
    followed by an empty line, and then by the line [COMPLETE]. *)
Theorem log_of_a_successful_run
    (self : BasilProcess) (built : list Step) (logtext : string) (evs : list Event) :
  completesb (length built) evs = true →
  log (whole_run self built logtext evs).1
    = logtext +:+ success_log built (reported_logs evs) ∧
  ∃ pre exc,
    (whole_run self built logtext evs).2
      = pre ++ [sig_finished SUCCEEDED
                  (logtext +:+ success_log built (reported_logs evs)) exc].
Proof.
  intros Hc.
  assert (log (whole_run self built logtext evs).1
          = logtext +:+ success_log built (reported_logs evs)) as Hlog.
  { rewrite whole_run_final. unfold run_steps.
    set (self0 := set_status RUNNING
                    (set_step_num 0 (set_log logtext (set_steps built self)))).
    destruct (_next_step_cases self0) as [(s & Hs & Hn)|(Hlen & self' & Hn & Hst' & Hlog')];
      [done| |]; rewrite Hn; cbn [fst].
    - cbn in Hs. destruct built as [|s' rest]; [done|]. injection Hs as ->.
      pose proof (completesb_reported _ _ Hc) as Hn'.
      destruct (reported_logs evs) as [|lg lgs] eqn:Hrep; [done|].
      erewrite deliver_success_log; [|done|cbn; lia| |exact Hrep].
      + cbn [log steps step_num set_log set_step_num set_status set_steps self0 drop].
        cbn [success_log]. fold (announced s). by rewrite !QpwrapProofs.append_assoc.
      + cbn. by rewrite Nat.sub_0_r.
    - cbn in Hlen. destruct built as [|s' rest]; [|simpl in Hlen; lia].
      destruct evs as [|ev' evs']; [|by destruct ev'].
      cbn [deliver fst]. by rewrite Hlog'. }
  split; [exact Hlog|].
  pose proof (completesb_reports_end _ _ Hc) as Hend.
  rewrite whole_run_effects, whole_run_final in *. unfold run_steps in *.
  set (self0 := set_status RUNNING
                  (set_step_num 0 (set_log logtext (set_steps built self)))) in *.
  destruct (_next_step_cases self0) as [(s & Hs & Hn)|(Hlen & self' & Hn & Hst' & Hlog')];
    [done| |]; rewrite Hn in *; cbn [fst snd] in *.
  - cbn in Hs. destruct built as [|s' rest]; [done|]. injection Hs as ->.
    match goal with |- context [deliver ?s1 evs] =>
      destruct (deliver_running evs s1)
        as (selfn & pre & lg & exc & Hd & _ & _ & _ & _);
        [done|cbn; lia|cbn; by rewrite Nat.sub_0_r|];
      destruct (deliver_running_completion evs s1)
        as [[Hnone _]|(pre' & st & lg' & exc' & Hd' & _ & _ & _ & Hl')]; [done|done| |]
    end; rewrite Hd in *; cbn [fst snd] in *.
    + rewrite completions_app in Hnone. by destruct (completions pre).
    + apply app_inj_tail in Hd' as [<- [= <- <- <-]].
      rewrite Hlog in Hl'. subst lg. by eexists (_ :: _ :: pre), exc.
  - cbn in Hlen. destruct built as [|s' rest]; [|simpl in Hlen; lia].
    destruct evs as [|ev' evs']; [|by destruct ev'].
    cbn [deliver fst snd] in *. rewrite app_nil_r. rewrite Hlog' in Hlog.
    rewrite <- Hlog. by eexists _, _.
Qed.

Lemma log_of_a_successful_run_witness :
  log (whole_run idle_process two_steps "BASIL" both_succeed).1
    = "BASIL" +:+ success_log two_steps (reported_logs both_succeed) ∧
  ∃ pre exc,
    (whole_run idle_process two_steps "BASIL" both_succeed).2
      = pre ++ [sig_finished SUCCEEDED
                  ("BASIL" +:+ success_log two_steps (reported_logs both_succeed)) exc].
Proof.
  apply (log_of_a_successful_run idle_process two_steps "BASIL" both_succeed).
  reflexivity.
Defined.

End ProcessProofs.
